(** * UI capture system: workflow engine, stability detectors, selector fallback

    A shallow embedding of the parts of the repository that carry the
    algorithmic content (retry/backoff and polling, locator fallback and the
    actions built on it, animation wait and listing, modal and overlay
    detection, workflow loader validation, screenshot fallback, the
    engine's step loop and the command line's runner), followed by the
    properties proved about them.

    Conventions of the embedding.
    - A Python call that may raise returns a [result]: [Ok v] or [Raise e].
      [exn] stands for instances of Python's [Exception] class, which is what
      every [except Exception] clause of the sources catches; interrupts
      outside that class are not modelled.
    - The browser (Playwright) is outside the repository: every browser query
      is a field of a record of oracles, so that each statement quantifies
      over all behaviours of the browser.
    - Python and JavaScript floating point numbers are modelled as rationals
      ([Q]); Python [int] is [Z]. *)

From Stdlib Require Import String Ascii List Bool Arith ZArith QArith Lia.
From Stdlib Require Import Qround DecimalString.
From Stdlib Require Import Sorting.Permutation Sorting.Sorted.
Import ListNotations.

Close Scope Q_scope.
Set Implicit Arguments.

(* ================================================================== *)
(** * Python runtime: exceptions, results, small string helpers       *)
(* ================================================================== *)

Module Py.

Local Open Scope string_scope.

(** An instance of (a subclass of) [Exception]: its class name, [str(e)]
    and [repr(e)]. *)
Record exn : Type := mkExn {
  exc_type : string;
  exc_str  : string;
  exc_repr : string
}.

Inductive result (A : Type) : Type :=
| Ok (v : A)
| Raise (e : exn).

Arguments Ok {A} v.
Arguments Raise {A} e.

Definition bind {A B} (r : result A) (k : A -> result B) : result B :=
  match r with
  | Ok v => k v
  | Raise e => Raise e
  end.

Definition is_ok {A} (r : result A) : bool :=
  match r with Ok _ => true | Raise _ => false end.

(** [sep.join(parts)] *)
Fixpoint join (sep : string) (parts : list string) : string :=
  match parts with
  | [] => ""
  | [p] => p
  | p :: rest => p ++ sep ++ join sep rest
  end.

(** [str(n)] for a non-negative integer. *)
Definition str_of_nat (n : nat) : string :=
  NilEmpty.string_of_uint (Nat.to_uint n).

(** [int(x)] on a float: truncation toward zero. *)
Definition int_of_float (x : Q) : Z :=
  Z.quot (Qnum x) (Zpos (Qden x)).

(** [math.ceil(x)] *)
Definition ceil (x : Q) : Z := Qceiling x.

(** [min(a, b)] and [max(a, b)] on floats (first argument wins on ties,
    as in Python). *)
Definition fmin (a b : Q) : Q := if Qlt_le_dec b a then b else a.
Definition fmax (a b : Q) : Q := if Qlt_le_dec a b then b else a.

Definition newline : string := String (ascii_of_nat 10) "".

End Py.

Export Py.

(* ================================================================== *)
(** * src/utils/timing.py                                             *)
(* ================================================================== *)

Module Timing.

(** What a run of [retry] does to the outside world: how many times the
    callable has been invoked, which sleeps were requested (most recent
    last) and which [before_retry] hook calls were made. *)
Record Effects : Type := mkEffects {
  calls  : nat;
  sleeps : list Z;
  hooks  : list (Z * exn)
}.

Definition no_effects : Effects := mkEffects 0 [] [].

Definition did_call (s : Effects) : Effects :=
  mkEffects (S (calls s)) (sleeps s) (hooks s).

(** [sleep_ms(ms)]: the call is recorded whatever [ms] is; the function
    returns at once when [ms <= 0]. *)
Definition sleep_ms (ms : Z) (s : Effects) : Effects :=
  mkEffects (calls s) (sleeps s ++ [ms]) (hooks s).

Definition did_hook (attempt : Z) (e : exn) (s : Effects) : Effects :=
  mkEffects (calls s) (sleeps s) (hooks s ++ [(attempt, e)]).

(** Backoff parameters of [exp_backoff_delays_ms]. [uniform k lo hi] is
    the value returned by the [k]-th call of [random.uniform]. *)
Record Backoff : Type := mkBackoff {
  initial_ms : Z;
  factor     : Q;
  max_ms     : Z;
  jitter     : Q;
  uniform    : nat -> Q -> Q -> Q
}.

(** The body of the generator's [for] loop, unrolled [n] times from the
    current base [delay]; [k] counts the draws already made. *)
Fixpoint backoff_from (b : Backoff) (n k : nat) (delay : Z) : list Z :=
  match n with
  | O => []
  | S n' =>
      let jitter_amt := (inject_Z delay * jitter b)%Q in
      let drew := if Qlt_le_dec 0 jitter_amt then true else false in
      let delay_j :=
        if drew
        then (inject_Z delay + uniform b k (- jitter_amt) jitter_amt)%Q
        else inject_Z delay in
      int_of_float (fmin (inject_Z (max_ms b)) (fmax 0 delay_j))
        :: backoff_from b n' (if drew then S k else k)
             (Z.min (max_ms b) (ceil (inject_Z delay * factor b)%Q))
  end.

(** [exp_backoff_delays_ms(attempts, ...)]: the delays the generator
    yields, in order. It runs [range(max(1, attempts))]. *)
Definition exp_backoff_delays_ms (attempts : Z) (b : Backoff) : list Z :=
  backoff_from b (Z.to_nat (Z.max 1%Z attempts)) 0%nat (Z.max 0%Z (initial_ms b)).

Section Retry.
Variable T : Type.

(** The callable: [fn k] is what its invocation returns or raises when
    it has been invoked [k] times before. *)
Variable fn : nat -> result T.

(** [isinstance(exc, exceptions)] for the [exceptions] tuple. *)
Variable exceptions : exn -> bool.

(** Whether a [before_retry] hook was passed. *)
Variable before_retry : bool.

Definition invoke (s : Effects) : result T * Effects :=
  (fn (calls s), did_call s).

(** The final attempt after the loop: whatever [fn] raises is re-raised,
    whether or not it is among [exceptions]. *)
Definition last_attempt (s : Effects) : result T * Effects :=
  invoke s.

(** The [for attempt, delay in enumerate(..., start=1)] loop followed by
    the last attempt. *)
Fixpoint retry_loop (attempts attempt : Z) (delays : list Z) (s : Effects)
  : result T * Effects :=
  match delays with
  | [] => last_attempt s
  | delay :: rest =>
      match invoke s with
      | (Ok v, s1) => (Ok v, s1)
      | (Raise exc, s1) =>
          if exceptions exc then
            if (attempts <=? attempt)%Z then last_attempt s1      (* break *)
            else
              let s2 := if before_retry then did_hook attempt exc s1 else s1 in
              retry_loop attempts (attempt + 1)%Z rest (sleep_ms delay s2)
          else (Raise exc, s1)
      end
  end.

Definition retry (tries : Z) (b : Backoff) : result T * Effects :=
  let attempts := Z.max 1%Z tries in
  retry_loop attempts 1%Z (exp_backoff_delays_ms (attempts - 1)%Z b) no_effects.

End Retry.

(** The defaults of [retry]'s keyword arguments. *)
Definition default_backoff (u : nat -> Q -> Q -> Q) : Backoff :=
  mkBackoff 200%Z 2%Q 2000%Z (1 # 10)%Q u.

(** ** Two callables *)

(** A callable that fails with [e] whatever happens. *)
Definition always_raising (e : exn) : nat -> result unit := fun _ => Raise e.

(** A callable that times out twice and then returns 42. *)
Definition flaky_twice : nat -> result Z :=
  fun k => match k with
           | 0%nat => Raise (mkExn "TimeoutError" "first" "TimeoutError('first')")
           | 1%nat => Raise (mkExn "TimeoutError" "second" "TimeoutError('second')")
           | _ => Ok 42%Z
           end.

End Timing.

(* ================================================================== *)
(** * Strings as Python sees them                                     *)
(* ================================================================== *)

Module PyStr.

(** [ch.isspace()] for a code point below 256. *)
Definition isspace (c : ascii) : bool :=
  let n := nat_of_ascii c in
  ((9 <=? n) && (n <=? 13)) || ((28 <=? n) && (n <=? 32))
  || (n =? 133) || (n =? 160).

Fixpoint lstrip (s : string) : string :=
  match s with
  | String c rest => if isspace c then lstrip rest else s
  | EmptyString => EmptyString
  end.

Fixpoint rstrip (s : string) : string :=
  match s with
  | EmptyString => EmptyString
  | String c rest =>
      match rstrip rest with
      | EmptyString => if isspace c then EmptyString else String c EmptyString
      | r => String c r
      end
  end.

(** [s.strip()] *)
Definition strip (s : string) : string := rstrip (lstrip s).

(** [s.startswith(p)] *)
Definition startswith (p s : string) : bool := String.prefix p s.

(** [s.split(sep, 1)] when [sep] occurs in [s]: the text before and after
    its first occurrence. [sep] is not empty. *)
Fixpoint split_once (sep s : string) : option (string * string) :=
  if String.prefix sep s
  then Some (EmptyString, String.substring (String.length sep)
                            (String.length s - String.length sep) s)
  else match s with
       | EmptyString => None
       | String c rest =>
           match split_once sep rest with
           | Some (a, b) => Some (String c a, b)
           | None => None
           end
       end.

(** [sub in s] *)
Definition contains (sub s : string) : bool :=
  match split_once sub s with
  | Some _ => true
  | None => match sub with EmptyString => true | _ => false end
  end.

(** [ch.lower()] on the ASCII letters. *)
Definition lower_char (c : ascii) : ascii :=
  let n := nat_of_ascii c in
  if (65 <=? n) && (n <=? 90) then ascii_of_nat (n + 32) else c.

Fixpoint lower (s : string) : string :=
  match s with
  | EmptyString => EmptyString
  | String c rest => String (lower_char c) (lower rest)
  end.

(** [ch.isalnum()] on ASCII. *)
Definition isalnum (c : ascii) : bool :=
  let n := nat_of_ascii c in
  ((48 <=? n) && (n <=? 57)) || ((65 <=? n) && (n <=? 90))
  || ((97 <=? n) && (n <=? 122)).

Fixpoint map_chars (f : ascii -> ascii) (s : string) : string :=
  match s with
  | EmptyString => EmptyString
  | String c rest => String (f c) (map_chars f rest)
  end.

Definition dquote : string := String (ascii_of_nat 34) EmptyString.

End PyStr.

(* ================================================================== *)
(** * src/core/workflow_loader.py: enums and the selector model       *)
(* ================================================================== *)

Module Schema.

Local Open Scope string_scope.

Inductive SelectorStrategy : Type := css | text | role | xpath.

(** The enum member's value. *)
Definition strategy_value (st : SelectorStrategy) : string :=
  match st with
  | css => "css" | text => "text" | role => "role" | xpath => "xpath"
  end.

Record Selector : Type := mkSelector {
  value      : string;
  strategy   : SelectorStrategy;
  timeout_ms : Z
}.

Inductive ActionName : Type :=
| goto | click | type | fill | press | hover | wait | wait_for_selector
| wait_for_network_idle | select_option | check | uncheck | screenshot
| set_input_files | assert_visible | assert_text | assert_url_contains.

Definition action_value (a : ActionName) : string :=
  match a with
  | goto => "goto" | click => "click" | type => "type" | fill => "fill"
  | press => "press" | hover => "hover" | wait => "wait"
  | wait_for_selector => "wait_for_selector"
  | wait_for_network_idle => "wait_for_network_idle"
  | select_option => "select_option" | check => "check"
  | uncheck => "uncheck" | screenshot => "screenshot"
  | set_input_files => "set_input_files"
  | assert_visible => "assert_visible" | assert_text => "assert_text"
  | assert_url_contains => "assert_url_contains"
  end.

Definition action_eqb (a b : ActionName) : bool :=
  String.eqb (action_value a) (action_value b).

End Schema.

(* ================================================================== *)
(** * src/selectors/locator.py                                        *)
(* ================================================================== *)

Module Locator.
Import Schema PyStr.
Local Open Scope string_scope.

(** A Playwright locator, as the query that built it. *)
Inductive Query : Type :=
| ByCss (v : string)                          (* page.locator(v) *)
| ByText (v : string)                         (* page.get_by_text(v, exact=False) *)
| ByRole (r : string) (name : option string)  (* page.get_by_role(r, name=...) *)
| ByXpath (v : string)                        (* page.locator("xpath=" + v) *)
| First (q : Query).                          (* q.first *)

(** The browser page as the selector layer uses it. The timeouts the code
    passes are arguments of the oracles. *)
Record Page : Type := mkPage {
  get_by_role_raises : string -> option string -> bool;
  count              : Query -> result nat;
  is_visible         : Query -> Z -> result bool;
  wait_for           : Query -> string -> Z -> result unit
}.

Definition nonempty (s : string) : option string :=
  match s with EmptyString => None | _ => Some s end.

Definition _parse_role_value (v0 : string) : string * option string :=
  let v := strip v0 in
  match split_once "|" v with
  | Some (r, name) => (strip r, nonempty (strip name))
  | None =>
      match split_once " name=" v with
      | Some (r, name) => (strip r, nonempty (strip name))
      | None => (v, None)
      end
  end.

Definition resolve_locator (page : Page) (sel : Selector) : Query :=
  match strategy sel with
  | css => ByCss (value sel)
  | text => ByText (value sel)
  | role =>
      let '(r, name) := _parse_role_value (value sel) in
      if get_by_role_raises page r name
      then ByCss ("[role=" ++ dquote ++ r ++ dquote ++ "]"
                  ++ match name with
                     | Some n => "[aria-label=" ++ dquote ++ n ++ dquote ++ "]"
                     | None => ""
                     end)
      else ByRole r name
  | xpath => ByXpath (value sel)
  end.

End Locator.

(* ================================================================== *)
(** * src/selectors/strategy.py                                       *)
(* ================================================================== *)

Module Strategy.
Import Schema Locator.
Local Open Scope string_scope.

Record ChosenLocator : Type := mkChosen {
  selector : Selector;
  locator  : Query;
  how      : string;       (* "visible" | "first" | "state-wait" *)
  index    : nat
}.

(** [LocatorStrategy]: the page and [per_selector_wait_ms] as stored by
    [__init__], that is, already clamped at zero. *)
Record LocatorStrategy : Type := mkStrategy {
  page : Page;
  per_selector_wait_ms : Z
}.

Definition new_strategy (p : Page) (wait_ms : Z) : LocatorStrategy :=
  mkStrategy p (Z.max 0 wait_ms).

(** The two local variables of [choose]. *)
Record Scan : Type := mkScan {
  errors        : list string;
  first_present : option (nat * Selector * Query)
}.

(** The two diagnostics. [sel.strategy] is a member of an enum that mixes in
    [str]; it is written here as its value, which is how f-strings format it
    before Python 3.11 (later versions print the qualified member name). *)
Definition none_found (idx : nat) (sel : Selector) : string :=
  "[" ++ str_of_nat idx ++ "] none found: "
      ++ strategy_value (strategy sel) ++ ":" ++ value sel.

Definition probe_error (idx : nat) (sel : Selector) (e : exn) : string :=
  "[" ++ str_of_nat idx ++ "] error: "
      ++ strategy_value (strategy sel) ++ ":" ++ value sel ++ " -> " ++ exc_repr e.

Definition add_error (st : Scan) (msg : string) : Scan :=
  mkScan (errors st ++ [msg]) (first_present st).

Definition remember (st : Scan) (idx : nat) (sel : Selector) (loc : Query) : Scan :=
  match first_present st with
  | None => mkScan (errors st) (Some (idx, sel, First loc))
  | Some _ => st
  end.

(** The [for idx, sel in enumerate(selectors)] loop: [inl] is the early
    [return], [inr] the state when the loop runs out. *)
Fixpoint scan (self : LocatorStrategy) (require_visible : bool)
         (idx : nat) (selectors : list Selector) (st : Scan)
  : ChosenLocator + Scan :=
  match selectors with
  | [] => inr st
  | sel :: rest =>
      let loc := resolve_locator (page self) sel in
      match count (page self) loc with
      | Raise e => scan self require_visible (S idx) rest (add_error st (probe_error idx sel e))
      | Ok O => scan self require_visible (S idx) rest (add_error st (none_found idx sel))
      | Ok (S _) =>
          if require_visible then
            match is_visible (page self) (First loc) (per_selector_wait_ms self) with
            | Raise e =>
                scan self require_visible (S idx) rest (add_error st (probe_error idx sel e))
            | Ok true => inl (mkChosen sel (First loc) "visible" idx)
            | Ok false => scan self require_visible (S idx) rest (remember st idx sel loc)
            end
          else scan self require_visible (S idx) rest (remember st idx sel loc)
      end
  end.

Definition not_found_message (errs : list string) : string :=
  "No selector matched (or became visible). Tried:" ++ newline ++ "  "
    ++ join (newline ++ "  ") (match errs with [] => ["<none>"] | _ => errs end).

Definition SelectorNotFound (msg : string) : exn :=
  mkExn "SelectorNotFound" msg ("SelectorNotFound(" ++ msg ++ ")").

Definition choose (self : LocatorStrategy) (selectors : list Selector)
           (require_visible : bool) : result ChosenLocator :=
  match scan self require_visible 0 selectors (mkScan [] None) with
  | inl chosen => Ok chosen
  | inr st =>
      match first_present st with
      | Some (idx, sel, loc) =>
          match wait_for (page self) loc "visible" (per_selector_wait_ms self) with
          | Ok _ => Ok (mkChosen sel loc "state-wait" idx)
          | Raise _ => Raise (SelectorNotFound (not_found_message (errors st)))
          end
      | None => Raise (SelectorNotFound (not_found_message (errors st)))
      end
  end.

(** ** What one candidate looks like to the loop *)






(** Position and value of the first element satisfying [p], positions
    counted from [idx]. *)
Fixpoint first_from (A : Type) (p : A -> bool) (idx : nat) (l : list A)
  : option (nat * A) :=
  match l with
  | [] => None
  | x :: rest => if p x then Some (idx, x) else first_from p (S idx) rest
  end.


(** ** A page that does not change *)

Fixpoint query_text (q : Query) : string :=
  match q with
  | ByCss v => v
  | ByText v => v
  | ByRole r _ => r
  | ByXpath v => v
  | First q' => query_text q'
  end.

Definition listed (v : string) (l : list string) : bool :=
  existsb (String.eqb v) l.

(** A page on which the queries of [attached] match one element each and
    those of [shown] are visible; waiting for visibility times out on the
    others. *)
Definition static_page (attached shown : list string) : Page :=
  mkPage (fun _ _ => false)
         (fun q => Ok (if listed (query_text q) attached then 1 else 0))
         (fun q _ => Ok (listed (query_text q) shown))
         (fun q _ _ =>
            if listed (query_text q) shown then Ok tt
            else Raise (mkExn "TimeoutError" "Timeout 2000ms exceeded."
                              "TimeoutError('Timeout 2000ms exceeded.')")).

Definition by_css (v : string) : Selector := mkSelector v css 5000.

End Strategy.

(* ================================================================== *)
(** * src/detection/stability.py, src/detection/animation_detector.py *)
(* ================================================================== *)

Module Stability.

(** One entry of [animation-iteration-count]: the keyword [infinite] or a
    number as [parseFloat] reads it ([None] when it reads NaN). *)
Inductive IterationCount : Type :=
| infinite
| iterations (v : option Q).

(** The computed style of one element, each property split at the commas;
    durations and delays as [parseFloat] reads them, in seconds. *)
Record ComputedStyle : Type := mkStyle {
  transitionDuration      : list (option Q);
  transitionDelay         : list (option Q);
  animationDuration       : list (option Q);
  animationDelay          : list (option Q);
  animationIterationCount : list IterationCount
}.

(** The document at one instant. Elements are numbered. *)
Record Dom : Type := mkDom {
  documentElement  : nat;
  querySelectorAll : string -> list nat;     (* document.querySelectorAll(sel) *)
  descendants      : nat -> list nat;        (* el.querySelectorAll("*") *)
  getComputedStyle : nat -> ComputedStyle
}.

(** The page: its document as a function of the time on its clock (ms). *)
Definition Page : Type := Q -> Dom.

(** [parseFloat(s) * 1000 || 0] *)
Definition to_ms (v : option Q) : Q :=
  match v with
  | Some x => (x * 1000)%Q
  | None => 0%Q
  end.

(** [v.trim()==='infinite' ? 1 : parseFloat(v)||0] *)
Definition to_iters (c : IterationCount) : Q :=
  match c with
  | infinite => 1%Q
  | iterations (Some x) => x
  | iterations None => 0%Q
  end.

(** [a[i] || d] for a numeric array: the default for a missing entry and
    for zero. *)
Definition at_or (a : list Q) (i : nat) (d : Q) : Q :=
  match nth_error a i with
  | Some x => if Qeq_bool x 0 then d else x
  | None => d
  end.

(** [if (end > now()) endTimes.push(end)] *)
Definition push_if_later (now endt : Q) : list Q :=
  if Qlt_le_dec now endt then [endt] else [].

(** [consider(el)]: the end times it pushes, in order. *)
Definition consider (now : Q) (cs : ComputedStyle) : list Q :=
  let tDur := map to_ms (transitionDuration cs) in
  let tDelay := map to_ms (transitionDelay cs) in
  let aDur := map to_ms (animationDuration cs) in
  let aDelay := map to_ms (animationDelay cs) in
  let aIter := map to_iters (animationIterationCount cs) in
  flat_map (fun i => push_if_later now (now + at_or tDur i 0 + at_or tDelay i 0)%Q)
           (seq 0 (Nat.max (length tDur) (length tDelay)))
  ++
  flat_map (fun i =>
              let iters := at_or aIter i 1 in
              push_if_later now (now + at_or aDur i 0 * iters + at_or aDelay i 0)%Q)
           (seq 0 (Nat.max (length aDur) (Nat.max (length aDelay) (length aIter)))).

(** [Math.max(0, ...xs)] *)
Definition js_max0 (xs : list Q) : Q := fold_left fmax xs 0%Q.

(** The script both waits evaluate in the page: the suggested sleep in
    ms. [sel] is the Python argument ([None] is passed as [null]); the
    clock does not advance while the script runs. *)
Definition idle_script (dom : Dom) (now : Q) (sel : option string) (minIdle : Z) : Q :=
  let nodes :=
    match sel with
    | Some (String c r) => querySelectorAll dom (String c r)
    | _ => [documentElement dom]
    end in
  let visited := flat_map (fun n => n :: descendants dom n) nodes in
  let endTimes := flat_map (fun el => consider now (getComputedStyle dom el)) visited in
  let remaining := (fmax 0 (js_max0 endTimes - now) + inject_Z minIdle)%Q in
  fmin 2000 remaining.

(** What a wait did: the page clock when it returned, the sleeps it
    requested through [page.wait_for_timeout] (in order), how many times
    it evaluated the script and how many times it awaited the two nested
    [requestAnimationFrame] callbacks. *)
Record Waited : Type := mkWaited {
  clock   : Q;
  slept   : list Z;
  polls   : nat;
  flushes : nat
}.

(** [page.wait_for_timeout(ms)] *)
Definition wait_for_timeout (ms : Z) (w : Waited) : Waited :=
  mkWaited (clock w + inject_Z (Z.max 0 ms))%Q (slept w ++ [ms]) (polls w) (flushes w).

Definition polled (w : Waited) : Waited :=
  mkWaited (clock w) (slept w) (S (polls w)) (flushes w).

(** The two nested animation frames awaited before returning. *)
Definition flush_paint (w : Waited) : Waited :=
  mkWaited (clock w) (slept w) (polls w) (S (flushes w)).

(** [not ms or ms <= min_idle_ms // 2] *)
Definition is_idle (ms : Q) (min_idle_ms : Z) : bool :=
  Qeq_bool ms 0 || Qle_bool ms (inject_Z (min_idle_ms / 2)).

(** [n] rounds of the [for _ in range(10)] loop. *)
Fixpoint poll_loop (page : Page) (sel : option string) (min_idle_ms : Z)
         (n : nat) (w : Waited) : Waited :=
  match n with
  | O => w
  | S n' =>
      let ms := idle_script (page (clock w)) (clock w) sel min_idle_ms in
      let w1 := polled w in
      if is_idle ms min_idle_ms
      then flush_paint w1                                      (* return *)
      else poll_loop page sel min_idle_ms n' (wait_for_timeout (int_of_float ms) w1)
  end.

Definition started (t0 : Q) : Waited := mkWaited t0 [] 0 0.

(** stability.py *)
Definition wait_for_animations_to_finish
           (page : Page) (t0 : Q) (selector : option string) (min_idle_ms : Z) : Waited :=
  poll_loop page selector min_idle_ms 10 (started t0).

(** animation_detector.py, [AnimationDetector.wait_until_idle]: the same
    script (the nodes are visited in the same order) and the same loop. *)
Definition wait_until_idle
           (page : Page) (t0 : Q) (root_selector : option string) (min_idle_ms : Z) : Waited :=
  poll_loop page root_selector min_idle_ms 10 (started t0).

(** Time actually slept: a non-positive timeout returns at once. *)
Definition total_sleep (w : Waited) : Z :=
  fold_right (fun d acc => (Z.max 0 d + acc)%Z) 0%Z (slept w).

(** ** A page with one element carrying a 300 ms transition *)

(** [transition-duration: 300ms; transition-delay: 0ms], every animation
    property at its initial value. *)
Definition style_300ms : ComputedStyle :=
  mkStyle [Some (3 # 10)%Q] [Some 0%Q] [Some 0%Q] [Some 0%Q] [iterations (Some 1%Q)].

Definition dom_300ms : Dom :=
  mkDom 0 (fun _ => []) (fun _ => []) (fun _ => style_300ms).

Definition page_300ms : Page := fun _ => dom_300ms.

End Stability.

(* ================================================================== *)
(** * src/detection/modal_detector.py                                 *)
(* ================================================================== *)

Module Modal.
Local Open Scope string_scope.

(** One element matched by [CANDIDATE_CSS], as the answers the browser
    gives about it. *)
Record Element : Type := mkElement {
  el_is_visible       : result bool;                  (* loc.is_visible() *)
  el_zIndex           : result (option Z);            (* parseInt(cs.zIndex, 10); None when not finite *)
  el_bounding_box     : result (option (Q * Q * Q * Q)); (* loc.bounding_box(): x, y, width, height *)
  el_client_rect      : result (Q * Q * Q * Q);       (* getBoundingClientRect(): left, top, width, height *)
  el_sibling_backdrop : result bool;                  (* the sibling scan of _has_backdrop *)
  el_hint             : result string                 (* the script of _hint_for *)
}.

Record Page : Type := mkPage {
  candidates       : result (list Element);   (* page.locator(CANDIDATE_CSS): count() and nth(i) *)
  backdrop_count   : result nat;              (* page.locator(BACKDROP_CSS).count() *)
  backdrop_visible : nat -> result bool;      (* backdrop.nth(i).is_visible() *)
  innerWidth       : Q;
  innerHeight      : Q
}.

Record ModalInfo : Type := mkModalInfo {
  locator       : nat;                 (* candidates.nth(locator) *)
  selector_hint : string;
  z_index       : Z;
  bbox          : Z * Z * Z * Z;
  has_backdrop  : bool
}.

Definition _hint_for (el : Element) : string :=
  match el_hint el with
  | Ok h => h
  | Raise _ => "<element>"
  end.

(** The script deciding whether the element's center is in the viewport. *)
Definition center_in_viewport (page : Page) (r : Q * Q * Q * Q) : bool :=
  let '(r_left, r_top, r_width, r_height) := r in
  let cx := (r_left + r_width / 2)%Q in
  let cy := (r_top + r_height / 2)%Q in
  Qle_bool 0 cx && Qle_bool 0 cy
  && Qle_bool cx (innerWidth page) && Qle_bool cy (innerHeight page).

Definition _zindex_and_bbox (page : Page) (el : Element)
  : result (Z * (Z * Z * Z * Z) * bool) :=
  let z := match el_zIndex el with
           | Ok (Some zi) => zi
           | Ok None => 0%Z
           | Raise _ => 0%Z
           end in
  match el_bounding_box el with
  | Raise e => Raise e
  | Ok b =>
      let '(bx, by_, bw, bh) :=
        match b with Some box => box | None => (0, 0, 0, 0)%Q end in
      let x := int_of_float bx in
      let y := int_of_float by_ in
      let w := int_of_float bw in
      let h := int_of_float bh in
      let in_vp :=
        match el_client_rect el with
        | Ok r => center_in_viewport page r
        | Raise _ => (0 <? w)%Z && (0 <? h)%Z
        end in
      Ok (z, (x, y, w, h), in_vp)
  end.

(** [for i in range(n)], starting at [i]: is some explicit backdrop
    visible? *)
Fixpoint explicit_backdrop (page : Page) (i n : nat) : result bool :=
  match n with
  | O => Ok false
  | S n' =>
      match backdrop_visible page i with
      | Raise e => Raise e
      | Ok true => Ok true
      | Ok false => explicit_backdrop page (S i) n'
      end
  end.

Definition _has_backdrop (page : Page) (modal : Element) : bool :=
  match bind (backdrop_count page) (fun c => explicit_backdrop page 0 (Nat.min 5 c)) with
  | Ok true => true
  | _ =>
      match el_sibling_backdrop modal with
      | Ok b => b
      | Raise _ => false
      end
  end.

(** The body of the [try] in the loop of [detect_active]: the info built
    for candidate [i], or [None] when the loop continues without one. *)
Definition inspect (page : Page) (i : nat) (el : Element) : option ModalInfo :=
  match el_is_visible el with
  | Raise _ => None
  | Ok false => None
  | Ok true =>
      match _zindex_and_bbox page el with
      | Raise _ => None
      | Ok (z, box, in_vp) =>
          if in_vp
          then Some (mkModalInfo i (_hint_for el) z box (_has_backdrop page el))
          else None
      end
  end.

Fixpoint detect_loop (page : Page) (i : nat) (els : list Element)
         (best : option ModalInfo) : option ModalInfo :=
  match els with
  | [] => best
  | el :: rest =>
      match inspect page i el with
      | Some info =>
          match best with
          | None => detect_loop page (S i) rest (Some info)
          | Some b =>
              if (z_index b <? z_index info)%Z
              then detect_loop page (S i) rest (Some info)
              else detect_loop page (S i) rest best
          end
      | None => detect_loop page (S i) rest best
      end
  end.

Definition detect_active (page : Page) : result (option ModalInfo) :=
  match candidates page with
  | Raise e => Raise e
  | Ok [] => Ok None
  | Ok els => Ok (detect_loop page 0 els None)
  end.

(** ** The terms of the specification *)

(** The candidate is reported visible and counted in the viewport: its
    center lies inside it or, when the center test raises, its bounding box
    is not empty. A candidate whose visibility or bounding box query raises
    does not count. *)
Definition visible_in_viewport (page : Page) (el : Element) : bool :=
  match el_is_visible el with
  | Ok true =>
      match _zindex_and_bbox page el with
      | Ok (_, _, in_vp) => in_vp
      | Raise _ => false
      end
  | _ => false
  end.

(** The computed z-index, 0 when it cannot be read. *)
Definition computed_z (el : Element) : Z :=
  match el_zIndex el with
  | Ok (Some zi) => zi
  | _ => 0%Z
  end.


(** ** Two dialogs *)

(** A visible [role="dialog"] element, 400 by 300 at (100, 100), with the
    given z-index. *)
Definition dialog (z : Z) : Element :=
  mkElement (Ok true) (Ok (Some z))
            (Ok (Some (100, 100, 400, 300)%Q)) (Ok (100, 100, 400, 300)%Q)
            (Ok false) (Ok "div.dialog").

Definition page_with (els : list Element) : Page :=
  mkPage (Ok els) (Ok 0) (fun _ => Ok false) 1366 768.

End Modal.

(* ================================================================== *)
(** * src/core/workflow_loader.py: the goto step                      *)
(* ================================================================== *)

Module Loader.
Import PyStr.
Local Open Scope string_scope.

Definition ValueError (msg : string) : exn :=
  mkExn "ValueError" msg ("ValueError('" ++ msg ++ "')").

(** [StepGoto._url_non_empty], the validator of the [url] field: the
    value the model stores, or the error that rejects the step. *)
Definition _url_non_empty (v0 : string) : result string :=
  let v := strip v0 in
  if negb (startswith "http" v)
  then Raise (ValueError "goto.url must be an absolute http(s) URL")
  else Ok v.

(** An absolute http(s) URL starts with one of the two schemes. *)
Definition is_absolute_http_url (v : string) : bool :=
  startswith "http://" v || startswith "https://" v.

(** A URL carries a scheme when it has the [://] separator. *)
Definition has_scheme (v : string) : bool := contains "://" v.

End Loader.

(* ================================================================== *)
(** * src/utils/config.py: the settings the core reads                *)
(* ================================================================== *)

Module Config.

Record Settings : Type := mkSettings {
  OUTPUT_DIR           : string;
  SCREENSHOT_FORMAT    : string;     (* "png" | "jpeg" *)
  SCREENSHOT_QUALITY   : Z;
  FULL_PAGE_SCREENSHOT : bool;
  MAX_RETRIES          : Z;
  RETRY_DELAY          : Z;
  CONTINUE_ON_ERROR    : bool
}.

End Config.

(* ================================================================== *)
(** * src/core/actions.py                                             *)
(* ================================================================== *)

Module Actions.
Import Schema PyStr Config Timing.
Local Open Scope string_scope.

(** [_with_retry]: [retry] over every [Exception], without hook, with the
    default factor and jitter. *)
Definition _with_retry (T : Type) (op : nat -> result T)
           (tries initial_delay_ms max_delay_ms : Z) (u : nat -> Q -> Q -> Q)
  : result T * Effects :=
  retry op (fun _ => true) false (Z.max 1 tries)
        (mkBackoff initial_delay_ms 2 max_delay_ms (1 # 10) u).

(** [execute_step]: [op k] is what the step's operation ([_do_goto],
    [_do_click], ...) does at its [k]-th invocation. Every action goes
    through the retry policy except [wait]. *)
Definition execute_step (T : Type) (settings : Settings) (u : nat -> Q -> Q -> Q)
           (action : ActionName) (op : nat -> result T) : result T * Effects :=
  let tries := Z.max 1 (MAX_RETRIES settings) in
  let initial_delay := Z.max 0 (RETRY_DELAY settings) in
  let max_delay := Z.max initial_delay 2000 in
  match action with
  | wait => invoke op no_effects
  | _ => _with_retry op tries initial_delay max_delay u
  end.

(** ** Screenshots *)

(** The [run_ctx] argument: the dict the engine passes, or an object with
    an [output_dir] attribute. *)
Inductive RunCtx : Type :=
| CtxDict (output_dir images_dir run_dir : option string)
| CtxObject (output_dir : option string).

Record StepScreenshot : Type := mkStepScreenshot {
  name      : string;
  full_page : option bool;
  selector  : option Selector;
  _index    : option nat
}.

(** The browser and the file system as the capture code uses them.
    [take k element path] is the [k]-th Playwright screenshot call made
    for this step. *)
Record Camera : Type := mkCamera {
  cwd        : string;
  mkdir      : string -> option exn;
  take       : bool -> bool -> string -> option exn;
  image_size : string -> Z * Z;
  page_url   : string;
  page_title : result string;
  write_text : string -> option exn;
  append_to  : string -> option exn
}.

Inductive FileEvent : Type :=
| ImageWritten (path : string)
| SidecarWritten (path : string)
| JsonlAppended (path : string).

Definition path_join (dir file : string) : string := dir ++ "/" ++ file.

(** ["".join(ch if ch.isalnum() or ch in ("-", "_") else "_" ...)] *)
Definition safe_name (base : string) : string :=
  map_chars (fun ch => if isalnum ch || Ascii.eqb ch "-" || Ascii.eqb ch "_"
                       then ch else "_"%char) base.

Definition first_some (a b : option string) : option string :=
  match a with Some _ => a | None => b end.

Definition _get_output_dir (cam : Camera) (ctx : RunCtx) : string :=
  match ctx with
  | CtxObject (Some d) => d
  | CtxObject None => cwd cam
  | CtxDict o i r =>
      match first_some o (first_some i r) with
      | Some d => d
      | None => cwd cam
      end
  end.

Definition _screenshot_path (cam : Camera) (ctx : RunCtx) (base_name ext : string)
  : string :=
  path_join (_get_output_dir cam ctx) (safe_name base_name ++ "." ++ ext).

(** The directory the rich path uses; an object without [output_dir] has
    no [get], the error is caught and the working directory is used. *)
Definition rich_run_dir (cam : Camera) (ctx : RunCtx) : string :=
  match ctx with
  | CtxObject (Some d) => d
  | CtxObject None => cwd cam
  | CtxDict _ i r =>
      match first_some r i with
      | Some d => d
      | None => cwd cam
      end
  end.

Definition step_name (step : StepScreenshot) (log_name : string) : string :=
  match name step with EmptyString => log_name | n => n end.

Definition is_element (step : StepScreenshot) : bool :=
  match selector step with Some _ => true | None => false end.

(** A fallible file or browser operation followed by the rest of the
    path; [evs] are the writes done so far. *)
Definition attempt (r : option exn) (evs : list FileEvent)
           (k : result string * list FileEvent) : result string * list FileEvent :=
  match r with
  | Some e => (Raise e, evs)
  | None => k
  end.

(** The body of the [try]: [ScreenshotManager.page]/[element] followed by
    [MetadataBuilder.record]. *)
Definition rich_capture (cam : Camera) (settings : Settings)
           (step : StepScreenshot) (ctx : RunCtx) (log_name : string)
  : result string * list FileEvent :=
  let run_dir := rich_run_dir cam ctx in
  let out_path :=
    path_join run_dir (safe_name (step_name step log_name)
                       ++ "." ++ SCREENSHOT_FORMAT settings) in
  attempt (mkdir cam run_dir) [] (
  attempt (take cam false (is_element step) out_path) [] (
  let evs1 := [ImageWritten out_path] in
  match page_title cam with
  | Raise e => (Raise e, evs1)
  | Ok _ =>
      attempt (write_text cam (out_path ++ ".json")) evs1 (
      let evs2 := (evs1 ++ [SidecarWritten (out_path ++ ".json")])%list in
      attempt (mkdir cam run_dir) evs2 (
      attempt (append_to cam (path_join run_dir "captures.jsonl")) evs2 (
      (Ok out_path,
       (evs2 ++ [JsonlAppended (path_join run_dir "captures.jsonl")])%list))))
  end)).

(** The body of the [except Exception]: a bare screenshot. *)
Definition bare_capture (cam : Camera) (settings : Settings)
           (step : StepScreenshot) (ctx : RunCtx) (log_name : string)
           (evs : list FileEvent) : result string * list FileEvent :=
  let out_path :=
    _screenshot_path cam ctx (step_name step log_name) (SCREENSHOT_FORMAT settings) in
  match take cam true (is_element step) out_path with
  | Some e => (Raise e, evs)
  | None => (Ok out_path, (evs ++ [ImageWritten out_path])%list)
  end.

Definition _do_screenshot (cam : Camera) (settings : Settings)
           (step : StepScreenshot) (ctx : RunCtx) (log_name : string)
  : result string * list FileEvent :=
  match rich_capture cam settings step ctx log_name with
  | (Ok p, evs) => (Ok p, evs)
  | (Raise _, evs) => bare_capture cam settings step ctx log_name evs
  end.

(** ** A camera whose metadata stream cannot be written *)

Definition OSError (msg : string) : exn := mkExn "OSError" msg ("OSError('" ++ msg ++ "')").

Definition camera_jsonl_broken : Camera :=
  mkCamera "/work" (fun _ => None) (fun _ _ _ => None) (fun _ => (0, 0)%Z)
           "https://example.test/a" (Ok "A")
           (fun _ => None) (fun _ => Some (OSError "read-only")).

Definition default_settings : Settings :=
  mkSettings "/work/datasets" "png" 90 true 3 1000 false.

Definition shot_a : StepScreenshot := mkStepScreenshot "a" None None (Some 2%nat).

Definition engine_ctx : RunCtx :=
  CtxDict None (Some "/work/datasets/run") (Some "/work/datasets/run").

End Actions.

(* ================================================================== *)
(** * src/core/engine.py                                              *)
(* ================================================================== *)

Module Engine.
Import Schema PyStr Config.
Local Open Scope string_scope.

(** A validated step: the common fields, and the fields of the variants
    the engine reads. *)
Record Step : Type := mkStep {
  action        : ActionName;
  name          : option string;
  after_wait_ms : option Z;
  optional      : bool;
  url           : string;             (* goto *)
  selector      : option Selector
}.

Record Workflow : Type := mkWorkflow {
  site                  : string;
  task                  : string;
  description           : option string;
  use_storage_state     : bool;
  steps                 : list Step;
  default_after_wait_ms : option Z
}.

Record Engine : Type := mkEngine {
  settings         : Settings;
  interactive_auth : bool
}.

(** What the engine reads from the page once a step is done, in the order
    it reads it. *)
Record Observation : Type := mkObservation {
  obs_now        : string;                (* datetime.now(timezone.utc).isoformat() with Z *)
  obs_url        : string;                (* page.url or "" *)
  obs_modal_page : Modal.Page;            (* the page as ModalDetector sees it *)
  obs_overlay    : result bool;           (* bool(overlay_det.detect(page)) *)
  obs_latest_png : result (option string);(* newest *.png of the images directory *)
  obs_title      : result string          (* page.title() or "" *)
}.

(** Everything outside the engine: clock, file system, browser. The
    fields that are [option exn] are calls made for their effect: [None]
    when they return, [Some e] when they raise. *)
Record World : Type := mkWorld {
  w_ts             : string;                        (* _ts() *)
  w_mkdir          : option exn;                    (* base.mkdir(parents=True, exist_ok=True) *)
  w_write_manifest : option exn;
  w_attach_log     : option exn;                    (* attach_file_logger *)
  w_launch         : option exn;                    (* sync_playwright() and the first launch *)
  w_open_session   : option exn;                    (* new_context, new_page *)
  w_storage_exists : bool;                          (* storage_path.exists() *)
  w_first_login    : option string -> option exn;   (* the interactive login before the steps *)
  w_uniform        : nat -> nat -> Q -> Q -> Q;     (* random.uniform while step idx retries *)
  w_step_op        : nat -> nat -> nat -> result (option string);
                     (* step idx, execution 0 or 1, invocation k of its operation *)
  w_url_after      : nat -> string;                 (* page.url right after step idx *)
  w_relogin        : nat -> option exn;             (* the interactive login after step idx *)
  w_wait           : nat -> Z -> option exn;        (* page.wait_for_timeout after step idx *)
  w_observe        : nat -> Observation;
  w_write_metadata : option exn;
  w_close_browser  : option exn                     (* the browser.close() before return *)
}.

Record FailedStep : Type := mkFailedStep {
  fs_index  : nat;
  fs_action : string;
  fs_name   : option string
}.

(** The dict [run_workflow] returns; a key that is absent is [None]. *)
Record RunResult : Type := mkRunResult {
  ok          : bool;
  run_dir     : string;
  error       : option string;
  error_type  : option string;
  failed_step : option FailedStep
}.

(** One entry of [steps_meta]. *)
Record StepMeta : Type := mkStepMeta {
  step_number           : nat;
  screenshot            : option string;
  meta_description      : string;
  timestamp             : string;
  url_current           : string;
  has_unique_url        : bool;
  changed_from_previous : bool;
  action_type           : string;
  target                : option string;
  has_modal             : bool;
  page_title            : string;
  capture_reason        : string
}.

Inductive Event : Type :=
| RunDirCreated (dir : string)
| ManifestWritten (path : string)
| BrowserLaunched
| SessionOpened
| InteractiveLogin (start_url : option string)
| StepExecuted (idx : nat)
| StepReexecuted (idx : nat)
| StepSkipped (idx : nat)
| MetadataWritten (path : string)
| BrowserClosed.

Definition is_step_execution (ev : Event) : option nat :=
  match ev with
  | StepExecuted i => Some i
  | StepReexecuted i => Some i
  | _ => None
  end.

Definition _looks_like_login (url : string) : bool :=
  let u := lower url in
  existsb (fun k => contains k u)
          ["login"; "signin"; "auth"; "session"; "accounts.google.com"].

(** [base] of [_prepare_run_dirs] *)
Definition run_directory (eng : Engine) (w : World) (wf : Workflow) : string :=
  OUTPUT_DIR (settings eng) ++ "/" ++ site wf ++ "/" ++ task wf ++ "/" ++ w_ts w.

(** [step.name or step.action.value] *)
Definition describe (step : Step) : string :=
  match name step with
  | Some (String c r) => String c r
  | _ => action_value (action step)
  end.

(** What one round of the step loop comes to. *)
Inductive StepResult : Type :=
| Skipped                                  (* failure tolerated: continue *)
| Recorded (m : StepMeta)                  (* an entry appended to steps_meta *)
| StepFailed (e : exn) (info : FailedStep) (* failed_step_info set, then raise *)
| Crashed (e : exn).                       (* an exception outside the step's try *)

Definition execute (eng : Engine) (w : World) (idx exec_no : nat) (step : Step)
  : result (option string) :=
  fst (Actions.execute_step (settings eng) (w_uniform w idx) (action step)
                            (w_step_op w idx exec_no)).

(** Does the engine enter the interactive login after this step? *)
Definition relogin_needed (eng : Engine) (w : World) (idx : nat) (step : Step) : bool :=
  interactive_auth eng && action_eqb (action step) goto
  && _looks_like_login (w_url_after w idx).

(** The wait after the step: the step's own value, else the workflow's;
    no wait for [None] or 0. *)
Definition after_wait (wf : Workflow) (step : Step) : option Z :=
  match (match after_wait_ms step with
         | Some a => Some a
         | None => default_after_wait_ms wf
         end) with
  | Some a => if (a =? 0)%Z then None else Some a
  | None => None
  end.

Definition capture_reason_of (idx : nat) (has_modal url_changed : bool) : string :=
  if (idx =? 1)%nat then "workflow_start"
  else if has_modal then "modal_appeared"
  else if url_changed then "url_changed"
  else "step_executed".

(** The metadata part of the loop body. *)
Definition record_step (w : World) (idx : nat) (step : Step) (prev_url : string)
  : result StepMeta :=
  let o := w_observe w idx in
  let cur_url := obs_url o in
  let url_changed := negb (String.eqb prev_url cur_url) in
  match Modal.detect_active (obs_modal_page o) with
  | Raise e => Raise e
  | Ok found =>
      let has_modal := match found with Some _ => true | None => false end in
      match obs_overlay o with
      | Raise e => Raise e
      | Ok _ =>
          let shot_name := match obs_latest_png o with
                           | Ok n => n
                           | Raise _ => None
                           end in
          match obs_title o with
          | Raise e => Raise e
          | Ok title =>
              let sel := match selector step with
                         | Some s => Some (value s)
                         | None => None
                         end in
              Ok (mkStepMeta idx shot_name (describe step) (obs_now o)
                             cur_url
                             (match cur_url with EmptyString => false | _ => true end)
                             url_changed
                             (action_value (action step)) sel
                             has_modal title
                             (capture_reason_of idx has_modal url_changed))
          end
      end
  end.

(** The body of the step loop for step [idx] (counted from 1), with the
    events it adds. *)
Definition run_step (eng : Engine) (w : World) (wf : Workflow)
           (idx : nat) (step : Step) (prev_url : string)
  : StepResult * list Event :=
  match execute eng w idx 0 step with
  | Raise step_err =>
      if optional step || CONTINUE_ON_ERROR (settings eng)
      then (Skipped, [StepExecuted idx; StepSkipped idx])
      else (StepFailed step_err
              (mkFailedStep idx (action_value (action step)) (name step)),
            [StepExecuted idx])
  | Ok _ =>
      let relogin :=
        if relogin_needed eng w idx step
        then match w_relogin w idx with
             | Some e => (Some e, [InteractiveLogin (Some (w_url_after w idx))])
             | None =>
                 match execute eng w idx 1 step with
                 | Raise e => (Some e, [InteractiveLogin (Some (w_url_after w idx));
                                        StepReexecuted idx])
                 | Ok _ => (None, [InteractiveLogin (Some (w_url_after w idx));
                                   StepReexecuted idx])
                 end
             end
        else (None, []) in
      let evs := (StepExecuted idx :: snd relogin)%list in
      match fst relogin with
      | Some e => (Crashed e, evs)
      | None =>
          match (match after_wait wf step with
                 | Some a => w_wait w idx a
                 | None => None
                 end) with
          | Some e => (Crashed e, evs)
          | None =>
              match record_step w idx step prev_url with
              | Raise e => (Crashed e, evs)
              | Ok m => (Recorded m, evs)
              end
          end
      end
  end.

(** How the step loop ends. *)
Inductive LoopExit : Type :=
| Finished (steps_meta : list StepMeta)
| Aborted (e : exn) (failed_step_info : option FailedStep) (steps_meta : list StepMeta).

(** [for idx, step in enumerate(wf.steps, start=1)], from step [idx]. *)
Fixpoint step_loop (eng : Engine) (w : World) (wf : Workflow)
         (idx : nat) (todo : list Step) (prev_url : string) (steps_meta : list StepMeta)
  : LoopExit * list Event :=
  match todo with
  | [] => (Finished steps_meta, [])
  | step :: rest =>
      match run_step eng w wf idx step prev_url with
      | (Skipped, evs) =>
          let '(x, evs') := step_loop eng w wf (S idx) rest prev_url steps_meta in
          (x, (evs ++ evs')%list)
      | (Recorded m, evs) =>
          let '(x, evs') :=
            step_loop eng w wf (S idx) rest (url_current m) (steps_meta ++ [m])%list in
          (x, (evs ++ evs')%list)
      | (StepFailed e info, evs) => (Aborted e (Some info) steps_meta, evs)
      | (Crashed e, evs) => (Aborted e None steps_meta, evs)
      end
  end.

(** The first goto URL of the workflow. *)
Definition first_goto (wf : Workflow) : option string :=
  match find (fun st => action_eqb (action st) goto) (steps wf) with
  | Some st => Some (url st)
  | None => None
  end.

(** The session set-up inside the inner [try]: context and page, and the
    interactive login when a stored session is wanted and missing. *)
Definition open_session (eng : Engine) (w : World) (wf : Workflow)
  : option exn * list Event :=
  match w_open_session w with
  | Some e => (Some e, [])
  | None =>
      if use_storage_state wf && negb (w_storage_exists w) && interactive_auth eng
      then (w_first_login w (first_goto wf),
            [SessionOpened; InteractiveLogin (first_goto wf)])
      else (None, [SessionOpened])
  end.

(** What a call of [run_workflow] comes to: the dict returned or the
    exception raised, the events in order, the step list accumulated, and
    whether metadata.json was written. *)
Record Run : Type := mkRun {
  outcome          : result RunResult;
  events           : list Event;
  steps_meta       : list StepMeta;
  metadata_written : bool
}.

Definition failure (dir : string) (e : exn) (info : option FailedStep) : RunResult :=
  mkRunResult false dir (Some (exc_str e)) (Some (exc_type e)) info.

Definition run_workflow (eng : Engine) (w : World) (wf : Workflow) : Run :=
  let dir := run_directory eng w wf in
  match w_mkdir w with
  | Some e => mkRun (Raise e) [] [] false
  | None =>
  let ev1 := [RunDirCreated dir] in
  match w_write_manifest w with
  | Some e => mkRun (Raise e) ev1 [] false
  | None =>
  let ev2 := (ev1 ++ [ManifestWritten (dir ++ "/manifest.json")])%list in
  match w_attach_log w with
  | Some e => mkRun (Raise e) ev2 [] false
  | None =>
  match w_launch w with
  | Some e => mkRun (Raise e) ev2 [] false
  | None =>
  let ev3 := (ev2 ++ [BrowserLaunched])%list in
  (* the inner try *)
  match open_session eng w wf with
  | (Some e, evs) => mkRun (Ok (failure dir e None)) (ev3 ++ evs)%list [] false
  | (None, evs) =>
      let ev4 := (ev3 ++ evs)%list in
      match step_loop eng w wf 1 (steps wf) "" [] with
      | (Aborted e info metas, evl) =>
          mkRun (Ok (failure dir e info)) (ev4 ++ evl)%list metas false
      | (Finished metas, evl) =>
          let written := match w_write_metadata w with None => true | Some _ => false end in
          let ev5 := (ev4 ++ evl ++
                      (if written then [MetadataWritten (dir ++ "/metadata.json")] else []))%list in
          match w_close_browser w with
          | Some e => mkRun (Ok (failure dir e None)) ev5 metas written
          | None =>
              mkRun (Ok (mkRunResult true dir None None None))
                    (ev5 ++ [BrowserClosed])%list metas written
          end
      end
  end end end end end.

(** ** The terms of the specification *)






(** No event of [evs] is the execution of a step after step [n]. *)
Definition no_step_after (n : nat) (evs : list Event) : Prop :=
  forall ev j, In ev evs -> is_step_execution ev = Some j -> (j <= n)%nat.

(** ** A quiet world, a failing first step, a missing browser *)

Definition quiet_observation : Observation :=
  mkObservation "2025-01-01T00:00:00Z" "https://example.test/a"
                (Modal.page_with []) (Ok false) (Ok None) (Ok "A").

(** A world in which everything works, except the launch and the step
    operations, which are given. *)
Definition world_with (launch : option exn)
           (op : nat -> nat -> nat -> result (option string)) : World :=
  mkWorld "2025-01-01_00-00-00" None None None launch None true
          (fun _ => None) (fun _ _ lo _ => lo) op
          (fun _ => "https://example.test/a") (fun _ => None)
          (fun _ _ => None) (fun _ => quiet_observation) None None.

Definition TimeoutError (msg : string) : exn :=
  mkExn "TimeoutError" msg ("TimeoutError('" ++ msg ++ "')").

(** The first step times out at every invocation; the others return. *)
Definition world_first_step_fails : World :=
  world_with None (fun idx _ _ =>
                     if (idx =? 1)%nat then Raise (TimeoutError "Timeout 5000ms exceeded")
                     else Ok None).

(** The browser cannot be launched. *)
Definition world_no_browser : World :=
  world_with (Some (mkExn "Error" "Executable doesn't exist"
                          "Error('Executable doesn't exist')"))
             (fun _ _ _ => Ok None).

Definition engine0 : Engine := mkEngine Actions.default_settings true.

Definition click_menu (opt : bool) : Step :=
  mkStep click (Some "open menu") None opt "" (Some (mkSelector "#menu" css 5000)).

Definition goto_a : Step :=
  mkStep goto None None false "https://example.test/a" None.

(** An optional step followed by a normal one. *)
Definition wf_optional_first : Workflow :=
  mkWorkflow "example.test" "demo" None true [click_menu true; goto_a] None.

(** The same with the first step required. *)
Definition wf_required_first : Workflow :=
  mkWorkflow "example.test" "demo" None true [click_menu false; goto_a] None.

End Engine.

(* ================================================================== *)
(** * src/utils/timing.py: wait_for                                   *)
(* ================================================================== *)

Module Polling.
Local Open Scope string_scope.

(** [str(n)] for an integer. *)
Definition str_of_int (z : Z) : string := NilZero.string_of_int (Z.to_int z).

(** The monotonic clock in ms as [now_ms] reads it, how many times the
    predicate was called, and the sleeps requested, in order. *)
Record Polled : Type := mkPolled {
  clock  : Z;
  polls  : nat;
  sleeps : list Z
}.

Section WaitFor.
Variable T : Type.

(** [predicate k] is what the [k]-th call of the predicate does: it
    raises, returns a falsy value ([None]) or returns a truthy value. *)
Variable predicate : nat -> result (option T).

(** The time the [k]-th call of the predicate takes, and the time by which
    the [k]-th sleep overshoots. *)
Variable predicate_ms : nat -> Z.
Variable oversleep_ms : nat -> Z.

Definition call_predicate (s : Polled) : result (option T) * Polled :=
  (predicate (polls s),
   mkPolled (clock s + predicate_ms (polls s)) (S (polls s)) (sleeps s)).

(** [sleep_ms(ms)] *)
Definition sleep_ms (ms : Z) (s : Polled) : Polled :=
  mkPolled (clock s + Z.max 0 ms + oversleep_ms (length (sleeps s)))
           (polls s) (sleeps s ++ [ms]).

Definition timed_out (timeout_ms : Z) (description : option string) : exn :=
  Engine.TimeoutError
    ("wait_for timed out after " ++ str_of_int timeout_ms ++ " ms"
     ++ match description with
        | Some (String c r) => " (" ++ String c r ++ ")"
        | _ => ""
        end).

(** The [while True] loop, at most [fuel] rounds of it; [None] when the
    rounds run out. *)
Fixpoint wait_for_loop (fuel : nat) (deadline timeout_ms interval_ms : Z)
         (description : option string) (s : Polled)
  : option (result T * Polled) :=
  match fuel with
  | O => None
  | S fuel' =>
      match call_predicate s with
      | (Raise e, s1) => Some (Raise e, s1)
      | (Ok (Some val), s1) => Some (Ok val, s1)
      | (Ok None, s1) =>
          if (deadline <=? clock s1)%Z
          then Some (Raise (timed_out timeout_ms description), s1)
          else wait_for_loop fuel' deadline timeout_ms interval_ms description
                             (sleep_ms (Z.max 1 interval_ms) s1)
      end
  end.

(** [wait_for(predicate, timeout_ms, interval_ms, description)] called
    when the clock reads [t0]. *)
Definition wait_for (fuel : nat) (t0 timeout_ms interval_ms : Z)
           (description : option string) : option (result T * Polled) :=
  wait_for_loop fuel (t0 + Z.max 0 timeout_ms) timeout_ms interval_ms description
                (mkPolled t0 0 []).

(** What a call that started in state [s] at time [t0] has done when it
    returns [r] in state [s']: the calls made, the sleeps requested and
    where the result comes from. *)
Definition finished (t0 timeout_ms interval_ms : Z) (description : option string)
           (s : Polled) (r : result T) (s' : Polled) : Prop :=
  (polls s < polls s')%nat
  /\ ((Z.of_nat (polls s') - 2) * Z.max 1 interval_ms < Z.max 0 timeout_ms)%Z
  /\ sleeps s' = repeat (Z.max 1 interval_ms) (polls s' - 1)
  /\ (forall k, (polls s <= k < polls s' - 1)%nat -> predicate k = Ok None)
  /\ match r with
     | Ok val => predicate (polls s' - 1) = Ok (Some val)
     | Raise e =>
         predicate (polls s' - 1) = Raise e
         \/ (predicate (polls s' - 1) = Ok None
             /\ e = timed_out timeout_ms description
             /\ (t0 + Z.max 0 timeout_ms <= clock s')%Z)
     end.

End WaitFor.

(** A predicate that becomes true at its third call. *)
Definition third_time : nat -> result (option string) :=
  fun k => if (k <? 2)%nat then Ok None else Ok (Some "ready").

End Polling.

(* ================================================================== *)
(** * [list.sort(key=..., reverse=True)]                              *)
(* ================================================================== *)

Module PySort.

Section Sort.
Variable A : Type.

(** [gtb a b]: the key of [a] is greater than the key of [b]. *)
Variable gtb : A -> A -> bool.

(** Python's sort is stable, also with [reverse=True]: elements with equal
    keys keep their order. A stable sort has one possible result; it is
    written here as insertion, each element going before the elements
    that follow it in the input and whose key is not greater. *)
Fixpoint insert_desc (x : A) (l : list A) : list A :=
  match l with
  | [] => [x]
  | y :: rest => if gtb y x then y :: insert_desc x rest else x :: l
  end.

Definition sort_desc (l : list A) : list A := fold_right insert_desc [] l.

(** The first element of [l] whose key no element of [l] exceeds. *)
Fixpoint first_max (l : list A) : option A :=
  match l with
  | [] => None
  | x :: rest =>
      match first_max rest with
      | None => Some x
      | Some m => if gtb m x then Some m else Some x
      end
  end.

(** [a] comes before [b] in the sorted list: the key of [b] is not
    greater, and either the key of [a] is greater or [a] came first in the
    input, [before] being the order of the input. *)
Definition precedes (before : A -> A -> Prop) (a b : A) : Prop :=
  gtb b a = false /\ (gtb a b = true \/ before a b).

End Sort.

End PySort.

(* ================================================================== *)
(** * src/detection/modal_detector.py: find_all                       *)
(* ================================================================== *)

Module ModalAll.
Import Modal.

(** The loop of [find_all]: the infos appended to [infos], the candidates
    numbered from [i]. The body of its [try] is that of [detect_active]. *)
Fixpoint collect (page : Page) (i : nat) (els : list Element) : list ModalInfo :=
  match els with
  | [] => []
  | el :: rest =>
      match inspect page i el with
      | Some info => info :: collect page (S i) rest
      | None => collect page (S i) rest
      end
  end.

(** [lambda m: m.z_index], compared. *)
Definition z_gtb (a b : ModalInfo) : bool := (z_index b <? z_index a)%Z.

Definition find_all (page : Page) : result (list ModalInfo) :=
  match candidates page with
  | Raise e => Raise e
  | Ok els => Ok (PySort.sort_desc z_gtb (collect page 0 els))
  end.

End ModalAll.

(* ================================================================== *)
(** * src/detection/overlay_detector.py                               *)
(* ================================================================== *)

Module Overlay.
Local Open Scope string_scope.

(** What the script of [_score_overlay] reads from one element. *)
Record Style : Type := mkStyle {
  position        : string;             (* cs.position *)
  client_rect     : Q * Q * Q * Q;      (* getBoundingClientRect(): left, top, width, height *)
  css_opacity     : option Q;           (* parseFloat(cs.opacity); None for NaN *)
  backgroundColor : string;             (* cs.backgroundColor *)
  zIndex          : option Z;           (* parseInt(cs.zIndex, 10); None when not finite *)
  hint            : string              (* tag, id and first two classes, cut at 120 *)
}.

Record Element : Type := mkElement {
  el_is_visible : result bool;          (* loc.is_visible() *)
  el_style      : result Style          (* loc.evaluate(...): raises, or runs on the element *)
}.

Record Page : Type := mkPage {
  candidates  : result (list Element);  (* page.locator(CANDIDATE_CSS): count() and nth(i) *)
  innerWidth  : Q;
  innerHeight : Q
}.

Record OverlayInfo : Type := mkOverlayInfo {
  locator       : nat;                  (* locs.nth(locator) *)
  selector_hint : string;
  z_index       : Z;
  bbox          : Z * Z * Z * Z;
  opacity       : Q
}.

(** [['fixed','absolute'].includes(pos)] *)
Definition positioned (st : Style) : bool :=
  String.eqb (position st) "fixed" || String.eqb (position st) "absolute".

(** [r.width >= vw * 0.9 && r.height >= vh * 0.9] *)
Definition covers (page : Page) (st : Style) : bool :=
  let '(_, _, r_width, r_height) := client_rect st in
  Qle_bool (innerWidth page * (9 # 10)) r_width
  && Qle_bool (innerHeight page * (9 # 10)) r_height.

(** [alpha >= 0.05 || (bg && bg !== 'rgba(0, 0, 0, 0)')] *)
Definition visibleBg (st : Style) : bool :=
  match css_opacity st with
  | Some alpha => Qle_bool (5 # 100) alpha
  | None => false
  end
  || match backgroundColor st with
     | EmptyString => false
     | bg => negb (String.eqb bg "rgba(0, 0, 0, 0)")
     end.

(** [_score_overlay]: the info for candidate [i], [None] when the script
    returns [null] or anything raises. *)
Definition _score_overlay (page : Page) (i : nat) (el : Element) : option OverlayInfo :=
  match el_style el with
  | Raise _ => None
  | Ok st =>
      if negb (positioned st) then None
      else if negb (covers page st) || negb (visibleBg st) then None
      else
        let '(r_left, r_top, r_width, r_height) := client_rect st in
        Some (mkOverlayInfo i (hint st)
                (match zIndex st with Some zi => zi | None => 0%Z end)
                (int_of_float r_left, int_of_float r_top,
                 int_of_float r_width, int_of_float r_height)
                (match css_opacity st with
                 | Some alpha => alpha      (* alpha || 0 *)
                 | None => 0%Q
                 end))
  end.

(** The body of the [try] in the loop of [find_all]. *)
Definition inspect (page : Page) (i : nat) (el : Element) : option OverlayInfo :=
  match el_is_visible el with
  | Ok true => _score_overlay page i el
  | _ => None
  end.

Fixpoint collect (page : Page) (i : nat) (els : list Element) : list OverlayInfo :=
  match els with
  | [] => []
  | el :: rest =>
      match inspect page i el with
      | Some info => info :: collect page (S i) rest
      | None => collect page (S i) rest
      end
  end.

(** [x.bbox[2] * x.bbox[3]] *)
Definition area (x : OverlayInfo) : Z :=
  let '(_, _, w, h) := bbox x in (w * h)%Z.

(** The sort key [(z_index, area, opacity)] of [a] is greater than that
    of [b]: tuples compare lexicographically. *)
Definition key_gtb (a b : OverlayInfo) : bool :=
  (z_index b <? z_index a)%Z
  || ((z_index a =? z_index b)%Z
      && ((area b <? area a)%Z
          || ((area a =? area b)%Z && negb (Qle_bool (opacity a) (opacity b))))).

Definition find_all (page : Page) : result (list OverlayInfo) :=
  match candidates page with
  | Raise e => Raise e
  | Ok els => Ok (PySort.sort_desc key_gtb (collect page 0 els))
  end.

(** [detect]: [overlays[0] if overlays else None] *)
Definition detect (page : Page) : result (option OverlayInfo) :=
  match find_all page with
  | Raise e => Raise e
  | Ok overlays => Ok (hd_error overlays)
  end.

(** What makes a candidate an overlay for the detector. *)
Definition qualifies (page : Page) (el : Element) : bool :=
  match el_is_visible el, el_style el with
  | Ok true, Ok st => positioned st && covers page st && visibleBg st
  | _, _ => false
  end.

(** ** Two backdrops *)

(** A visible fixed layer over the whole viewport, half transparent, with
    the given z-index. *)
Definition backdrop (z : Z) : Element :=
  mkElement (Ok true)
            (Ok (mkStyle "fixed" (0, 0, 1366, 768)%Q (Some (1 # 2)%Q)
                         "rgba(0, 0, 0, 0.5)" (Some z) "div.backdrop")).

Definition page_of (els : list Element) : Page := mkPage (Ok els) 1366 768.

End Overlay.

(* ================================================================== *)
(** * src/detection/animation_detector.py: list_running               *)
(* ================================================================== *)

Module Animations.
Import Stability.
Local Open Scope string_scope.

Record RunningAnimation : Type := mkRunning {
  selector_hint   : string;
  type            : string;          (* "transition" | "animation" *)
  durations_ms    : list Q;
  delays_ms       : list Q;
  iteration_count : list Q;
  bounding        : Q * Q * Q * Q    (* x, y, width, height *)
}.

(** [a.some(v => v > 0)] *)
Definition some_positive (a : list Q) : bool :=
  existsb (fun v => negb (Qle_bool v 0)) a.

(** [Array.from({length: n}, (_, i) => a[i] || d)] *)
Definition filled (n : nat) (a : list Q) (d : Q) : list Q :=
  map (fun i => at_or a i d) (seq 0 n).

Section Script.

(** The document, and for each element the hint the script builds from
    its tag, id and classes and its client rectangle. *)
Variable dom : Dom.
Variable hint_of : nat -> string.
Variable rect_of : nat -> Q * Q * Q * Q.

(** [scan(el)]: the entries it pushes. *)
Definition scan (el : nat) : list RunningAnimation :=
  let cs := getComputedStyle dom el in
  let tDur := map to_ms (transitionDuration cs) in
  let tDelay := map to_ms (transitionDelay cs) in
  let aDur := map to_ms (animationDuration cs) in
  let aDelay := map to_ms (animationDelay cs) in
  let aIter := map to_iters (animationIterationCount cs) in
  ((if some_positive tDur
    then let n := Nat.max (length tDur) (length tDelay) in
         [mkRunning (hint_of el) "transition" (filled n tDur 0) (filled n tDelay 0)
                    (repeat 1%Q n) (rect_of el)]
    else [])
   ++
   (if some_positive aDur
    then let n := Nat.max (length aDur) (Nat.max (length aDelay) (length aIter)) in
         [mkRunning (hint_of el) "animation" (filled n aDur 0) (filled n aDelay 0)
                    (filled n aIter 1) (rect_of el)]
    else []))%list.

(** [list_running(page, root_selector)]: what the script returns. *)
Definition list_running (root_selector : option string) : list RunningAnimation :=
  let nodes :=
    match root_selector with
    | Some (String c r) => querySelectorAll dom (String c r)
    | _ => [documentElement dom]
    end in
  flat_map (fun root => flat_map scan (root :: descendants dom root)) nodes.

End Script.

End Animations.

(* ================================================================== *)
(** * src/selectors/strategy.py: the actions with fallback            *)
(* ================================================================== *)

Module StrategyActions.
Import Schema Locator Strategy Timing.
Local Open Scope string_scope.

Definition ActionRetryError (msg : string) : exn :=
  mkExn "ActionRetryError" msg ("ActionRetryError('" ++ msg ++ "')").

Section Wrappers.

(** The page as it answers during the [k]-th invocation of [_do], and the
    [per_selector_wait_ms] given to [__init__]. *)
Variable page_at : nat -> Page.
Variable wait_ms : Z.
Variable selectors : list Selector.

(** The Playwright call made on the chosen locator by the [k]-th
    invocation: [None] when it returns. *)
Variable act : nat -> Query -> option exn.

(** [random.uniform], for the backoff. *)
Variable u : nat -> Q -> Q -> Q.

(** The local function [_do]. *)
Definition _do (k : nat) : result ChosenLocator :=
  match choose (new_strategy (page_at k) wait_ms) selectors true with
  | Raise e => Raise e
  | Ok chosen =>
      match act k (locator chosen) with
      | Some e => Raise e
      | None => Ok chosen
      end
  end.

(** The body the five actions share:
    [try: return retry(_do, tries=max(1, retries + 1))
     except Exception as e: raise ActionRetryError(f"<label> failed after retries: {e}")]. *)
Definition retried (label : string) (retries : Z) : result ChosenLocator * Effects :=
  match retry _do (fun _ => true) false (Z.max 1 (retries + 1)) (default_backoff u) with
  | (Ok chosen, s) => (Ok chosen, s)
  | (Raise e, s) =>
      (Raise (ActionRetryError (label ++ " failed after retries: " ++ exc_str e)), s)
  end.

End Wrappers.

Definition click (page_at : nat -> Page) (wait_ms : Z) (selectors : list Selector)
           (click_at : nat -> Query -> option exn) (u : nat -> Q -> Q -> Q)
           (retries : Z) : result ChosenLocator * Effects :=
  retried page_at wait_ms selectors click_at u "click" retries.

Definition fill (page_at : nat -> Page) (wait_ms : Z) (selectors : list Selector)
           (fill_at type_at : nat -> Query -> option exn) (u : nat -> Q -> Q -> Q)
           (clear : bool) (retries : Z) : result ChosenLocator * Effects :=
  retried page_at wait_ms selectors (if clear then fill_at else type_at) u
          "fill/type" retries.

Definition hover (page_at : nat -> Page) (wait_ms : Z) (selectors : list Selector)
           (hover_at : nat -> Query -> option exn) (u : nat -> Q -> Q -> Q)
           (retries : Z) : result ChosenLocator * Effects :=
  retried page_at wait_ms selectors hover_at u "hover" retries.

Definition check (page_at : nat -> Page) (wait_ms : Z) (selectors : list Selector)
           (check_at uncheck_at : nat -> Query -> option exn) (u : nat -> Q -> Q -> Q)
           (should_check : bool) (retries : Z) : result ChosenLocator * Effects :=
  retried page_at wait_ms selectors (if should_check then check_at else uncheck_at) u
          "check/uncheck" retries.

Definition select_option (page_at : nat -> Page) (wait_ms : Z)
           (selectors : list Selector)
           (select_at : nat -> Query -> option exn) (u : nat -> Q -> Q -> Q)
           (retries : Z) : result ChosenLocator * Effects :=
  retried page_at wait_ms selectors select_at u "select_option" retries.

End StrategyActions.

(* ================================================================== *)
(** * src/core/actions.py: assert_url_contains                        *)
(* ================================================================== *)

Module Assertions.
Import PyStr.
Local Open Scope string_scope.

Definition AssertionError (msg : string) : exn :=
  mkExn "AssertionError" msg ("AssertionError(" ++ dquote ++ msg ++ dquote ++ ")").

(** [_do_assert_url_contains]: [page_url] is [page.url or ""]; [None]
    when the assertion holds. *)
Definition _do_assert_url_contains (page_url text : string) : option exn :=
  if negb (contains (lower text) (lower page_url))
  then Some (AssertionError ("assert_url_contains failed: '" ++ text
                             ++ "' not in URL " ++ page_url))
  else None.

End Assertions.

(* ================================================================== *)
(** * src/core/workflow_loader.py: field validators and documents     *)
(* ================================================================== *)

Module Validators.
Import PyStr Loader.
Local Open Scope string_scope.

(** The body the three validators share: strip, then reject the empty
    string. *)
Definition non_empty (what v0 : string) : result string :=
  let v := strip v0 in
  match v with
  | EmptyString => Raise (ValueError (what ++ " cannot be empty"))
  | _ => Ok v
  end.

(** [Selector._non_empty] *)
Definition _non_empty : string -> result string := non_empty "selector.value".

(** [Workflow._site_non_empty] *)
Definition _site_non_empty : string -> result string := non_empty "site".

(** [Workflow._task_non_empty] *)
Definition _task_non_empty : string -> result string := non_empty "task".

End Validators.

Module Documents.
Import Loader.
Local Open Scope string_scope.

Section Load.

(** A YAML mapping, and one document of the stream. *)
Variable Y : Type.

Inductive Doc : Type :=
| Null                  (* data is None *)
| NotMapping            (* a scalar or a sequence *)
| Mapping (y : Y).

(** The file as [load_workflows_file] finds it. *)
Inductive Source : Type :=
| Missing
| Unparsable (ye : string)      (* yaml.YAMLError, str(ye) *)
| Parsed (docs : list Doc).

(** [Workflow.model_validate(_subst_env(data))]: the workflow, or the
    lines built from the validation errors. *)
Variable model_validate : Y -> Engine.Workflow + list string.

Variable wf_path : string.

Definition FileNotFoundError (msg : string) : exn :=
  mkExn "FileNotFoundError" msg ("FileNotFoundError('" ++ msg ++ "')").

Definition not_a_mapping (idx : nat) : exn :=
  ValueError ("Document " ++ str_of_nat idx ++ " in " ++ wf_path
              ++ " must be a mapping/object.").

Definition invalid_document (idx : nat) (lines : list string) : exn :=
  ValueError (join newline
                (("Invalid workflow '" ++ wf_path ++ "' (document "
                  ++ str_of_nat idx ++ "):") :: lines)).

(** [for idx, data in enumerate(docs, start=1)], from document [idx];
    [out] is the list built so far. *)
Fixpoint load_documents (idx : nat) (docs : list Doc) (out : list Engine.Workflow)
  : result (list Engine.Workflow) :=
  match docs with
  | [] => Ok out
  | Null :: rest => load_documents (S idx) rest out
  | NotMapping :: _ => Raise (not_a_mapping idx)
  | Mapping y :: rest =>
      match model_validate y with
      | inl wf => load_documents (S idx) rest (out ++ [wf])
      | inr lines => Raise (invalid_document idx lines)
      end
  end.

Definition load_workflows_file (src : Source) : result (list Engine.Workflow) :=
  match src with
  | Missing => Raise (FileNotFoundError ("Workflow file not found: " ++ wf_path))
  | Unparsable ye =>
      Raise (ValueError ("YAML parse error in " ++ wf_path ++ ": " ++ ye))
  | Parsed docs =>
      match load_documents 1 docs [] with
      | Raise e => Raise e
      | Ok [] => Raise (ValueError ("No valid workflow documents found in " ++ wf_path))
      | Ok out => Ok out
      end
  end.

(** The document is one the loop gets past: empty, or a mapping that
    validates. *)
Definition passes (d : Doc) : bool :=
  match d with
  | Null => true
  | NotMapping => false
  | Mapping y => match model_validate y with inl _ => true | inr _ => false end
  end.

Definition is_mapping (d : Doc) : bool :=
  match d with Mapping _ => true | _ => false end.

End Load.

Arguments Null {Y}.
Arguments NotMapping {Y}.
Arguments Missing {Y}.
Arguments Unparsable {Y} ye.

End Documents.

(* ================================================================== *)
(** * src/core/engine.py: reading a run                               *)
(* ================================================================== *)

Module Trace.
Import Engine.

(** The step list a loop exit carries. *)
Definition metas_of (x : LoopExit) : list StepMeta :=
  match x with
  | Finished metas => metas
  | Aborted _ _ metas => metas
  end.

(** The event belongs to the steps numbered from [lo] to [hi - 1]; a
    login and a second execution happen only in an engine with
    interactive authentication. *)
Definition within (lo hi : nat) (interactive : bool) (ev : Event) : Prop :=
  match ev with
  | StepExecuted i => (lo <= i < hi)%nat
  | StepSkipped i => (lo <= i < hi)%nat
  | StepReexecuted i => (lo <= i < hi)%nat /\ interactive = true
  | InteractiveLogin _ => interactive = true
  | _ => False
  end.

(** The event belongs to the set-up or to the closing of the run. *)
Definition outside_steps (interactive : bool) (ev : Event) : Prop :=
  match ev with
  | StepExecuted _ | StepReexecuted _ | StepSkipped _ => False
  | InteractiveLogin _ => interactive = true
  | _ => True
  end.

(** Step [i] has an entry in the step list. *)
Definition recorded (metas : list StepMeta) (i : nat) : Prop :=
  exists m, In m metas /\ step_number m = i.

(** Each entry says whether its URL differs from the URL of the entry
    before it, [prev] standing before the first one. *)
Fixpoint url_chain (prev : string) (metas : list StepMeta) : Prop :=
  match metas with
  | [] => True
  | m :: rest =>
      changed_from_previous m = negb (String.eqb prev (url_current m))
      /\ url_chain (url_current m) rest
  end.

End Trace.

(* ================================================================== *)
(** * src/cli.py: running one workflow file                           *)
(* ================================================================== *)

Module Cli.
Import Engine.
Local Open Scope string_scope.

(** The dict [_run_one] returns: the result of the only run, the merged
    summary of several, or the error caught. *)
Inductive Summary : Type :=
| Single (r : RunResult)
| Merged (all_ok : bool) (results : list RunResult) (workflow : string)
| Caught (error : string) (workflow : string).

(** [res.get("ok", True)] *)
Definition summary_ok (s : Summary) : bool :=
  match s with
  | Single r => ok r
  | Merged all_ok _ _ => all_ok
  | Caught _ _ => false
  end.

(** [for wf in ...: results.append(eng.run_workflow(wf))], the [k]-th run
    of the process happening in the world [worlds k]: the results, or the
    exception that ends the loop, and the runs made. *)
Fixpoint run_documents (eng : Engine) (worlds : nat -> World) (k : nat)
         (wfs : list Workflow) : result (list RunResult) * list Run :=
  match wfs with
  | [] => (Ok [], [])
  | wf :: rest =>
      let r := run_workflow eng (worlds k) wf in
      match outcome r with
      | Raise e => (Raise e, [r])
      | Ok res =>
          let '(x, runs) := run_documents eng worlds (S k) rest in
          (match x with
           | Ok results => Ok (res :: results)
           | Raise e => Raise e
           end, r :: runs)
      end
  end.

(** [_run_one(path)]: [yaml_suffix] is [path.suffix.lower() in (".yaml",
    ".yml")], [loaded_all] what [load_workflows_file(path)] does and
    [loaded] what [load_workflow(path)] does. *)
Definition _run_one (eng : Engine) (worlds : nat -> World) (path : string)
           (yaml_suffix : bool)
           (loaded_all : result (list Workflow)) (loaded : result Workflow)
  : Summary * list Run :=
  if yaml_suffix then
    match loaded_all with
    | Raise e => (Caught (exc_str e) path, [])
    | Ok wfs =>
        match run_documents eng worlds 0 wfs with
        | (Raise e, runs) => (Caught (exc_str e) path, runs)
        | (Ok [r], runs) => (Single r, runs)
        | (Ok results, runs) => (Merged (forallb ok results) results path, runs)
        end
    end
  else
    match loaded with
    | Raise e => (Caught (exc_str e) path, [])
    | Ok wf =>
        let r := run_workflow eng (worlds 0) wf in
        match outcome r with
        | Raise e => (Caught (exc_str e) path, [r])
        | Ok res => (Single res, [r])
        end
    end.

End Cli.

(* ================================================================== *)
(** * Properties                                                      *)
(* ================================================================== *)

Module TimingFacts.
Import Timing.

Lemma backoff_from_length b n k d : length (backoff_from b n k d) = n.
Proof.
  revert k d; induction n as [|n IH]; intros k d; simpl; [reflexivity|].
  now rewrite IH.
Qed.

Lemma exp_backoff_delays_ms_length attempts b :
  length (exp_backoff_delays_ms attempts b) = Z.to_nat (Z.max 1 attempts).
Proof. apply backoff_from_length. Qed.

Section AlwaysFailing.
Variable T : Type.
Variable fn : nat -> result T.
Variable exceptions : exn -> bool.
Variable before_retry : bool.

(** Every invocation raises an exception that [retry] catches. *)
Hypothesis fn_raises :
  forall k, exists e, fn k = Raise e /\ exceptions e = true.

Lemma last_attempt_fails s :
  exists e, last_attempt fn s = (Raise e, did_call s) /\ exceptions e = true.
Proof.
  destruct (fn_raises (calls s)) as [e [He Hc]].
  exists e. unfold last_attempt, invoke. now rewrite He.
Qed.

(** While the attempt counter stays below [attempts] the loop never
    breaks: it invokes [fn] once per delay, sleeps once per delay, and
    the last attempt adds one invocation. *)
Lemma retry_loop_no_break attempts delays : forall attempt s,
  (attempt + Z.of_nat (length delays) <= attempts)%Z ->
  exists e s',
    retry_loop fn exceptions before_retry attempts attempt delays s = (Raise e, s')
    /\ exceptions e = true
    /\ calls s' = (calls s + length delays + 1)%nat
    /\ sleeps s' = sleeps s ++ delays.
Proof.
  induction delays as [|d rest IH]; intros attempt s Hle.
  - destruct (last_attempt_fails s) as [e [He Hc]].
    exists e, (did_call s). simpl. rewrite He.
    repeat split; trivial; simpl; [lia | now rewrite app_nil_r].
  - simpl length in Hle. simpl retry_loop. unfold invoke.
    destruct (fn_raises (calls s)) as [e [He Hc]]. rewrite He, Hc.
    destruct (Z.leb_spec attempts attempt) as [Hbrk|_]; [lia|].
    set (s2 := if before_retry then _ else _).
    destruct (IH (attempt + 1)%Z (sleep_ms d s2)) as [e' [s' [Hr [Hc' [Hn Hs]]]]];
      [lia|].
    exists e', s'. rewrite Hr. repeat split; trivial.
    + rewrite Hn. subst s2. destruct before_retry; simpl; lia.
    + rewrite Hs. subst s2. destruct before_retry; simpl; now rewrite <- app_assoc.
Qed.

End AlwaysFailing.



(** C10. An operation that always raises a caught exception is invoked
    exactly max(2, tries) times by [retry], which then re-raises: the delay
    generator yields at least one delay and a last attempt follows the
    loop, so even [tries = 1] gives two invocations. *)
Theorem retry_always_failing_invocations
    (T : Type) (fn : nat -> result T) (exceptions : exn -> bool)
    (before_retry : bool) (tries : Z) (b : Backoff)
    (fn_raises : forall k, exists e, fn k = Raise e /\ exceptions e = true) :
  exists e s,
    retry fn exceptions before_retry tries b = (Raise e, s)
    /\ exceptions e = true
    /\ calls s = Z.to_nat (Z.max 2 tries).
Proof.
  unfold retry.
  destruct (Z.le_gt_cases tries 1) as [Hsmall|Hbig].
  - (* attempts = 1: one delay, the loop breaks after the first failure *)
    replace (Z.max 1 tries) with 1%Z by lia.
    replace (Z.max 2 tries) with 2%Z by lia.
    unfold exp_backoff_delays_ms. simpl Z.to_nat. simpl backoff_from.
    simpl retry_loop. unfold invoke. simpl calls.
    destruct (fn_raises 0) as [e0 [H0 Hc0]]. rewrite H0, Hc0.
    destruct (@last_attempt_fails T fn exceptions fn_raises (did_call no_effects))
      as [e1 [H1 Hc1]].
    exists e1, (did_call (did_call no_effects)). rewrite H1. now repeat split.
  - (* attempts = tries >= 2: tries - 1 delays, no break *)
    replace (Z.max 1 tries) with tries by lia.
    replace (Z.max 2 tries) with tries by lia.
    destruct (@retry_loop_no_break T fn exceptions before_retry fn_raises tries
                (exp_backoff_delays_ms (tries - 1) b) 1%Z no_effects)
      as [e [s [Hr [Hc [Hn _]]]]].
    + rewrite exp_backoff_delays_ms_length. lia.
    + exists e, s. repeat split; trivial.
      rewrite Hn, exp_backoff_delays_ms_length. simpl calls. lia.
Qed.

(** C10 at [tries = 1]: two invocations. *)
Lemma retry_always_failing_invocations_witness :
  exists e s,
    retry (always_raising (mkExn "TimeoutError" "boom" "TimeoutError('boom')"))
          (fun _ => true) false 1 (default_backoff (fun _ lo _ => lo))
      = (Raise e, s)
    /\ (fun _ : exn => true) e = true
    /\ calls s = Z.to_nat (Z.max 2 1).
Proof.
  apply (@retry_always_failing_invocations unit
           (always_raising (mkExn "TimeoutError" "boom" "TimeoutError('boom')"))
           (fun _ => true) false 1 (default_backoff (fun _ lo _ => lo))).
  intros k. eexists. split; reflexivity.
Defined.

(** C2. An operation that raises (exceptions [retry] catches) on its first
    two invocations and succeeds on the third: with [tries = 3] [retry]
    returns the successful value after three invocations and exactly two
    backoff sleeps; with [tries = 2] it makes two invocations and re-raises
    the operation's second exception. *)
Theorem retry_succeeds_on_third_invocation
    (T : Type) (fn : nat -> result T) (exceptions : exn -> bool)
    (before_retry : bool) (b : Backoff) (e1 e2 : exn) (v : T)
    (first_raises  : fn 0%nat = Raise e1)
    (second_raises : fn 1%nat = Raise e2)
    (third_returns : fn 2%nat = Ok v)
    (caught1 : exceptions e1 = true)
    (caught2 : exceptions e2 = true) :
  (exists s,
      retry fn exceptions before_retry 3 b = (Ok v, s)
      /\ calls s = 3%nat /\ length (sleeps s) = 2%nat)
  /\
  (exists s,
      retry fn exceptions before_retry 2 b = (Raise e2, s)
      /\ calls s = 2%nat /\ length (sleeps s) = 1%nat).
Proof.
  split.
  - unfold retry, exp_backoff_delays_ms. simpl Z.max. simpl Z.to_nat.
    simpl backoff_from. cbv beta iota zeta delta [retry_loop last_attempt invoke].
    simpl calls. rewrite first_raises, caught1. simpl Z.leb. cbv iota.
    destruct before_retry; simpl calls;
      rewrite second_raises, caught2; simpl Z.leb; cbv iota; simpl calls;
      rewrite third_returns; eexists; repeat split.
  - unfold retry, exp_backoff_delays_ms. simpl Z.max. simpl Z.to_nat.
    simpl backoff_from. cbv beta iota zeta delta [retry_loop last_attempt invoke].
    simpl calls. rewrite first_raises, caught1. simpl Z.leb. cbv iota.
    destruct before_retry; simpl calls;
      rewrite second_raises; eexists; repeat split.
Qed.

(** C2 at a callable that times out twice, with the default backoff. *)
Lemma retry_succeeds_on_third_invocation_witness :
  (exists s,
      retry flaky_twice (fun _ => true) false 3 (default_backoff (fun _ lo _ => lo))
        = (Ok 42%Z, s)
      /\ calls s = 3%nat /\ length (sleeps s) = 2%nat)
  /\
  (exists s,
      retry flaky_twice (fun _ => true) false 2 (default_backoff (fun _ lo _ => lo))
        = (Raise (mkExn "TimeoutError" "second" "TimeoutError('second')"), s)
      /\ calls s = 2%nat /\ length (sleeps s) = 1%nat).
Proof.
  apply (@retry_succeeds_on_third_invocation Z flaky_twice (fun _ => true) false
           (default_backoff (fun _ lo _ => lo))
           (mkExn "TimeoutError" "first" "TimeoutError('first')")
           (mkExn "TimeoutError" "second" "TimeoutError('second')") 42%Z);
    reflexivity.
Defined.

End TimingFacts.

Module StrategyFacts.
Import Schema Locator Strategy.
Local Open Scope string_scope.

(** [first_from] returns the least position holding a satisfying element. *)
Lemma first_from_least (A : Type) (p : A -> bool) (l : list A) :
  forall idx i x,
    first_from p idx l = Some (i, x) ->
    (idx <= i)%nat /\ nth_error l (i - idx) = Some x /\ p x = true
    /\ forall j y, (j < i - idx)%nat -> nth_error l j = Some y -> p y = false.
Proof.
  induction l as [|a l IH]; intros idx i x H; simpl in H; [discriminate|].
  destruct (p a) eqn:Hp.
  - inversion H; subst. rewrite Nat.sub_diag. repeat split; auto.
    intros j y Hj; lia.
  - destruct (IH _ _ _ H) as [Hle [Hn [Hx Hmin]]].
    repeat split; [lia | | exact Hx |].
    + replace (i - idx)%nat with (S (i - S idx)) by lia. exact Hn.
    + intros [|j] y Hj Hy; simpl in Hy.
      * now inversion Hy; subst.
      * apply (Hmin j y); [lia | exact Hy].
Qed.

Lemma first_from_none (A : Type) (p : A -> bool) (l : list A) :
  forall idx, first_from p idx l = None -> forall x, In x l -> p x = false.
Proof.
  induction l as [|a l IH]; intros idx H x Hin; simpl in *; [contradiction|].
  destruct (p a) eqn:Hp; [discriminate|].
  destruct Hin as [->|Hin]; [exact Hp | eauto].
Qed.



(** Neither selector matches: the message names both candidates, in
    order. *)
Example choose_both_missing :
  choose (new_strategy (static_page [] []) 2000)
         [by_css "#missing"; by_css "#also-missing"] true
  = Raise (SelectorNotFound
             ("No selector matched (or became visible). Tried:" ++ newline
              ++ "  [0] none found: css:#missing" ++ newline
              ++ "  [1] none found: css:#also-missing")).
Proof. reflexivity. Qed.

(** The first selector matches a hidden element, the second a visible one:
    the second is returned, tagged "visible", without any wait on the
    first. *)
Example choose_skips_hidden :
  choose (new_strategy (static_page ["#hidden"; "#visible"] ["#visible"]) 2000)
         [by_css "#hidden"; by_css "#visible"] true
  = Ok (mkChosen (by_css "#visible") (First (ByCss "#visible")) "visible" 1).
Proof. reflexivity. Qed.

(** Only a hidden element matches and it stays hidden: the wait on it fails
    and no diagnostic was recorded for it. *)
Example choose_hidden_only :
  choose (new_strategy (static_page ["#hidden"] []) 2000) [by_css "#hidden"] true
  = Raise (SelectorNotFound
             ("No selector matched (or became visible). Tried:" ++ newline
              ++ "  <none>")).
Proof. reflexivity. Qed.

End StrategyFacts.

Module StabilityFacts.
Import Stability.

(** ** Arithmetic of the float helpers *)

Lemma fmin_le_l (a b : Q) : (fmin a b <= a)%Q.
Proof.
  unfold fmin. destruct (Qlt_le_dec b a) as [H|H].
  - now apply Qlt_le_weak.
  - apply Qle_refl.
Qed.

Lemma fmin_glb (a b c : Q) : (c <= a)%Q -> (c <= b)%Q -> (c <= fmin a b)%Q.
Proof. intros Ha Hb. unfold fmin. now destruct (Qlt_le_dec b a). Qed.

Lemma fmax_ge_l (a b : Q) : (a <= fmax a b)%Q.
Proof.
  unfold fmax. destruct (Qlt_le_dec a b) as [H|H].
  - now apply Qlt_le_weak.
  - apply Qle_refl.
Qed.

Lemma int_of_float_le (q : Q) (k : Z) :
  (0 <= k)%Z -> (q <= inject_Z k)%Q -> (int_of_float q <= k)%Z.
Proof.
  intros Hk Hq. unfold int_of_float. destruct q as [n d].
  unfold Qle in Hq. simpl in *. rewrite Z.mul_1_r in Hq.
  destruct (Z.neg_nonneg_cases n) as [Hn|Hn].
  - transitivity 0%Z; [|exact Hk].
    apply Z.quot_le_upper_bound; lia.
  - rewrite Z.quot_div_nonneg by lia.
    apply Z.div_le_upper_bound; lia.
Qed.

Lemma int_of_float_ge (q : Q) (k : Z) :
  (0 <= k)%Z -> (inject_Z k <= q)%Q -> (k <= int_of_float q)%Z.
Proof.
  intros Hk Hq. unfold int_of_float. destruct q as [n d].
  unfold Qle in Hq. simpl in *. rewrite Z.mul_1_r in Hq.
  assert (0 <= n)%Z by nia.
  rewrite Z.quot_div_nonneg by lia.
  apply Z.div_le_lower_bound; lia.
Qed.

(** The script never suggests more than 2000 ms. *)
Lemma idle_script_capped dom now sel minIdle :
  (idle_script dom now sel minIdle <= 2000)%Q.
Proof. unfold idle_script. apply fmin_le_l. Qed.

(** The script never suggests less than the idle margin, up to the cap. *)
Lemma idle_script_at_least dom now sel minIdle :
  (inject_Z (Z.min 2000 minIdle) <= idle_script dom now sel minIdle)%Q.
Proof.
  unfold idle_script. apply fmin_glb.
  - change 2000%Q with (inject_Z 2000). rewrite <- Zle_Qle. lia.
  - apply Qle_trans with (inject_Z minIdle); [rewrite <- Zle_Qle; lia|].
    rewrite <- (Qplus_0_l (inject_Z minIdle)) at 1.
    apply Qplus_le_l. apply fmax_ge_l.
Qed.

(** ** The loop in general *)

Lemma total_sleep_app w extra :
  total_sleep (mkWaited (clock w) (slept w ++ extra) (polls w) (flushes w))
  = (total_sleep w + fold_right (fun d acc => Z.max 0 d + acc) 0 extra)%Z.
Proof.
  unfold total_sleep; simpl. induction (slept w) as [|d l IH]; simpl; lia.
Qed.

(** [n] rounds add at most [n] polls and [n] sleeps, each at most 2000. *)
Lemma poll_loop_bounded page sel m n : forall w,
  exists extra,
    slept (poll_loop page sel m n w) = slept w ++ extra
    /\ (length extra <= n)%nat
    /\ Forall (fun d => (d <= 2000)%Z) extra
    /\ (polls (poll_loop page sel m n w) <= polls w + n)%nat
    /\ (flushes (poll_loop page sel m n w) <= flushes w + 1)%nat.
Proof.
  induction n as [|n IH]; intros w.
  - exists []. simpl. rewrite app_nil_r. repeat split; auto; lia.
  - simpl. destruct (is_idle _ m).
    + exists []. simpl. rewrite app_nil_r. repeat split; auto; lia.
    + destruct (IH (wait_for_timeout
                      (int_of_float (idle_script (page (clock w)) (clock w) sel m))
                      (polled w))) as [extra [Hs [Hl [Hf [Hp Hfl]]]]].
      exists (int_of_float (idle_script (page (clock w)) (clock w) sel m) :: extra).
      rewrite Hs. simpl. rewrite <- app_assoc. simpl in *.
      repeat split; auto; try lia.
      constructor; [|exact Hf].
      apply int_of_float_le; [lia|]. apply idle_script_capped.
Qed.

Lemma sum_capped (l : list Z) :
  Forall (fun d => (d <= 2000)%Z) l ->
  (fold_right (fun d acc => Z.max 0 d + acc) 0 l <= 2000 * Z.of_nat (length l))%Z.
Proof. induction 1; simpl length; simpl fold_right; lia. Qed.

(** C9. Whatever the page does (its document may change at every instant
    and declare arbitrarily long or infinite animations), one call of the
    animation wait, in either of its two copies, evaluates the script at
    most 10 times, requests at most 10 sleeps of at most 2000 ms each, and
    so sleeps at most 20000 ms in total; being a bounded loop it always
    returns. *)
Theorem animation_wait_bounded
    (page : Page) (t0 : Q) (sel : option string) (min_idle_ms : Z) :
  let bounded (w : Waited) :=
    (polls w <= 10)%nat
    /\ (length (slept w) <= 10)%nat
    /\ Forall (fun d => (d <= 2000)%Z) (slept w)
    /\ (total_sleep w <= 20000)%Z in
  bounded (wait_for_animations_to_finish page t0 sel min_idle_ms)
  /\ bounded (wait_until_idle page t0 sel min_idle_ms).
Proof.
  assert (H : let w := poll_loop page sel min_idle_ms 10 (started t0) in
              (polls w <= 10)%nat
              /\ (length (slept w) <= 10)%nat
              /\ Forall (fun d => (d <= 2000)%Z) (slept w)
              /\ (total_sleep w <= 20000)%Z).
  { cbv zeta.
    destruct (poll_loop_bounded page sel min_idle_ms 10 (started t0))
      as [extra [Hs [Hl [Hf [Hp _]]]]].
    change (slept (started t0) ++ extra) with extra in Hs.
    change (polls (started t0) + 10)%nat with 10%nat in Hp.
    unfold total_sleep. rewrite Hs.
    repeat split; auto.
    pose proof (sum_capped Hf). lia. }
  split; exact H.
Qed.

(** ** The idle test against the script *)

(** With an idle margin between 1 and 3999 ms (the default is 200) the
    suggestion, which always contains the whole margin, is never at most
    half the margin: the loop's exit test never succeeds. *)
Lemma never_idle dom now sel m :
  (0 < m < 4000)%Z -> is_idle (idle_script dom now sel m) m = false.
Proof.
  intros Hm. pose proof (idle_script_at_least dom now sel m) as Hlow.
  unfold is_idle. apply orb_false_iff. split.
  - destruct (Qeq_bool _ 0) eqn:E; [|reflexivity].
    apply Qeq_bool_iff in E. rewrite E in Hlow.
    change 0%Q with (inject_Z 0) in Hlow. rewrite <- Zle_Qle in Hlow. lia.
  - destruct (Qle_bool _ _) eqn:E; [|reflexivity].
    apply Qle_bool_iff in E.
    pose proof (Qle_trans _ _ _ Hlow E) as H. rewrite <- Zle_Qle in H.
    assert (m / 2 < m)%Z by (apply Z.div_lt; lia).
    assert (m / 2 < 2000)%Z by (apply Z.div_lt_upper_bound; lia).
    lia.
Qed.

(** Hence, for such a margin and any page, the loop runs all its rounds,
    sleeps in each of them at least the margin (capped at 2000 ms), and
    returns without the paint flush. *)
Lemma poll_loop_runs_out page sel m n : forall w,
  (0 < m < 4000)%Z ->
  exists extra,
    slept (poll_loop page sel m n w) = slept w ++ extra
    /\ length extra = n
    /\ Forall (fun d => (Z.min 2000 m <= d)%Z) extra
    /\ polls (poll_loop page sel m n w) = (polls w + n)%nat
    /\ flushes (poll_loop page sel m n w) = flushes w.
Proof.
  induction n as [|n IH]; intros w Hm.
  - exists []. simpl. rewrite app_nil_r. repeat split; auto.
  - simpl. rewrite never_idle by exact Hm.
    destruct (IH (wait_for_timeout
                    (int_of_float (idle_script (page (clock w)) (clock w) sel m))
                    (polled w)) Hm) as [extra [Hs [Hl [Hf [Hp Hfl]]]]].
    exists (int_of_float (idle_script (page (clock w)) (clock w) sel m) :: extra).
    rewrite Hs, Hp, Hfl. simpl. rewrite <- app_assoc. simpl.
    repeat split; auto; try lia.
    constructor; [|exact Hf].
    apply int_of_float_ge; [lia|]. apply idle_script_at_least.
Qed.

(** C3, the code at the claim's input. On a page whose only element has a
    300 ms transition, with the default idle margin of 200 ms, the script
    suggests 500 ms at every poll (it adds the configured duration to the
    current time at each evaluation), so [wait_until_idle] and
    [wait_for_animations_to_finish] both poll 10 times, sleep 10 times
    500 ms, 5000 ms in all, and return without awaiting the two animation
    frames. *)
Theorem animation_wait_300ms_transition :
  let w := wait_until_idle page_300ms 0 None 200 in
  let w' := wait_for_animations_to_finish page_300ms 0 None 200 in
  slept w = repeat 500%Z 10 /\ polls w = 10%nat /\ flushes w = 0%nat
  /\ total_sleep w = 5000%Z
  /\ slept w' = repeat 500%Z 10 /\ polls w' = 10%nat /\ flushes w' = 0%nat
  /\ total_sleep w' = 5000%Z.
Proof. vm_compute. repeat split; reflexivity. Qed.

End StabilityFacts.

Module ModalFacts.
Import Modal.
Local Open Scope Z_scope.

Lemma inspect_some page i el m :
  inspect page i el = Some m ->
  visible_in_viewport page el = true /\ locator m = i /\ z_index m = computed_z el.
Proof.
  unfold inspect, visible_in_viewport, computed_z.
  destruct (el_is_visible el) as [[|]|]; try discriminate.
  unfold _zindex_and_bbox.
  destruct (el_bounding_box el) as [b|]; try discriminate.
  destruct (match b with Some box => box | None => _ end) as [[[bx by_] bw] bh].
  destruct (match el_client_rect el with Ok r => _ | Raise _ => _ end);
    try discriminate.
  intros H; inversion H; subst; simpl.
  repeat split.
Qed.

Lemma inspect_none page i el :
  inspect page i el = None -> visible_in_viewport page el = false.
Proof.
  unfold inspect, visible_in_viewport.
  destruct (el_is_visible el) as [[|]|]; try reflexivity.
  destruct (_zindex_and_bbox page el) as [[[z box] [|]]|]; try reflexivity.
  discriminate.
Qed.

Lemma inspect_of_visible page i el :
  visible_in_viewport page el = true -> exists m, inspect page i el = Some m.
Proof.
  intros H. destruct (inspect page i el) as [m|] eqn:E; [eauto|].
  apply inspect_none in E. congruence.
Qed.





(** On equal z-index the candidate scanned first is kept. *)
Example detect_active_tie :
  option_map locator
    (detect_loop (page_with [dialog 7; dialog 7; dialog 3]) 0
                 [dialog 7; dialog 7; dialog 3] None) = Some 0%nat.
Proof. reflexivity. Qed.

End ModalFacts.

Module LoaderFacts.
Import PyStr Loader.
Local Open Scope string_scope.

(** The validator accepts exactly the values that start with "http" once
    stripped, and stores the stripped value. *)
Lemma _url_non_empty_accepts (v : string) :
  (startswith "http" (strip v) = true -> _url_non_empty v = Ok (strip v))
  /\ (startswith "http" (strip v) = false ->
      _url_non_empty v = Raise (ValueError "goto.url must be an absolute http(s) URL")).
Proof.
  unfold _url_non_empty. split; intros ->; reflexivity.
Qed.

Lemma prefix_trans (a b s : string) :
  String.prefix a b = true -> String.prefix b s = true -> String.prefix a s = true.
Proof.
  revert b s. induction a as [|c a IH]; intros b s Hab Hbs;
    [destruct s; reflexivity|].
  destruct b as [|c' b]; [discriminate|].
  destruct s as [|c'' s]; [discriminate|].
  simpl in *.
  destruct (ascii_dec c c'); [|discriminate].
  destruct (ascii_dec c' c''); [|discriminate].
  subst. destruct (ascii_dec c'' c''); [|congruence]. eauto.
Qed.

(** Every absolute http(s) URL passes. *)
Lemma absolute_http_url_accepted (v : string) :
  is_absolute_http_url (strip v) = true -> _url_non_empty v = Ok (strip v).
Proof.
  intros H. apply _url_non_empty_accepts.
  unfold is_absolute_http_url, startswith in *.
  apply orb_true_iff in H. destruct H as [H|H].
  - now apply (prefix_trans "http" "http://").
  - now apply (prefix_trans "http" "https://").
Qed.

(** C7, the code at a scheme-less URL. [httpbin.org/get] has no scheme
    and is not an absolute http(s) URL, yet the validator of the goto step
    accepts it, because it only tests the four letters "http"; a URL
    without scheme that starts otherwise is rejected with the message
    "goto.url must be an absolute http(s) URL". *)
Theorem goto_url_without_scheme_accepted :
  _url_non_empty "httpbin.org/get" = Ok "httpbin.org/get"
  /\ is_absolute_http_url "httpbin.org/get" = false
  /\ has_scheme "httpbin.org/get" = false
  /\ _url_non_empty "example.com/a"
     = Raise (ValueError "goto.url must be an absolute http(s) URL")
  /\ _url_non_empty "  https://example.test/a "
     = Ok "https://example.test/a".
Proof. repeat split; reflexivity. Qed.

End LoaderFacts.

Module ActionsFacts.
Import Schema Config Actions.
Local Open Scope string_scope.

(** The rich path raises exactly when one of its fallible operations
    does. *)
Lemma rich_capture_raises cam settings step ctx log_name :
  let run_dir := rich_run_dir cam ctx in
  let out_path :=
    path_join run_dir (safe_name (step_name step log_name)
                       ++ "." ++ SCREENSHOT_FORMAT settings) in
  is_ok (fst (rich_capture cam settings step ctx log_name)) = false <->
  (mkdir cam run_dir <> None
   \/ take cam false (is_element step) out_path <> None
   \/ is_ok (page_title cam) = false
   \/ write_text cam (out_path ++ ".json") <> None
   \/ append_to cam (path_join run_dir "captures.jsonl") <> None).
Proof.
  cbv zeta. unfold rich_capture, attempt.
  destruct (mkdir cam (rich_run_dir cam ctx)) as [e1|]; simpl.
  { split; [left; discriminate | reflexivity]. }
  destruct (take cam false _ _) as [e2|]; simpl.
  { split; [right; left; discriminate | reflexivity]. }
  destruct (page_title cam) as [t|e3]; simpl.
  2:{ split; [right; right; left; reflexivity | reflexivity]. }
  destruct (write_text cam _) as [e4|]; simpl.
  { split; [do 3 right; left; discriminate | reflexivity]. }
  destruct (append_to cam _) as [e5|]; simpl.
  { split; [do 4 right; discriminate | reflexivity]. }
  split; [discriminate|].
  intros [H|[H|[H|[H|H]]]]; congruence.
Qed.

(** C8. When the rich capture path raises, for whatever reason,
    [_do_screenshot] does not propagate the error: it makes one bare
    screenshot call and, if that succeeds, returns the bare path, having
    written that image and no sidecar or metadata line after the failure.
    It raises only when the rich path raised and the bare screenshot call
    raised too, and then with the error of the bare call. When the rich
    path succeeds its path is returned. *)
Theorem screenshot_falls_back cam settings step ctx log_name :
  match rich_capture cam settings step ctx log_name with
  | (Ok p, evs) => _do_screenshot cam settings step ctx log_name = (Ok p, evs)
  | (Raise _, evs) =>
      let bare :=
        _screenshot_path cam ctx (step_name step log_name) (SCREENSHOT_FORMAT settings) in
      match take cam true (is_element step) bare with
      | None =>
          _do_screenshot cam settings step ctx log_name
          = (Ok bare, (evs ++ [ImageWritten bare])%list)
      | Some e =>
          _do_screenshot cam settings step ctx log_name = (Raise e, evs)
      end
  end.
Proof.
  unfold _do_screenshot, bare_capture.
  destruct (rich_capture cam settings step ctx log_name) as [[p|e0] evs];
    [reflexivity|].
  cbv zeta. destruct (take cam true _ _); reflexivity.
Qed.

(** The metadata stream cannot be appended to: the image and its sidecar
    are written, the append fails, and the step still returns the path of
    a bare screenshot. *)
Example screenshot_survives_broken_jsonl :
  _do_screenshot camera_jsonl_broken default_settings shot_a engine_ctx "screenshot"
  = (Ok "/work/datasets/run/a.png",
     [ImageWritten "/work/datasets/run/a.png";
      SidecarWritten "/work/datasets/run/a.png.json";
      ImageWritten "/work/datasets/run/a.png"]).
Proof. reflexivity. Qed.

End ActionsFacts.

Module EngineFacts.
Import Schema Config Engine.
Local Open Scope string_scope.

(** ** One execution of a step *)











(** ** The step loop *)







(** ** The whole run *)


Lemma no_step_after_app n evs evs' :
  no_step_after n evs -> no_step_after n evs' -> no_step_after n (evs ++ evs').
Proof.
  intros H H' ev j Hin Hj. apply in_app_or in Hin. destruct Hin; eauto.
Qed.









End EngineFacts.

(* ================================================================== *)
(** * Further properties of src/utils/timing.py                       *)
(* ================================================================== *)

Module RetryFacts.
Import Timing.

Section Trace.
Variable T : Type.
Variable fn : nat -> result T.
Variable exceptions : exn -> bool.
Variable before_retry : bool.

(** What any run of the loop does: it sleeps a prefix of the delays, makes
    more invocations than sleeps and at most one per delay plus the last
    attempt, and ends with the outcome of its last invocation. *)
Lemma retry_loop_trace attempts delays : forall attempt s r s',
  retry_loop fn exceptions before_retry attempts attempt delays s = (r, s') ->
  exists used rest,
    delays = used ++ rest
    /\ sleeps s' = sleeps s ++ used
    /\ (calls s < calls s')%nat
    /\ (calls s' <= calls s + length delays + 1)%nat
    /\ (length used < calls s' - calls s)%nat
    /\ fn (calls s' - 1) = r.
Proof.
  assert (Hstop : forall s rest,
             exists used rest',
               rest = used ++ rest'
               /\ sleeps (did_call s) = sleeps s ++ used
               /\ (calls s < calls (did_call s))%nat
               /\ (calls (did_call s) <= calls s + length rest + 1)%nat
               /\ (length used < calls (did_call s) - calls s)%nat
               /\ fn (calls (did_call s) - 1) = fn (calls s)).
  { intros s rest. exists [], rest. unfold did_call; cbn [calls sleeps].
    rewrite app_nil_r. cbn [app length].
    replace (S (calls s) - 1)%nat with (calls s) by lia.
    repeat split; lia. }
  induction delays as [|d ds IH]; intros attempt s r s' H.
  - cbn [retry_loop] in H. unfold last_attempt, invoke in H.
    inversion H; subst. apply Hstop.
  - cbn [retry_loop] in H. unfold invoke in H.
    destruct (fn (calls s)) as [v|exc] eqn:Hfn.
    + inversion H; subst. rewrite <- Hfn. apply Hstop.
    + destruct (exceptions exc).
      * destruct (attempts <=? attempt)%Z.
        -- unfold last_attempt, invoke in H. inversion H; subst.
           exists [], (d :: ds). unfold did_call; cbn [calls sleeps].
           rewrite app_nil_r. cbn [app length].
           replace (S (S (calls s)) - 1)%nat with (S (calls s)) by lia.
           repeat split; lia.
        -- apply IH in H. destruct H as [used [rest [Hd [Hs [Hlt [Hle [Hu Hr]]]]]]].
           exists (d :: used), rest.
           assert (Hc : calls (sleep_ms d (if before_retry
                                           then did_hook attempt exc (did_call s)
                                           else did_call s)) = S (calls s))
             by (destruct before_retry; reflexivity).
           assert (Hsl : sleeps (sleep_ms d (if before_retry
                                             then did_hook attempt exc (did_call s)
                                             else did_call s)) = sleeps s ++ [d])
             by (destruct before_retry; reflexivity).
           rewrite Hc in Hlt, Hle, Hu. rewrite Hsl in Hs.
           subst ds. rewrite Hs, <- app_assoc. cbn [app length].
           repeat split; trivial; lia.
      * inversion H; subst. rewrite <- Hfn. apply Hstop.
Qed.

(** The hook is called once per sleep, with the attempt number and the
    exception that invocation raised. *)
Lemma retry_loop_hooks attempts delays : forall attempt s r s',
  before_retry = true ->
  retry_loop fn exceptions before_retry attempts attempt delays s = (r, s') ->
  exists added,
    hooks s' = hooks s ++ added
    /\ length added = (length (sleeps s') - length (sleeps s))%nat
    /\ forall i a e, nth_error added i = Some (a, e) ->
                     a = (attempt + Z.of_nat i)%Z
                     /\ fn (calls s + i) = Raise e /\ exceptions e = true.
Proof.
  intros attempt s r s' Hb. revert attempt s r s'.
  assert (Hstop : forall attempt s s',
             hooks s' = hooks s -> sleeps s' = sleeps s ->
             exists added : list (Z * exn),
               hooks s' = hooks s ++ added
               /\ length added = (length (sleeps s') - length (sleeps s))%nat
               /\ forall i a e, nth_error added i = Some (a, e) ->
                                a = (attempt + Z.of_nat i)%Z
                                /\ fn (calls s + i) = Raise e /\ exceptions e = true).
  { intros attempt s s' Hh Hs. exists []. rewrite Hh, Hs, app_nil_r, Nat.sub_diag.
    split; [reflexivity|]. split; [reflexivity|].
    intros i a e Hn. destruct i; discriminate Hn. }
  induction delays as [|d ds IH]; intros attempt s r s' H.
  - cbn [retry_loop] in H. unfold last_attempt, invoke in H.
    inversion H; subst. now apply Hstop.
  - cbn [retry_loop] in H. unfold invoke in H.
    destruct (fn (calls s)) as [v|exc] eqn:Hfn.
    + inversion H; subst. now apply Hstop.
    + destruct (exceptions exc) eqn:Hc.
      * destruct (attempts <=? attempt)%Z.
        -- unfold last_attempt, invoke in H. inversion H; subst. now apply Hstop.
        -- assert (H' : retry_loop fn exceptions before_retry attempts (attempt + 1) ds
                          (sleep_ms d (did_hook attempt exc (did_call s))) = (r, s')).
           { rewrite Hb in H |- *. exact H. }
           clear H. rename H' into H.
           pose proof (retry_loop_trace _ _ _ _ H) as [used [_ [_ [Hs _]]]].
           apply IH in H. destruct H as [added [Hh [Hl Hall]]].
           cbn [sleep_ms did_hook did_call hooks sleeps calls] in Hh, Hl, Hall, Hs.
           exists ((attempt, exc) :: added).
           rewrite Hh, <- app_assoc. cbn [app].
           split; [reflexivity|]. split.
           ++ cbn [length]. rewrite Hl, Hs. rewrite !length_app. cbn [length]. lia.
           ++ intros i a e Hn. destruct i as [|i]; cbn [nth_error] in Hn.
              ** inversion Hn; subst. rewrite Z.add_0_r, Nat.add_0_r. auto.
              ** destruct (Hall i a e Hn) as [Ha [Hf He]].
                 split; [lia|]. split; [|exact He].
                 now replace (calls s + S i)%nat with (S (calls s) + i)%nat by lia.
      * inversion H; subst. now apply Hstop.
Qed.

End Trace.

(** X1. Whatever the callable does, [retry] invokes it at least once and at
    most max(2, tries) times, sleeps fewer times than it invokes, the
    sleeps it makes are the first delays of the backoff sequence, in
    order, and its outcome, value or exception, is the outcome of the last
    invocation it made. *)
Theorem retry_attempts_bounded
    (T : Type) (fn : nat -> result T) (exceptions : exn -> bool)
    (before_retry : bool) (tries : Z) (b : Backoff) :
  let r := fst (retry fn exceptions before_retry tries b) in
  let s := snd (retry fn exceptions before_retry tries b) in
  (1 <= calls s)%nat
  /\ (Z.of_nat (calls s) <= Z.max 2 tries)%Z
  /\ (length (sleeps s) < calls s)%nat
  /\ (exists rest,
        exp_backoff_delays_ms (Z.max 1 tries - 1) b = sleeps s ++ rest)
  /\ fn (calls s - 1) = r.
Proof.
  cbv zeta. unfold retry.
  destruct (retry_loop fn exceptions before_retry (Z.max 1 tries) 1
              (exp_backoff_delays_ms (Z.max 1 tries - 1) b) no_effects)
    as [r s'] eqn:H.
  destruct (@retry_loop_trace _ _ _ _ _ _ _ _ _ _ H)
    as [used [rest [Hd [Hs [Hlt [Hle [Hu Hr]]]]]]].
  cbn [fst snd]. cbn [no_effects calls sleeps app] in Hs, Hlt, Hle, Hu.
  rewrite TimingFacts.exp_backoff_delays_ms_length in Hle.
  rewrite Hs. split; [lia|]. split; [lia|]. split; [lia|].
  split; [exists rest; exact Hd | exact Hr].
Qed.

(** X2. An exception outside [exceptions] is never retried: when the
    callable raises no exception that [retry] catches, it is invoked exactly
    once and nothing is slept. *)
Theorem retry_uncaught_not_retried
    (T : Type) (fn : nat -> result T) (exceptions : exn -> bool)
    (before_retry : bool) (tries : Z) (b : Backoff)
    (none_caught : forall k e, fn k = Raise e -> exceptions e = false) :
  retry fn exceptions before_retry tries b = (fn 0%nat, did_call no_effects).
Proof.
  unfold retry.
  pose proof (TimingFacts.exp_backoff_delays_ms_length (Z.max 1 tries - 1) b) as Hl.
  destruct (exp_backoff_delays_ms (Z.max 1 tries - 1) b) as [|d ds].
  - simpl in Hl. lia.
  - simpl. unfold invoke. simpl calls.
    destruct (fn 0%nat) as [v|e] eqn:Hfn; [reflexivity|].
    now rewrite (none_caught _ _ Hfn).
Qed.

(** X2 at a callable that raises an uncaught error at once. *)
Lemma retry_uncaught_not_retried_witness :
  retry (always_raising (mkExn "KeyError" "k" "KeyError('k')"))
        (fun e => String.eqb (exc_type e) "TimeoutError") true 5
        (default_backoff (fun _ lo _ => lo))
  = (Raise (mkExn "KeyError" "k" "KeyError('k')"), did_call no_effects).
Proof.
  apply (@retry_uncaught_not_retried unit
           (always_raising (mkExn "KeyError" "k" "KeyError('k')"))
           (fun e => String.eqb (exc_type e) "TimeoutError") true 5
           (default_backoff (fun _ lo _ => lo))).
  intros k e H. unfold always_raising in H. inversion H. reflexivity.
Defined.

(** X4. With a [before_retry] hook, the hook is called exactly once before
    each sleep, the i-th call with attempt number i and with the exception
    the i-th invocation raised, which is one that [retry] catches. *)
Theorem retry_hook_calls
    (T : Type) (fn : nat -> result T) (exceptions : exn -> bool)
    (tries : Z) (b : Backoff) :
  let s := snd (retry fn exceptions true tries b) in
  length (hooks s) = length (sleeps s)
  /\ forall i a e, nth_error (hooks s) i = Some (a, e) ->
                   a = Z.of_nat (S i) /\ fn i = Raise e /\ exceptions e = true.
Proof.
  cbv zeta. unfold retry.
  destruct (retry_loop fn exceptions true (Z.max 1 tries) 1
              (exp_backoff_delays_ms (Z.max 1 tries - 1) b) no_effects)
    as [r s'] eqn:H.
  destruct (@retry_loop_hooks T fn exceptions true _ _ _ _ _ _ eq_refl H)
    as [added [Hh [Hl Hall]]].
  cbn [hooks sleeps calls no_effects app length Nat.add] in Hh, Hl, Hall.
  cbn [snd]. rewrite Hh. split; [lia|].
  intros i a e Hn. destruct (Hall i a e Hn) as [Ha [Hf He]].
  split; [lia|]. split; assumption.
Qed.

(** Each delay lies between 0 and the cap. *)
Lemma backoff_from_bounded b n : forall k delay d,
  (0 <= max_ms b)%Z -> In d (backoff_from b n k delay) ->
  (0 <= d <= max_ms b)%Z.
Proof.
  induction n as [|n IH]; intros k delay d Hm Hin; simpl in Hin; [contradiction|].
  destruct Hin as [<-|Hin]; [|eauto].
  set (x := fmax 0 _).
  assert (Hx : (0 <= x)%Q) by apply StabilityFacts.fmax_ge_l.
  split.
  - apply StabilityFacts.int_of_float_ge; [lia|].
    apply StabilityFacts.fmin_glb; [|exact Hx].
    change 0%Q with (inject_Z 0). rewrite <- Zle_Qle. exact Hm.
  - apply StabilityFacts.int_of_float_le; [exact Hm|].
    apply StabilityFacts.fmin_le_l.
Qed.

(** X3. [exp_backoff_delays_ms] yields max(1, attempts) delays, so at least
    one even for [attempts <= 0]; when the cap [max_ms] is not negative every
    delay lies between 0 and the cap, whatever the jitter draws are. *)
Theorem backoff_delays_count_and_range (attempts : Z) (b : Backoff)
    (cap_not_negative : (0 <= max_ms b)%Z) :
  length (exp_backoff_delays_ms attempts b) = Z.to_nat (Z.max 1 attempts)
  /\ forall d, In d (exp_backoff_delays_ms attempts b) -> (0 <= d <= max_ms b)%Z.
Proof.
  split; [apply TimingFacts.exp_backoff_delays_ms_length|].
  intros d. now apply backoff_from_bounded.
Qed.

(** X3 at the defaults with the largest upward jitter and no attempts. *)
Lemma backoff_delays_count_and_range_witness :
  (0 <= max_ms (default_backoff (fun _ _ hi => hi)))%Z
  /\ length (exp_backoff_delays_ms 0 (default_backoff (fun _ _ hi => hi)))
     = Z.to_nat (Z.max 1 0)
  /\ forall d,
      In d (exp_backoff_delays_ms 0 (default_backoff (fun _ _ hi => hi))) ->
      (0 <= d <= max_ms (default_backoff (fun _ _ hi => hi)))%Z.
Proof.
  split; [simpl; lia|].
  apply (@backoff_delays_count_and_range 0 (default_backoff (fun _ _ hi => hi))).
  simpl. lia.
Defined.

End RetryFacts.

(* ------------------------------------------------------------------ *)
(** ** The animation wait on any page                                  *)
(* ------------------------------------------------------------------ *)

Module WaitFacts.
Import Stability.

Lemma sum_at_least (l : list Z) (lo : Z) :
  (0 <= lo)%Z ->
  Forall (fun d => (lo <= d)%Z) l ->
  (lo * Z.of_nat (length l) <= fold_right (fun d acc => Z.max 0 d + acc) 0 l)%Z.
Proof. intros Hlo. induction 1; simpl length; simpl fold_right; lia. Qed.

(** Each round polls once and then either flushes and stops or sleeps
    once: polls = sleeps + flushes, at most one flush, and a run without a
    flush went through all its rounds. *)
Lemma poll_loop_accounting page sel m n : forall w,
  let w' := poll_loop page sel m n w in
  (polls w' - polls w = (length (slept w') - length (slept w))
                        + (flushes w' - flushes w))%nat
  /\ (polls w <= polls w')%nat
  /\ (length (slept w) <= length (slept w'))%nat
  /\ (flushes w <= flushes w' <= flushes w + 1)%nat
  /\ (flushes w' = flushes w -> polls w' = polls w + n)%nat.
Proof.
  induction n as [|n IH]; intros w; cbv zeta.
  - cbn [poll_loop]. repeat split; lia.
  - cbn [poll_loop]. destruct (is_idle _ m).
    + cbn [flush_paint polled polls slept flushes]. repeat split; lia.
    + specialize (IH (wait_for_timeout
                        (int_of_float (idle_script (page (clock w)) (clock w) sel m))
                        (polled w))).
      cbv zeta in IH.
      set (w' := poll_loop page sel m n _) in *.
      cbn [wait_for_timeout polled polls slept flushes] in IH.
      rewrite length_app in IH. cbn [length] in IH.
      destruct IH as [H1 [H2 [H3 [H4 H5]]]].
      repeat split; lia.
Qed.

(** One round of the loop. *)
Lemma poll_loop_step page sel m n w :
  poll_loop page sel m (S n) w
  = if is_idle (idle_script (page (clock w)) (clock w) sel m) m
    then flush_paint (polled w)
    else poll_loop page sel m n
           (wait_for_timeout
              (int_of_float (idle_script (page (clock w)) (clock w) sel m))
              (polled w)).
Proof. reflexivity. Qed.

(** X7. For any page and any idle margin between 1 and 3999 ms (the default
    is 200), both animation waits go through all 10 rounds: 10 polls, 10
    sleeps of at least the margin (capped at 2000 ms) each, no paint flush;
    the exit test never succeeds, even on a page without any animation. *)
Theorem animation_wait_never_settles
    (page : Page) (t0 : Q) (sel : option string) (min_idle_ms : Z)
    (margin : (0 < min_idle_ms < 4000)%Z) :
  let runs_out (w : Waited) :=
    polls w = 10%nat /\ length (slept w) = 10%nat /\ flushes w = 0%nat
    /\ Forall (fun d => (Z.min 2000 min_idle_ms <= d)%Z) (slept w)
    /\ (10 * Z.min 2000 min_idle_ms <= total_sleep w)%Z in
  runs_out (wait_for_animations_to_finish page t0 sel min_idle_ms)
  /\ runs_out (wait_until_idle page t0 sel min_idle_ms).
Proof.
  assert (H : let w := poll_loop page sel min_idle_ms 10 (started t0) in
              polls w = 10%nat /\ length (slept w) = 10%nat /\ flushes w = 0%nat
              /\ Forall (fun d => (Z.min 2000 min_idle_ms <= d)%Z) (slept w)
              /\ (10 * Z.min 2000 min_idle_ms <= total_sleep w)%Z).
  { cbv zeta.
    destruct (@StabilityFacts.poll_loop_runs_out page sel min_idle_ms 10 (started t0) margin)
      as [extra [Hs [Hl [Hf [Hp Hfl]]]]].
    change (slept (started t0) ++ extra) with extra in Hs.
    change (polls (started t0) + 10)%nat with 10%nat in Hp.
    change (flushes (started t0)) with 0%nat in Hfl.
    unfold total_sleep. rewrite Hs.
    split; [exact Hp|]. split; [exact Hl|]. split; [exact Hfl|]. split; [exact Hf|].
    assert (Hlo : (0 <= Z.min 2000 min_idle_ms)%Z) by lia.
    pose proof (sum_at_least Hlo Hf) as Hsum. rewrite Hl in Hsum. lia. }
  split; exact H.
Qed.

(** X7 at the default margin, on the page with one 300 ms transition. *)
Lemma animation_wait_never_settles_witness :
  (0 < 200 < 4000)%Z
  /\ polls (wait_until_idle page_300ms 0 None 200) = 10%nat.
Proof.
  split; [lia|].
  apply (@animation_wait_never_settles page_300ms 0%Q None 200%Z). lia.
Defined.

(** X8. With an idle margin of 4000 ms or more, both waits return after a
    single poll, with the paint flush and without sleeping, whatever
    animations the page declares: the capped suggestion is never above half
    the margin. *)
Theorem animation_wait_large_margin_returns_at_once
    (page : Page) (t0 : Q) (sel : option string) (min_idle_ms : Z)
    (margin : (4000 <= min_idle_ms)%Z) :
  wait_for_animations_to_finish page t0 sel min_idle_ms
  = mkWaited t0 [] 1 1
  /\ wait_until_idle page t0 sel min_idle_ms = mkWaited t0 [] 1 1.
Proof.
  assert (H : poll_loop page sel min_idle_ms 10 (started t0) = mkWaited t0 [] 1 1).
  { rewrite poll_loop_step.
    assert (E : forall w, is_idle (idle_script (page (clock w)) (clock w) sel min_idle_ms)
                                  min_idle_ms = true).
    { intros w. unfold is_idle. apply orb_true_iff. right. apply Qle_bool_iff.
      apply Qle_trans with 2000%Q; [apply StabilityFacts.idle_script_capped|].
      change 2000%Q with (inject_Z 2000). rewrite <- Zle_Qle.
      apply Z.div_le_lower_bound; lia. }
    rewrite E. reflexivity. }
  split; exact H.
Qed.

(** X8 at a margin of 4000 ms on the page with one 300 ms transition. *)
Lemma animation_wait_large_margin_returns_at_once_witness :
  (4000 <= 4000)%Z
  /\ wait_until_idle page_300ms 0 None 4000 = mkWaited 0 [] 1 1.
Proof.
  split; [lia|].
  apply (@animation_wait_large_margin_returns_at_once page_300ms 0%Q None 4000%Z). lia.
Defined.

(** X9. In every run of the animation wait, on any page and for any
    margin, the number of polls is the number of sleeps plus the number of
    paint flushes, there is at most one paint flush, and a run that ends
    without the flush has polled 10 times: the wait gave up rather than
    found the page idle. *)
Theorem animation_wait_accounting
    (page : Page) (t0 : Q) (sel : option string) (min_idle_ms : Z) :
  let w := wait_for_animations_to_finish page t0 sel min_idle_ms in
  polls w = (length (slept w) + flushes w)%nat
  /\ (1 <= polls w)%nat
  /\ (flushes w <= 1)%nat
  /\ (flushes w = 0%nat -> polls w = 10%nat).
Proof.
  cbv zeta. unfold wait_for_animations_to_finish.
  pose proof (poll_loop_accounting page sel min_idle_ms 10 (started t0)) as H.
  cbv zeta in H.
  set (w := poll_loop page sel min_idle_ms 10 (started t0)) in *.
  change (polls (started t0)) with 0%nat in H.
  change (flushes (started t0)) with 0%nat in H.
  change (length (slept (started t0))) with 0%nat in H.
  destruct H as [H1 [H2 [H3 [H4 H5]]]].
  split; [lia|]. split.
  - destruct (Nat.eq_dec (flushes w) 0) as [E|E]; [specialize (H5 E)|]; lia.
  - split; [lia|]. intros E. specialize (H5 E). lia.
Qed.

End WaitFacts.

(* ------------------------------------------------------------------ *)
(** ** The polling wait                                                *)
(* ------------------------------------------------------------------ *)

Module PollingFacts.
Import Polling.

Section Loop.
Variable T : Type.
Variable predicate : nat -> result (option T).
Variable predicate_ms : nat -> Z.
Variable oversleep_ms : nat -> Z.
Variables t0 timeout_ms interval_ms : Z.
Variable description : option string.

(** The clock does not run backwards and a sleep lasts at least what was
    asked. *)
Hypothesis predicate_takes_time : forall k, (0 <= predicate_ms k)%Z.
Hypothesis sleep_is_long_enough : forall k, (0 <= oversleep_ms k)%Z.

Lemma wait_for_loop_spec : forall fuel s,
  (Z.to_nat (t0 + Z.max 0 timeout_ms - clock s) < fuel)%nat ->
  sleeps s = repeat (Z.max 1 interval_ms) (polls s) ->
  (t0 + Z.of_nat (polls s) * Z.max 1 interval_ms <= clock s)%Z ->
  ((Z.of_nat (polls s) - 1) * Z.max 1 interval_ms < Z.max 0 timeout_ms)%Z ->
  exists r s',
    wait_for_loop predicate predicate_ms oversleep_ms fuel
                  (t0 + Z.max 0 timeout_ms)
                  timeout_ms interval_ms description s = Some (r, s')
    /\ finished predicate t0 timeout_ms interval_ms description s r s'.
Proof.
  induction fuel as [|fuel IH]; intros s Hfuel Hsl Hclock Hinv; [lia|].
  set (step_ms := Z.max 1 interval_ms) in *.
  set (deadline := (t0 + Z.max 0 timeout_ms)%Z) in *.
  assert (Hstep : (1 <= step_ms)%Z) by (unfold step_ms; lia).
  pose proof (predicate_takes_time (polls s)) as Hp.
  cbn [wait_for_loop]. unfold call_predicate.
  assert (Hnow : forall r,
             match r with
             | Ok val => predicate (polls s) = Ok (Some val)
             | Raise e =>
                 predicate (polls s) = Raise e
                 \/ (predicate (polls s) = Ok None
                     /\ e = timed_out timeout_ms description
                     /\ (deadline <= clock s + predicate_ms (polls s))%Z)
             end ->
             finished predicate t0 timeout_ms interval_ms description s r (mkPolled (clock s + predicate_ms (polls s))
                                    (S (polls s)) (sleeps s))).
  { intros r Hr. unfold finished. cbn [polls sleeps clock].
    replace (S (polls s) - 1)%nat with (polls s) by lia.
    split; [lia|]. split; [lia|]. split; [exact Hsl|]. split; [intros k Hk; lia|].
    exact Hr. }
  destruct (predicate (polls s)) as [[val|]|e] eqn:Hpred.
  - eexists; eexists; split; [reflexivity|]. apply Hnow. reflexivity.
  - cbn [clock].
    destruct (deadline <=? clock s + predicate_ms (polls s))%Z eqn:Hdl.
    + apply Z.leb_le in Hdl.
      eexists; eexists; split; [reflexivity|]. apply Hnow. right. auto.
    + apply Z.leb_gt in Hdl.
      set (s2 := sleep_ms oversleep_ms (Z.max 1 interval_ms)
                   (mkPolled (clock s + predicate_ms (polls s))
                             (S (polls s)) (sleeps s))).
      pose proof (sleep_is_long_enough (length (sleeps s))) as Ho.
      assert (Hc2 : clock s2 = (clock s + predicate_ms (polls s)
                                + Z.max 0 step_ms
                                + oversleep_ms (length (sleeps s)))%Z) by reflexivity.
      assert (Hp2 : polls s2 = S (polls s)) by reflexivity.
      assert (Hs2 : sleeps s2 = repeat step_ms (polls s2)).
      { rewrite Hp2. unfold s2, sleep_ms. cbn [sleeps]. rewrite Hsl.
        symmetry. apply repeat_cons. }
      destruct (IH s2) as [r [s' [Hrun Hfin]]].
      * rewrite Hc2. lia.
      * exact Hs2.
      * rewrite Hc2, Hp2. lia.
      * rewrite Hp2. lia.
      * exists r, s'. split; [exact Hrun|].
        destruct Hfin as [H1 [H2 [H3 [H4 H5]]]]. rewrite Hp2 in H1, H4.
        unfold finished.
        split; [lia|]. split; [exact H2|]. split; [exact H3|]. split; [|exact H5].
        intros k Hk. destruct (Nat.eq_dec k (polls s)) as [->|Hne]; [exact Hpred|].
        apply H4. lia.
  - eexists; eexists; split; [reflexivity|]. apply Hnow. left. reflexivity.
Qed.

End Loop.

(** X6. [wait_for] returns: on a clock that does not run backwards, with
    sleeps at least as long as asked, the loop ends within
    max(0, timeout_ms) + 1 rounds. The predicate is called at least once,
    even when the timeout is zero or negative, and the k-th call (k >= 2)
    is made only if (k - 2) * max(1, interval_ms) < max(0, timeout_ms).
    Every sleep asks for max(1, interval_ms); every call before the last
    returned a falsy value; the result is the truthy value of the last
    call, or the exception the last call raised, or the timeout error
    after a falsy last call at or past the deadline. *)
Theorem wait_for_returns
    (T : Type) (predicate : nat -> result (option T))
    (predicate_ms oversleep_ms : nat -> Z)
    (t0 timeout_ms interval_ms : Z) (description : option string) (fuel : nat)
    (predicate_takes_time : forall k, (0 <= predicate_ms k)%Z)
    (sleep_is_long_enough : forall k, (0 <= oversleep_ms k)%Z)
    (enough_fuel : (Z.to_nat (Z.max 0 timeout_ms) < fuel)%nat) :
  exists r s,
    wait_for predicate predicate_ms oversleep_ms fuel t0 timeout_ms interval_ms
             description = Some (r, s)
    /\ (1 <= polls s)%nat
    /\ ((Z.of_nat (polls s) - 2) * Z.max 1 interval_ms < Z.max 0 timeout_ms)%Z
    /\ sleeps s = repeat (Z.max 1 interval_ms) (polls s - 1)
    /\ (forall k, (k < polls s - 1)%nat -> predicate k = Ok None)
    /\ match r with
       | Ok val => predicate (polls s - 1) = Ok (Some val)
       | Raise e =>
           predicate (polls s - 1) = Raise e
           \/ (predicate (polls s - 1) = Ok None
               /\ e = timed_out timeout_ms description
               /\ (t0 + Z.max 0 timeout_ms <= clock s)%Z)
       end.
Proof.
  unfold wait_for.
  destruct (@wait_for_loop_spec T predicate predicate_ms oversleep_ms
              t0 timeout_ms interval_ms description
              predicate_takes_time sleep_is_long_enough
              fuel (mkPolled t0 0 []))
    as [r [s [Hrun [H1 [H2 [H3 [H4 H5]]]]]]]; cbn [clock polls sleeps].
  - lia.
  - reflexivity.
  - lia.
  - lia.
  - exists r, s. split; [exact Hrun|]. cbn [polls] in H1, H4.
    split; [lia|]. split; [exact H2|]. split; [exact H3|]. split; [|exact H5].
    intros k Hk. apply H4. lia.
Qed.

(** X6 at a predicate that turns true at its third call, polled every
    100 ms for at most a second. *)
Lemma wait_for_returns_witness :
  exists r s,
    wait_for third_time (fun _ => 0%Z) (fun _ => 0%Z) 1001 0 1000 100 None
    = Some (r, s)
    /\ (1 <= polls s)%nat
    /\ ((Z.of_nat (polls s) - 2) * Z.max 1 100 < Z.max 0 1000)%Z
    /\ sleeps s = repeat (Z.max 1 100) (polls s - 1)
    /\ (forall k, (k < polls s - 1)%nat -> third_time k = Ok None)
    /\ match r with
       | Ok val => third_time (polls s - 1) = Ok (Some val)
       | Raise e =>
           third_time (polls s - 1) = Raise e
           \/ (third_time (polls s - 1) = Ok None
               /\ e = timed_out 1000 None
               /\ (0 + Z.max 0 1000 <= clock s)%Z)
       end.
Proof.
  apply (@wait_for_returns string third_time (fun _ => 0%Z) (fun _ => 0%Z)
           0%Z 1000%Z 100%Z None 1001%nat).
  - intros k. lia.
  - intros k. lia.
  - vm_compute. lia.
Defined.

End PollingFacts.

(* ------------------------------------------------------------------ *)
(** ** Sorting in descending key order                                 *)
(* ------------------------------------------------------------------ *)

Module PySortFacts.
Import PySort.

Section Sort.
Variable A : Type.
Variable gtb : A -> A -> bool.

Lemma insert_desc_perm (x : A) (l : list A) :
  Permutation (insert_desc gtb x l) (x :: l).
Proof.
  induction l as [|y rest IH]; cbn [insert_desc]; [reflexivity|].
  destruct (gtb y x); [|reflexivity].
  rewrite IH. apply perm_swap.
Qed.

Lemma sort_desc_perm (l : list A) : Permutation (sort_desc gtb l) l.
Proof.
  induction l as [|x rest IH]; cbn [sort_desc fold_right]; [reflexivity|].
  fold (sort_desc gtb rest). rewrite insert_desc_perm. now constructor.
Qed.

Lemma sort_desc_in (l : list A) (x : A) : In x (sort_desc gtb l) <-> In x l.
Proof.
  split; apply Permutation_in;
    [apply sort_desc_perm | symmetry; apply sort_desc_perm].
Qed.

Lemma hd_insert_desc (x : A) (l : list A) :
  hd_error (insert_desc gtb x l)
  = match hd_error l with
    | None => Some x
    | Some y => if gtb y x then Some y else Some x
    end.
Proof. destruct l as [|y rest]; cbn; [reflexivity|]. now destruct (gtb y x). Qed.

(** The head of the sorted list is the first element of greatest key. *)
Lemma hd_sort_desc (l : list A) : hd_error (sort_desc gtb l) = first_max gtb l.
Proof.
  induction l as [|x rest IH]; [reflexivity|].
  cbn [sort_desc fold_right first_max]. fold (sort_desc gtb rest).
  now rewrite hd_insert_desc, IH.
Qed.

(** The key order is a strict weak order. *)
Hypothesis gtb_asym : forall a b, gtb a b = true -> gtb b a = false.
Hypothesis gtb_negtrans :
  forall a b c, gtb c b = false -> gtb b a = false -> gtb c a = false.

Variable before : A -> A -> Prop.

Lemma insert_desc_sorted (x : A) (l : list A) :
  Forall (before x) l ->
  StronglySorted (precedes gtb before) l ->
  StronglySorted (precedes gtb before) (insert_desc gtb x l).
Proof.
  intros Hx Hs. induction Hs as [|y rest Hs IH Hy]; cbn [insert_desc].
  - constructor; constructor.
  - inversion Hx as [|? ? Hxy Hxrest]; subst.
    destruct (gtb y x) eqn:E.
    + constructor; [apply IH; exact Hxrest|].
      eapply Permutation_Forall; [symmetry; apply insert_desc_perm|].
      constructor; [|exact Hy].
      split; [now apply gtb_asym | now left].
    + constructor; [constructor; assumption|].
      constructor; [split; [exact E | now right]|].
      rewrite Forall_forall in Hy, Hxrest |- *. intros z Hz.
      split; [|right; now apply Hxrest].
      destruct (Hy z Hz) as [Hzy _]. now apply gtb_negtrans with y.
Qed.

(** Sorting an input listed in the order [before] gives a list in which
    keys never increase and equal keys keep the order of the input. *)
Lemma sort_desc_sorted (l : list A) :
  StronglySorted before l ->
  StronglySorted (precedes gtb before) (sort_desc gtb l).
Proof.
  induction 1 as [|x rest Hs IH Hx]; cbn [sort_desc fold_right].
  - constructor.
  - fold (sort_desc gtb rest). apply insert_desc_sorted; [|exact IH].
    eapply Permutation_Forall; [symmetry; apply sort_desc_perm|].
    exact Hx.
Qed.

End Sort.

End PySortFacts.

(* ------------------------------------------------------------------ *)
(** ** All modals, and the active one among them                       *)
(* ------------------------------------------------------------------ *)

Module ModalAllFacts.
Import Modal ModalAll PySort.

Lemma StronglySorted_weaken (A : Type) (R R' : A -> A -> Prop) (l : list A) :
  (forall a b, R a b -> R' a b) -> StronglySorted R l -> StronglySorted R' l.
Proof.
  intros Himp. induction 1 as [|x rest Hs IH Hx]; constructor; [exact IH|].
  eapply Forall_impl; [|exact Hx]. intros b. apply Himp.
Qed.

Lemma z_gtb_asym a b : z_gtb a b = true -> z_gtb b a = false.
Proof. unfold z_gtb. rewrite Z.ltb_lt, Z.ltb_ge. lia. Qed.

Lemma z_gtb_negtrans a b c :
  z_gtb c b = false -> z_gtb b a = false -> z_gtb c a = false.
Proof. unfold z_gtb. rewrite !Z.ltb_ge. lia. Qed.

(** Every info collected comes from the candidate it points to. *)
Lemma collect_in page els : forall i m,
  In m (collect page i els) ->
  exists el, (i <= locator m)%nat
             /\ nth_error els (locator m - i) = Some el
             /\ inspect page (locator m) el = Some m.
Proof.
  induction els as [|el rest IH]; intros i m Hin; cbn [collect] in Hin;
    [contradiction|].
  assert (Hrest : In m (collect page (S i) rest) ->
                  exists el0, (i <= locator m)%nat
                              /\ nth_error (el :: rest) (locator m - i) = Some el0
                              /\ inspect page (locator m) el0 = Some m).
  { intros H. destruct (IH _ _ H) as [el0 [Hle [Hn Hi]]]. exists el0.
    split; [lia|]. split; [|exact Hi].
    replace (locator m - i)%nat with (S (locator m - S i)) by lia. exact Hn. }
  destruct (inspect page i el) as [info|] eqn:E; [|auto].
  destruct Hin as [<-|Hin]; [|auto].
  destruct (ModalFacts.inspect_some _ _ _ E) as [_ [Hl _]].
  exists el. rewrite Hl, Nat.sub_diag. auto.
Qed.

Lemma collect_complete page els : forall i j el m,
  nth_error els j = Some el -> inspect page (i + j) el = Some m ->
  In m (collect page i els).
Proof.
  induction els as [|el0 rest IH]; intros i j el m Hn Hi;
    [destruct j; discriminate|].
  cbn [collect]. destruct j as [|j]; cbn [nth_error] in Hn.
  - inversion Hn; subst. rewrite Nat.add_0_r in Hi. rewrite Hi. now left.
  - assert (Hin : In m (collect page (S i) rest)).
    { apply (IH (S i) j el m Hn).
      now replace (S i + j)%nat with (i + S j)%nat by lia. }
    destruct (inspect page i el0); [now right | exact Hin].
Qed.

Lemma collect_ordered page els : forall i,
  StronglySorted (fun a b => (locator a < locator b)%nat) (collect page i els).
Proof.
  induction els as [|el rest IH]; intros i; cbn [collect]; [constructor|].
  destruct (inspect page i el) as [info|] eqn:E; [|apply IH].
  constructor; [apply IH|].
  destruct (ModalFacts.inspect_some _ _ _ E) as [_ [Hl _]].
  rewrite Forall_forall. intros m Hm.
  destruct (collect_in _ _ _ _ Hm) as [_ [Hle _]]. lia.
Qed.

Lemma collect_length page els : forall i,
  length (collect page i els) = length (filter (visible_in_viewport page) els).
Proof.
  induction els as [|el rest IH]; intros i; cbn [collect filter]; [reflexivity|].
  destruct (inspect page i el) as [info|] eqn:E.
  - destruct (ModalFacts.inspect_some _ _ _ E) as [Hv _]. rewrite Hv.
    cbn [length]. now rewrite IH.
  - rewrite (ModalFacts.inspect_none _ _ _ E). apply IH.
Qed.

(** The loop of [detect_active] keeps the first info of greatest z-index. *)
Lemma detect_loop_first_max page els : forall i best,
  detect_loop page i els best
  = match best with
    | None => first_max z_gtb (collect page i els)
    | Some b => first_max z_gtb (b :: collect page i els)
    end.
Proof.
  assert (Hpick : forall b x l,
             first_max z_gtb (b :: x :: l)
             = first_max z_gtb ((if (z_index b <? z_index x)%Z then x else b) :: l)).
  { intros b x l. cbn [first_max].
    destruct (first_max z_gtb l) as [m|]; unfold z_gtb.
    - destruct (z_index b <? z_index x)%Z eqn:E2; cbv iota;
        destruct (z_index x <? z_index m)%Z eqn:E1;
        destruct (z_index b <? z_index m)%Z eqn:E3;
        rewrite ?E1, ?E2, ?E3; try reflexivity;
        rewrite ?Z.ltb_lt, ?Z.ltb_ge in *; exfalso; lia.
    - now destruct (z_index b <? z_index x)%Z. }
  induction els as [|el rest IH]; intros i best.
  - cbn [detect_loop collect first_max]. now destruct best.
  - cbn [detect_loop collect]. destruct (inspect page i el) as [info|].
    + destruct best as [b|].
      * rewrite Hpick.
        destruct (z_index b <? z_index info)%Z; now rewrite IH.
      * now rewrite IH.
    + now rewrite IH.
Qed.

(** X11. [find_all] returns one info for each candidate that is visible in
    the viewport, and no other; the infos are in descending z-index order,
    and infos with the same z-index keep the order of the candidates on
    the page. *)
Theorem find_all_sorted (page : Page) (els : list Element)
    (listed : candidates page = Ok els) :
  exists infos,
    find_all page = Ok infos
    /\ (forall m, In m infos <->
                  exists el, nth_error els (locator m) = Some el
                             /\ inspect page (locator m) el = Some m)
    /\ length infos = length (filter (visible_in_viewport page) els)
    /\ StronglySorted
         (fun a b => (z_index b <= z_index a)%Z
                     /\ (z_index a = z_index b -> (locator a < locator b)%nat))
         infos.
Proof.
  unfold find_all. rewrite listed. eexists. split; [reflexivity|].
  split; [|split].
  - intros m. rewrite PySortFacts.sort_desc_in. split.
    + intros Hin. destruct (collect_in _ _ _ _ Hin) as [el [_ [Hn Hi]]].
      exists el. rewrite Nat.sub_0_r in Hn. auto.
    + intros [el [Hn Hi]]. exact (collect_complete page els 0 _ Hn Hi).
  - rewrite (Permutation_length (PySortFacts.sort_desc_perm z_gtb _)).
    apply collect_length.
  - apply StronglySorted_weaken
      with (R := precedes z_gtb (fun a b => (locator a < locator b)%nat)).
    + intros a b [H1 H2]. unfold z_gtb in H1, H2.
      rewrite Z.ltb_ge in H1. rewrite Z.ltb_lt in H2. lia.
    + apply PySortFacts.sort_desc_sorted;
        [exact z_gtb_asym | exact z_gtb_negtrans | apply collect_ordered].
Qed.

(** X11 on a page with two dialogs. *)
Lemma find_all_sorted_witness :
  exists infos,
    find_all (page_with [dialog 10; dialog 20]) = Ok infos
    /\ (forall m, In m infos <->
                  exists el, nth_error [dialog 10; dialog 20] (locator m) = Some el
                             /\ inspect (page_with [dialog 10; dialog 20])
                                        (locator m) el = Some m)
    /\ length infos
       = length (filter (visible_in_viewport (page_with [dialog 10; dialog 20]))
                        [dialog 10; dialog 20])
    /\ StronglySorted
         (fun a b => (z_index b <= z_index a)%Z
                     /\ (z_index a = z_index b -> (locator a < locator b)%nat))
         infos.
Proof.
  apply (@find_all_sorted (page_with [dialog 10; dialog 20]) [dialog 10; dialog 20]).
  reflexivity.
Defined.

(** X12. [detect_active] and [find_all] agree: on every page, the active
    modal is the first entry of [find_all], and there is none exactly when
    [find_all] is empty; both raise when the candidates cannot be
    counted. *)
Theorem detect_active_is_first_of_find_all (page : Page) :
  detect_active page
  = match find_all page with
    | Raise e => Raise e
    | Ok infos => Ok (hd_error infos)
    end.
Proof.
  unfold detect_active, find_all.
  destruct (candidates page) as [els|e]; [|reflexivity].
  rewrite PySortFacts.hd_sort_desc.
  destruct els as [|el rest]; [reflexivity|].
  now rewrite detect_loop_first_max.
Qed.

End ModalAllFacts.

(* ------------------------------------------------------------------ *)
(** ** Overlays                                                        *)
(* ------------------------------------------------------------------ *)

Module OverlayFacts.
Import Overlay PySort.

Lemma key_gtb_asym a b : key_gtb a b = true -> key_gtb b a = false.
Proof.
  unfold key_gtb. intros H.
  destruct (Z.compare_spec (z_index a) (z_index b)) as [Hz|Hz|Hz].
  - rewrite Hz in *. rewrite Z.ltb_irrefl, Z.eqb_refl in *. cbn [orb andb] in *.
    destruct (Z.compare_spec (area a) (area b)) as [Ha|Ha|Ha].
    + rewrite Ha in *. rewrite Z.ltb_irrefl, Z.eqb_refl in *. cbn [orb andb] in *.
      apply negb_true_iff in H. apply negb_false_iff. apply Qle_bool_iff.
      destruct (Qle_bool (opacity a) (opacity b)) eqn:E; [discriminate|].
      apply Qlt_le_weak. apply Qnot_le_lt. intros Hle.
      apply Qle_bool_iff in Hle. congruence.
    + assert (E1 : (area b <? area a)%Z = false) by (apply Z.ltb_ge; lia).
      assert (E2 : (area a =? area b)%Z = false) by (apply Z.eqb_neq; lia).
      rewrite E1, E2 in H. discriminate.
    + assert (E1 : (area a <? area b)%Z = false) by (apply Z.ltb_ge; lia).
      assert (E2 : (area b =? area a)%Z = false) by (apply Z.eqb_neq; lia).
      now rewrite E1, E2.
  - assert (E1 : (z_index b <? z_index a)%Z = false) by (apply Z.ltb_ge; lia).
    assert (E2 : (z_index a =? z_index b)%Z = false) by (apply Z.eqb_neq; lia).
    rewrite E1, E2 in H. discriminate.
  - assert (E1 : (z_index a <? z_index b)%Z = false) by (apply Z.ltb_ge; lia).
    assert (E2 : (z_index b =? z_index a)%Z = false) by (apply Z.eqb_neq; lia).
    now rewrite E1, E2.
Qed.

(** [key_gtb a b = false] says the key of [a] is at most that of [b]. *)
Lemma key_gtb_false a b :
  key_gtb a b = false <->
  (z_index a < z_index b)%Z
  \/ (z_index a = z_index b
      /\ ((area a < area b)%Z
          \/ (area a = area b /\ (opacity a <= opacity b)%Q))).
Proof.
  unfold key_gtb. split.
  - intros H. apply orb_false_iff in H. destruct H as [H1 H2].
    apply Z.ltb_ge in H1.
    destruct (Z.eqb_spec (z_index a) (z_index b)) as [Hz|Hz]; [|left; lia].
    right. split; [exact Hz|]. cbn [andb] in H2.
    apply orb_false_iff in H2. destruct H2 as [H2 H3]. apply Z.ltb_ge in H2.
    destruct (Z.eqb_spec (area a) (area b)) as [Ha|Ha]; [|left; lia].
    right. split; [exact Ha|]. cbn [andb] in H3.
    apply negb_false_iff in H3. now apply Qle_bool_iff.
  - intros [H|[Hz [H|[Ha Ho]]]].
    + assert (E1 : (z_index b <? z_index a)%Z = false) by (apply Z.ltb_ge; lia).
      assert (E2 : (z_index a =? z_index b)%Z = false) by (apply Z.eqb_neq; lia).
      now rewrite E1, E2.
    + assert (E1 : (area b <? area a)%Z = false) by (apply Z.ltb_ge; lia).
      assert (E2 : (area a =? area b)%Z = false) by (apply Z.eqb_neq; lia).
      rewrite Hz, Z.ltb_irrefl, Z.eqb_refl, E1, E2. reflexivity.
    + apply Qle_bool_iff in Ho.
      rewrite Hz, Ha, !Z.ltb_irrefl, !Z.eqb_refl, Ho. reflexivity.
Qed.

Lemma key_gtb_negtrans a b c :
  key_gtb c b = false -> key_gtb b a = false -> key_gtb c a = false.
Proof.
  rewrite !key_gtb_false.
  intros [H1|[Hz1 [H1|[Ha1 Ho1]]]] [H2|[Hz2 [H2|[Ha2 Ho2]]]];
    try (left; lia); right; (split; [lia|]); try (left; lia).
  right. split; [lia|]. now apply Qle_trans with (opacity b).
Qed.

Lemma inspect_qualifies page i el info :
  inspect page i el = Some info -> qualifies page el = true /\ locator info = i.
Proof.
  unfold inspect, qualifies, _score_overlay.
  destruct (el_is_visible el) as [[|]|]; try discriminate.
  destruct (el_style el) as [st|]; try discriminate.
  destruct (positioned st); cbn [negb]; try discriminate.
  destruct (covers page st); cbn [negb orb]; try discriminate.
  destruct (visibleBg st); cbn [negb]; try discriminate.
  destruct (client_rect st) as [[[r_left r_top] r_width] r_height].
  intros H; inversion H; subst. auto.
Qed.

Lemma qualifies_inspect page i el :
  qualifies page el = true -> exists info, inspect page i el = Some info.
Proof.
  unfold inspect, qualifies, _score_overlay.
  destruct (el_is_visible el) as [[|]|]; try discriminate.
  destruct (el_style el) as [st|]; try discriminate.
  intros H. apply andb_true_iff in H. destruct H as [H H3].
  apply andb_true_iff in H. destruct H as [H1 H2].
  rewrite H1, H2, H3. cbn [negb orb].
  destruct (client_rect st) as [[[r_left r_top] r_width] r_height]. eauto.
Qed.

Lemma overlay_collect_in page els : forall i info,
  In info (collect page i els) ->
  exists el, (i <= locator info)%nat
             /\ nth_error els (locator info - i) = Some el
             /\ inspect page (locator info) el = Some info.
Proof.
  induction els as [|el rest IH]; intros i m Hin; cbn [collect] in Hin;
    [contradiction|].
  assert (Hrest : In m (collect page (S i) rest) ->
                  exists el0, (i <= locator m)%nat
                              /\ nth_error (el :: rest) (locator m - i) = Some el0
                              /\ inspect page (locator m) el0 = Some m).
  { intros H. destruct (IH _ _ H) as [el0 [Hle [Hn Hi]]]. exists el0.
    split; [lia|]. split; [|exact Hi].
    replace (locator m - i)%nat with (S (locator m - S i)) by lia. exact Hn. }
  destruct (inspect page i el) as [info|] eqn:E; [|auto].
  destruct Hin as [<-|Hin]; [|auto].
  destruct (inspect_qualifies _ _ _ E) as [_ Hl].
  exists el. rewrite Hl, Nat.sub_diag. auto.
Qed.

Lemma overlay_collect_complete page els : forall i j el info,
  nth_error els j = Some el -> inspect page (i + j) el = Some info ->
  In info (collect page i els).
Proof.
  induction els as [|el0 rest IH]; intros i j el m Hn Hi;
    [destruct j; discriminate|].
  cbn [collect]. destruct j as [|j]; cbn [nth_error] in Hn.
  - inversion Hn; subst. rewrite Nat.add_0_r in Hi. rewrite Hi. now left.
  - assert (Hin : In m (collect page (S i) rest)).
    { apply (IH (S i) j el m Hn).
      now replace (S i + j)%nat with (i + S j)%nat by lia. }
    destruct (inspect page i el0); [now right | exact Hin].
Qed.

Lemma overlay_collect_ordered page els : forall i,
  StronglySorted (fun a b => (locator a < locator b)%nat) (collect page i els).
Proof.
  induction els as [|el rest IH]; intros i; cbn [collect]; [constructor|].
  destruct (inspect page i el) as [info|] eqn:E; [|apply IH].
  constructor; [apply IH|].
  destruct (inspect_qualifies _ _ _ E) as [_ Hl].
  rewrite Forall_forall. intros m Hm.
  destruct (overlay_collect_in _ _ _ _ Hm) as [_ [Hle _]]. lia.
Qed.

(** The sorted list holds the infos of the candidates inspected with
    success, in descending key order, equal keys in page order. *)
Lemma overlay_sorted (page : Page) (els : list Element) :
  (forall info, In info (sort_desc key_gtb (collect page 0 els)) <->
                exists el, nth_error els (locator info) = Some el
                           /\ inspect page (locator info) el = Some info)
  /\ StronglySorted (precedes key_gtb (fun a b => (locator a < locator b)%nat))
                    (sort_desc key_gtb (collect page 0 els)).
Proof.
  split.
  - intros info. rewrite PySortFacts.sort_desc_in. split.
    + intros Hin. destruct (overlay_collect_in _ _ _ _ Hin) as [el [_ [Hn Hi]]].
      exists el. rewrite Nat.sub_0_r in Hn. auto.
    + intros [el [Hn Hi]]. exact (overlay_collect_complete page els 0 _ Hn Hi).
  - apply PySortFacts.sort_desc_sorted;
      [exact key_gtb_asym | exact key_gtb_negtrans | apply overlay_collect_ordered].
Qed.

(** X14. [find_all] lists exactly the candidates that are visible,
    positioned fixed or absolute, cover at least 90 % of the viewport in
    both directions and have an opacity of at least 0.05 or a background
    colour; an element whose queries raise is left out. The list is in
    descending order of (z-index, area, opacity), elements with the same
    key in page order. *)
Theorem overlay_find_all_sorted (page : Page) (els : list Element)
    (listed : candidates page = Ok els) :
  exists overlays,
    find_all page = Ok overlays
    /\ (forall info, In info overlays ->
          exists el, nth_error els (locator info) = Some el
                     /\ qualifies page el = true)
    /\ (forall i el, nth_error els i = Some el -> qualifies page el = true ->
          exists info, In info overlays /\ locator info = i)
    /\ StronglySorted
         (fun a b => key_gtb b a = false
                     /\ (key_gtb a b = false -> (locator a < locator b)%nat))
         overlays.
Proof.
  destruct (overlay_sorted page els) as [Hin Hsorted].
  unfold find_all. rewrite listed. eexists. split; [reflexivity|].
  split; [|split].
  - intros info Hinfo. apply Hin in Hinfo. destruct Hinfo as [el [Hn Hi]].
    exists el. split; [exact Hn|].
    exact (proj1 (inspect_qualifies _ _ _ Hi)).
  - intros i el Hn Hq. destruct (qualifies_inspect page i el Hq) as [info Hi].
    destruct (inspect_qualifies _ _ _ Hi) as [_ Hl].
    exists info. split; [|exact Hl].
    apply Hin. exists el. rewrite Hl. auto.
  - apply ModalAllFacts.StronglySorted_weaken
      with (R := precedes key_gtb (fun a b => (locator a < locator b)%nat));
      [|exact Hsorted].
    intros a b [H1 [H2|H2]]; (split; [exact H1|]); [congruence | auto].
Qed.

(** X15. [detect] returns nothing exactly when no candidate qualifies as
    an overlay; what it returns otherwise is a qualifying candidate whose
    key (z-index, area, opacity) no other qualifying candidate exceeds,
    and the first on the page among those with that key. *)
Theorem overlay_detect_most_prominent (page : Page) (els : list Element)
    (listed : candidates page = Ok els) :
  (detect page = Ok None <-> forall el, In el els -> qualifies page el = false)
  /\ forall m, detect page = Ok (Some m) ->
       (exists el, nth_error els (locator m) = Some el /\ qualifies page el = true)
       /\ forall i el info,
            nth_error els i = Some el -> inspect page i el = Some info ->
            key_gtb info m = false
            /\ (key_gtb m info = false -> (locator m <= i)%nat).
Proof.
  destruct (overlay_sorted page els) as [Hin Hsorted].
  unfold detect, find_all. rewrite listed.
  destruct (sort_desc key_gtb (collect page 0 els)) as [|o rest].
  - split.
    + split; [|reflexivity]. intros _ el Hel.
      destruct (qualifies page el) eqn:Hq; [|reflexivity].
      destruct (In_nth_error _ _ Hel) as [i Hn].
      destruct (qualifies_inspect page i el Hq) as [info Hi].
      destruct (inspect_qualifies _ _ _ Hi) as [_ Hl].
      assert (Hx : In info []) by (apply Hin; exists el; rewrite Hl; auto).
      destruct Hx.
    + intros m Hm. discriminate.
  - assert (Ho : exists el, nth_error els (locator o) = Some el
                            /\ qualifies page el = true).
    { destruct (proj1 (Hin o) (or_introl eq_refl)) as [el [Hn Hi]].
      exists el. split; [exact Hn | exact (proj1 (inspect_qualifies _ _ _ Hi))]. }
    split.
    + split; [discriminate|]. intros H. destruct Ho as [el [Hn Hq]].
      rewrite (H el (nth_error_In _ _ Hn)) in Hq. discriminate.
    + intros m Hm. cbn [hd_error] in Hm. inversion Hm; subst o.
      split; [exact Ho|].
      intros i el info Hn Hi.
      destruct (inspect_qualifies _ _ _ Hi) as [_ Hl].
      assert (Hmem : In info (m :: rest)).
      { apply Hin. exists el. rewrite Hl. auto. }
      inversion Hsorted as [|? ? _ Hall]; subst.
      destruct Hmem as [<-|Hmem].
      * split; [|lia].
        destruct (key_gtb m m) eqn:E; [|reflexivity].
        now rewrite (key_gtb_asym _ _ E) in E.
      * rewrite Forall_forall in Hall. destruct (Hall info Hmem) as [H1 H2].
        split; [exact H1|]. intros H3.
        destruct H2 as [H2|H2]; [congruence | lia].
Qed.

(** X14 on a page with two backdrops. *)
Lemma overlay_find_all_sorted_witness :
  exists overlays,
    find_all (page_of [backdrop 5; backdrop 9]) = Ok overlays
    /\ (forall info, In info overlays ->
          exists el, nth_error [backdrop 5; backdrop 9] (locator info) = Some el
                     /\ qualifies (page_of [backdrop 5; backdrop 9]) el = true)
    /\ (forall i el, nth_error [backdrop 5; backdrop 9] i = Some el ->
          qualifies (page_of [backdrop 5; backdrop 9]) el = true ->
          exists info, In info overlays /\ locator info = i)
    /\ StronglySorted
         (fun a b => key_gtb b a = false
                     /\ (key_gtb a b = false -> (locator a < locator b)%nat))
         overlays.
Proof.
  apply (@overlay_find_all_sorted (page_of [backdrop 5; backdrop 9])
           [backdrop 5; backdrop 9]).
  reflexivity.
Defined.

(** X15 on a page with two backdrops. *)
Lemma overlay_detect_most_prominent_witness :
  (detect (page_of [backdrop 5; backdrop 9]) = Ok None
   <-> forall el, In el [backdrop 5; backdrop 9] ->
                  qualifies (page_of [backdrop 5; backdrop 9]) el = false)
  /\ forall m, detect (page_of [backdrop 5; backdrop 9]) = Ok (Some m) ->
       (exists el, nth_error [backdrop 5; backdrop 9] (locator m) = Some el
                   /\ qualifies (page_of [backdrop 5; backdrop 9]) el = true)
       /\ forall i el info,
            nth_error [backdrop 5; backdrop 9] i = Some el ->
            inspect (page_of [backdrop 5; backdrop 9]) i el = Some info ->
            key_gtb info m = false
            /\ (key_gtb m info = false -> (locator m <= i)%nat).
Proof.
  apply (@overlay_detect_most_prominent (page_of [backdrop 5; backdrop 9])
           [backdrop 5; backdrop 9]).
  reflexivity.
Defined.

End OverlayFacts.

(* ------------------------------------------------------------------ *)
(** ** When [retry] gives up                                           *)
(* ------------------------------------------------------------------ *)

Module GivingUpFacts.
Import Timing.

Section Loop.
Variable T : Type.
Variable fn : nat -> result T.
Variable exceptions : exn -> bool.
Variable before_retry : bool.

(** Every invocation but the last raised an exception that is caught; and
    a caught exception comes out only when the delays are used up or the
    attempt counter reached [attempts]. *)
Lemma retry_loop_failure attempts delays : forall attempt s r s',
  retry_loop fn exceptions before_retry attempts attempt delays s = (r, s') ->
  (forall k, (calls s <= k < calls s' - 1)%nat ->
             exists e, fn k = Raise e /\ exceptions e = true)
  /\ (forall e, r = Raise e -> exceptions e = true ->
        ((calls s' = calls s + length delays + 1)%nat
         /\ (length (sleeps s') = length (sleeps s) + length delays)%nat
         /\ (length delays = 0%nat
             \/ (attempt + Z.of_nat (length delays) <= attempts)%Z))
        \/ (exists j, (j < length delays)%nat
                      /\ (attempts <= attempt + Z.of_nat j)%Z
                      /\ (calls s' = calls s + j + 2)%nat
                      /\ (length (sleeps s') = length (sleeps s) + j)%nat)).
Proof.
  induction delays as [|d ds IH]; intros attempt s r s' H.
  - cbn [retry_loop] in H. unfold last_attempt, invoke in H.
    inversion H; subst. cbn [did_call calls sleeps length].
    split; [intros k Hk; lia|]. intros e _ _. left.
    split; [lia|]. split; [lia|]. now left.
  - cbn [retry_loop] in H. unfold invoke in H.
    destruct (fn (calls s)) as [v|exc] eqn:Hfn.
    + inversion H; subst. cbn [did_call calls].
      split; [intros k Hk; lia|]. intros e He. discriminate.
    + destruct (exceptions exc) eqn:Hc.
      * destruct (attempts <=? attempt)%Z eqn:Hb.
        -- apply Z.leb_le in Hb. unfold last_attempt, invoke in H.
           inversion H; subst. cbn [did_call calls sleeps length].
           split.
           ++ intros k Hk. assert (k = calls s) by lia. subst k.
              exists exc. auto.
           ++ intros e _ _. right. exists 0%nat.
              split; [lia|]. split; [lia|]. split; lia.
        -- apply Z.leb_gt in Hb. apply IH in H. destruct H as [Hbefore Hfail].
           assert (Hcalls : calls (sleep_ms d (if before_retry
                                               then did_hook attempt exc (did_call s)
                                               else did_call s)) = S (calls s))
             by (destruct before_retry; reflexivity).
           assert (Hsleeps : length (sleeps (sleep_ms d (if before_retry
                                               then did_hook attempt exc (did_call s)
                                               else did_call s)))
                             = S (length (sleeps s))).
           { destruct before_retry; cbn [sleep_ms did_hook did_call sleeps];
               rewrite length_app; cbn [length]; lia. }
           rewrite Hcalls in Hbefore, Hfail. rewrite Hsleeps in Hfail.
           split.
           ++ intros k Hk. destruct (Nat.eq_dec k (calls s)) as [->|Hne].
              ** exists exc. auto.
              ** apply Hbefore. lia.
           ++ intros e He Hce.
              destruct (Hfail e He Hce) as [[H1 [H2 H3]]|[j [Hj [Ha [H1 H2]]]]].
              ** left. cbn [length]. split; [lia|]. split; [lia|]. right. lia.
              ** right. exists (S j). cbn [length].
                 split; [lia|]. split; [lia|]. split; lia.
      * inversion H; subst. cbn [did_call calls].
        split; [intros k Hk; lia|]. intros e He Hce. inversion He; subst.
        congruence.
Qed.

End Loop.

(** What a call of [retry] has done when it returns. *)
Lemma retry_summary (T : Type) (fn : nat -> result T) (exceptions : exn -> bool)
      (before_retry : bool) (tries : Z) (b : Backoff) r s :
  retry fn exceptions before_retry tries b = (r, s) ->
  (1 <= calls s)%nat
  /\ (Z.of_nat (calls s) <= Z.max 2 tries)%Z
  /\ fn (calls s - 1) = r
  /\ (exists rest, exp_backoff_delays_ms (Z.max 1 tries - 1) b = sleeps s ++ rest)
  /\ (forall k, (k < calls s - 1)%nat ->
                exists e, fn k = Raise e /\ exceptions e = true)
  /\ (forall e, r = Raise e -> exceptions e = true ->
                Z.of_nat (calls s) = Z.max 2 tries
                /\ Z.of_nat (length (sleeps s)) = (Z.max 1 tries - 1)%Z).
Proof.
  unfold retry. intros H.
  destruct (@RetryFacts.retry_loop_trace _ _ _ _ _ _ _ _ _ _ H)
    as [used [rest [Hd [Hs [Hlt [Hle [_ Hr]]]]]]].
  destruct (@retry_loop_failure _ _ _ _ _ _ _ _ _ _ H) as [Hbefore Hfail].
  rewrite TimingFacts.exp_backoff_delays_ms_length in Hle, Hfail.
  cbn [no_effects calls sleeps length app Nat.add] in *.
  split; [lia|]. split; [lia|]. split; [exact Hr|]. split.
  { exists rest. now rewrite Hs. }
  split.
  { intros k Hk. apply Hbefore. lia. }
  intros e He Hce.
  destruct (Hfail e He Hce) as [[H1 [H2 H3]]|[j [Hj [Ha [H1 H2]]]]]; lia.
Qed.

(** X5. [retry] lets a caught exception out only after max(2, tries)
    invocations, every one of which raised an exception it catches, and
    after max(1, tries) - 1 sleeps: no attempt is skipped, and with
    tries <= 1 the callable still runs twice, without a sleep between. *)
Theorem retry_gives_up_after_all_attempts
    (T : Type) (fn : nat -> result T) (exceptions : exn -> bool)
    (before_retry : bool) (tries : Z) (b : Backoff) (e : exn)
    (raised : fst (retry fn exceptions before_retry tries b) = Raise e)
    (caught : exceptions e = true) :
  let s := snd (retry fn exceptions before_retry tries b) in
  Z.of_nat (calls s) = Z.max 2 tries
  /\ Z.of_nat (length (sleeps s)) = (Z.max 1 tries - 1)%Z
  /\ forall k, (k < calls s)%nat ->
               exists e', fn k = Raise e' /\ exceptions e' = true.
Proof.
  cbv zeta.
  destruct (retry fn exceptions before_retry tries b) as [r s] eqn:H.
  cbn [fst snd] in *. subst r.
  destruct (retry_summary _ _ _ _ _ H) as [H1 [_ [Hlast [_ [Hbefore Hfail]]]]].
  destruct (Hfail e eq_refl caught) as [Hc Hs].
  split; [exact Hc|]. split; [exact Hs|].
  intros k Hk. destruct (Nat.eq_dec k (calls s - 1)) as [->|Hne].
  - exists e. auto.
  - apply Hbefore. lia.
Qed.

(** X5 at a callable that always times out, with one try. *)
Lemma retry_gives_up_after_all_attempts_witness :
  let fn := always_raising (mkExn "TimeoutError" "t" "TimeoutError('t')") in
  let s := snd (retry fn (fun _ => true) false 1 (default_backoff (fun _ lo _ => lo))) in
  Z.of_nat (calls s) = Z.max 2 1
  /\ Z.of_nat (length (sleeps s)) = (Z.max 1 1 - 1)%Z
  /\ forall k, (k < calls s)%nat -> exists e', fn k = Raise e' /\ true = true.
Proof.
  apply (@retry_gives_up_after_all_attempts unit
           (always_raising (mkExn "TimeoutError" "t" "TimeoutError('t')"))
           (fun _ => true) false 1 (default_backoff (fun _ lo _ => lo))
           (mkExn "TimeoutError" "t" "TimeoutError('t')")).
  - reflexivity.
  - reflexivity.
Defined.

End GivingUpFacts.

(* ------------------------------------------------------------------ *)
(** ** The actions with fallback                                       *)
(* ------------------------------------------------------------------ *)

Module StrategyActionsFacts.
Import Schema Locator Strategy Timing StrategyActions.
Local Open Scope string_scope.

(** X17. [click] invokes its attempt (choose a locator, click it) at
    least once and at most max(2, retries + 1) times. When it returns a
    locator, that locator is the one [choose] picked at the last attempt
    and the click on it went through, every earlier attempt having failed.
    It raises nothing but [ActionRetryError], and only after
    max(2, retries + 1) failed attempts. *)
Theorem click_outcome
    (page_at : nat -> Page) (wait_ms : Z) (selectors : list Selector)
    (click_at : nat -> Query -> option exn) (u : nat -> Q -> Q -> Q) (retries : Z) :
  let attempt_no := _do page_at wait_ms selectors click_at in
  let r := fst (click page_at wait_ms selectors click_at u retries) in
  let s := snd (click page_at wait_ms selectors click_at u retries) in
  (1 <= calls s)%nat
  /\ (Z.of_nat (calls s) <= Z.max 2 (retries + 1))%Z
  /\ (forall k, (k < calls s - 1)%nat -> is_ok (attempt_no k) = false)
  /\ match r with
     | Ok chosen =>
         choose (new_strategy (page_at (calls s - 1)) wait_ms) selectors true
         = Ok chosen
         /\ click_at (calls s - 1) (locator chosen) = None
     | Raise e =>
         exc_type e = "ActionRetryError"
         /\ Z.of_nat (calls s) = Z.max 2 (retries + 1)
         /\ is_ok (attempt_no (calls s - 1)) = false
     end.
Proof.
  cbv zeta. unfold click, retried.
  destruct (retry (_do page_at wait_ms selectors click_at) (fun _ => true) false
                  (Z.max 1 (retries + 1)) (default_backoff u)) as [r s] eqn:H.
  destruct (GivingUpFacts.retry_summary _ _ _ _ _ H)
    as [H1 [H2 [Hlast [_ [Hbefore Hfail]]]]].
  assert (Hbound : (Z.of_nat (calls s) <= Z.max 2 (retries + 1))%Z) by lia.
  assert (Hearlier : forall k, (k < calls s - 1)%nat ->
                               is_ok (_do page_at wait_ms selectors click_at k) = false).
  { intros k Hk. destruct (Hbefore k Hk) as [e [He _]]. now rewrite He. }
  destruct r as [chosen|e]; cbn [fst snd].
  - split; [exact H1|]. split; [exact Hbound|]. split; [exact Hearlier|].
    unfold _do in Hlast.
    destruct (choose _ selectors true) as [c|e1]; [|discriminate].
    destruct (click_at (calls s - 1) (locator c)) as [e2|] eqn:Hact; [discriminate|].
    inversion Hlast; subst. auto.
  - split; [exact H1|]. split; [exact Hbound|]. split; [exact Hearlier|].
    split; [reflexivity|].
    destruct (Hfail e eq_refl eq_refl) as [Hc _].
    split; [lia|]. now rewrite Hlast.
Qed.

End StrategyActionsFacts.

(* ------------------------------------------------------------------ *)
(** ** The dispatcher and the screenshot paths                         *)
(* ------------------------------------------------------------------ *)

Module DispatchFacts.
Import Schema PyStr Config Timing Actions.
Local Open Scope string_scope.

(** X18. The retry policy of [execute_step], for any settings: the result
    is that of the last invocation of the step's operation, all earlier
    ones having raised; the operation is invoked at most
    max(2, MAX_RETRIES) times; every sleep between attempts lies between 0
    and max(2000, RETRY_DELAY) ms; and a [wait] step is invoked exactly
    once, with no sleep. *)
Theorem execute_step_policy
    (T : Type) (settings : Settings) (u : nat -> Q -> Q -> Q)
    (action : ActionName) (op : nat -> result T) :
  let r := fst (execute_step settings u action op) in
  let s := snd (execute_step settings u action op) in
  r = op (calls s - 1)
  /\ (forall k, (k < calls s - 1)%nat -> is_ok (op k) = false)
  /\ (1 <= calls s)%nat
  /\ (Z.of_nat (calls s) <= Z.max 2 (MAX_RETRIES settings))%Z
  /\ Forall (fun d => (0 <= d <= Z.max 2000 (RETRY_DELAY settings))%Z) (sleeps s)
  /\ (action = wait -> calls s = 1%nat /\ sleeps s = []).
Proof.
  cbv zeta.
  assert (Hwait : let r := fst (invoke op no_effects) in
                  let s := snd (invoke op no_effects) in
                  r = op (calls s - 1)
                  /\ (forall k, (k < calls s - 1)%nat -> is_ok (op k) = false)
                  /\ (1 <= calls s)%nat
                  /\ (Z.of_nat (calls s) <= Z.max 2 (MAX_RETRIES settings))%Z
                  /\ Forall (fun d => (0 <= d <= Z.max 2000 (RETRY_DELAY settings))%Z)
                            (sleeps s)
                  /\ calls s = 1%nat /\ sleeps s = []).
  { cbv zeta. unfold invoke. cbn [fst snd did_call no_effects calls sleeps].
    split; [reflexivity|]. split; [intros k Hk; lia|]. split; [lia|].
    split; [lia|]. split; [constructor|]. split; reflexivity. }
  assert (Hretry :
            let x := _with_retry op (Z.max 1 (MAX_RETRIES settings))
                                 (Z.max 0 (RETRY_DELAY settings))
                                 (Z.max (Z.max 0 (RETRY_DELAY settings)) 2000) u in
            fst x = op (calls (snd x) - 1)
            /\ (forall k, (k < calls (snd x) - 1)%nat -> is_ok (op k) = false)
            /\ (1 <= calls (snd x))%nat
            /\ (Z.of_nat (calls (snd x)) <= Z.max 2 (MAX_RETRIES settings))%Z
            /\ Forall (fun d => (0 <= d <= Z.max 2000 (RETRY_DELAY settings))%Z)
                      (sleeps (snd x))).
  { cbv zeta. unfold _with_retry.
    destruct (retry op (fun _ => true) false
                    (Z.max 1 (Z.max 1 (MAX_RETRIES settings)))
                    (mkBackoff (Z.max 0 (RETRY_DELAY settings)) 2
                               (Z.max (Z.max 0 (RETRY_DELAY settings)) 2000)
                               (1 # 10) u)) as [r s] eqn:H.
    destruct (GivingUpFacts.retry_summary _ _ _ _ _ H)
      as [H1 [H2 [Hlast [[rest Hd] [Hbefore _]]]]].
    cbn [fst snd].
    split; [now rewrite Hlast|]. split.
    { intros k Hk. destruct (Hbefore k Hk) as [e [He _]]. now rewrite He. }
    split; [exact H1|]. split; [lia|].
    rewrite Forall_forall. intros d Hin.
    assert (Hin' : In d (sleeps s ++ rest)) by (apply in_or_app; now left).
    rewrite <- Hd in Hin'.
    apply RetryFacts.backoff_from_bounded in Hin'; cbn [max_ms] in *; lia. }
  cbv zeta in Hwait, Hretry.
  destruct Hwait as [W1 [W2 [W3 [W4 [W5 [W6 W7]]]]]].
  destruct Hretry as [R1 [R2 [R3 [R4 R5]]]].
  unfold execute_step.
  destruct action;
    try (split; [exact R1|]; split; [exact R2|]; split; [exact R3|];
         split; [exact R4|]; split; [exact R5|]; intros; discriminate).
  split; [exact W1|]. split; [exact W2|]. split; [exact W3|].
  split; [exact W4|]. split; [exact W5|]. intros _. split; assumption.
Qed.

Lemma safe_char_stays (c c' : ascii) :
  (if isalnum c || Ascii.eqb c "-" || Ascii.eqb c "_" then c else "_"%char) = c' ->
  isalnum c' || Ascii.eqb c' "-" || Ascii.eqb c' "_" = true.
Proof.
  destruct (isalnum c || Ascii.eqb c "-" || Ascii.eqb c "_") eqn:E; intros <-.
  - exact E.
  - reflexivity.
Qed.

(** The file name both screenshot paths build: [safe_name] keeps the
    length, changes nothing when applied again, and leaves only
    alphanumeric characters, hyphens and underscores, so that the name
    never contains a path separator or a dot. *)
Theorem safe_name_is_safe (base : string) :
  String.length (safe_name base) = String.length base
  /\ safe_name (safe_name base) = safe_name base
  /\ forall i c, String.get i (safe_name base) = Some c ->
       (isalnum c = true \/ c = "-"%char \/ c = "_"%char)
       /\ c <> "/"%char /\ c <> "."%char.
Proof.
  unfold safe_name. split; [|split].
  - induction base as [|c rest IH]; cbn [map_chars String.length]; congruence.
  - induction base as [|c rest IH]; cbn [map_chars]; [reflexivity|].
    rewrite IH. f_equal.
    now rewrite (safe_char_stays c eq_refl).
  - induction base as [|c0 rest IH]; intros i c Hget; cbn [map_chars] in Hget;
      [destruct i; discriminate|].
    destruct i as [|i]; cbn [String.get] in Hget; [|exact (IH i c Hget)].
    injection Hget as Hc.
    pose proof (safe_char_stays c0 Hc) as H.
    assert (Hsafe : isalnum c = true \/ c = "-"%char \/ c = "_"%char).
    { apply orb_true_iff in H. destruct H as [H|H].
      - apply orb_true_iff in H. destruct H as [H|H]; [now left|].
        right. left. now apply Ascii.eqb_eq in H.
      - right. right. now apply Ascii.eqb_eq in H. }
    split; [exact Hsafe|].
    split; intros ->; destruct Hsafe as [Hs|[Hs|Hs]]; discriminate.
Qed.



End DispatchFacts.

(* ------------------------------------------------------------------ *)
(** ** Strings                                                         *)
(* ------------------------------------------------------------------ *)

Module PyStrFacts.
Import PyStr.
Local Open Scope string_scope.

(** The string is empty or starts with a character that is not white
    space. *)
Lemma lstrip_fixed (s : string) :
  match s with
  | EmptyString => True
  | String c _ => isspace c = false
  end -> lstrip s = s.
Proof. destruct s as [|c rest]; cbn [lstrip]; [reflexivity|]. now intros ->. Qed.

Lemma lstrip_head (s : string) :
  match lstrip s with
  | EmptyString => True
  | String c _ => isspace c = false
  end.
Proof.
  induction s as [|c rest IH]; cbn [lstrip]; [exact I|].
  destruct (isspace c) eqn:E; [exact IH | exact E].
Qed.

Lemma rstrip_head (s : string) :
  match s with
  | EmptyString => True
  | String c _ => isspace c = false
  end ->
  match rstrip s with
  | EmptyString => True
  | String c _ => isspace c = false
  end.
Proof.
  destruct s as [|c rest]; cbn [rstrip]; [trivial|]. intros Hc.
  destruct (rstrip rest); [now rewrite Hc | exact Hc].
Qed.

Lemma rstrip_idempotent (s : string) : rstrip (rstrip s) = rstrip s.
Proof.
  induction s as [|c rest IH]; [reflexivity|]. cbn [rstrip].
  destruct (rstrip rest) as [|c' r] eqn:E.
  - destruct (isspace c) eqn:Hc; [reflexivity|]. cbn [rstrip]. now rewrite Hc.
  - change (rstrip (String c (String c' r)))
      with (match rstrip (String c' r) with
            | EmptyString => if isspace c then EmptyString else String c EmptyString
            | r0 => String c r0
            end).
    now rewrite IH.
Qed.

Lemma strip_idempotent (s : string) : strip (strip s) = strip s.
Proof.
  unfold strip.
  rewrite (lstrip_fixed (rstrip (lstrip s))).
  - apply rstrip_idempotent.
  - apply rstrip_head. apply lstrip_head.
Qed.

Lemma prefix_refl_app (s b : string) : String.prefix s (s ++ b) = true.
Proof.
  induction s as [|c rest IH]; cbn [String.prefix append].
  - now destruct b.
  - destruct (ascii_dec c c) as [_|Hne]; [exact IH | now elim Hne].
Qed.

Lemma split_once_finds (sub a b : string) : split_once sub (a ++ sub ++ b) <> None.
Proof.
  induction a as [|c rest IH].
  - cbn [append]. destruct (sub ++ b) as [|c0 r0] eqn:E.
    + cbn [split_once]. destruct sub; [discriminate | discriminate].
    + rewrite <- E.
      assert (Hp : String.prefix sub (sub ++ b) = true) by apply prefix_refl_app.
      rewrite E in *. cbn [split_once]. rewrite Hp. discriminate.
  - cbn [append split_once].
    destruct (String.prefix sub (String c (rest ++ sub ++ b))); [discriminate|].
    destruct (split_once sub (rest ++ sub ++ b)) as [[x y]|]; [discriminate|].
    now elim IH.
Qed.

(** A string contains each of its substrings. *)
Lemma contains_app (sub a b : string) : contains sub (a ++ sub ++ b) = true.
Proof.
  unfold contains. pose proof (split_once_finds sub a b) as H.
  destruct (split_once sub (a ++ sub ++ b)); [reflexivity | now elim H].
Qed.

Lemma lower_app (a b : string) : lower (a ++ b) = lower a ++ lower b.
Proof. induction a as [|c rest IH]; cbn [lower append]; congruence. Qed.

End PyStrFacts.

(* ------------------------------------------------------------------ *)
(** ** Validators, documents, URL assertion                            *)
(* ------------------------------------------------------------------ *)

Module LoaderMoreFacts.
Import PyStr Loader Validators Documents.
Local Open Scope string_scope.

Lemma non_empty_stored what v0 v :
  non_empty what v0 = Ok v ->
  v = strip v0 /\ v <> "" /\ non_empty what v = Ok v.
Proof.
  unfold non_empty. cbv zeta. intros H.
  assert (Hv : v = strip v0 /\ v <> "").
  { destruct (strip v0) as [|c r]; [discriminate|]. inversion H. split; [reflexivity | discriminate]. }
  destruct Hv as [Hv Hne]. split; [exact Hv|]. split; [exact Hne|].
  rewrite Hv, PyStrFacts.strip_idempotent. rewrite <- Hv.
  destruct v; [now elim Hne | reflexivity].
Qed.

(** X26. What the field validators store: the value accepted for a
    selector, a site or a task is the input stripped of surrounding white
    space, it is not empty, and validating it again changes nothing; the
    URL accepted for a goto step is the stripped input and is accepted
    again unchanged. *)
Theorem validators_store_stripped_values (v0 v : string) :
  (_non_empty v0 = Ok v -> v = strip v0 /\ v <> "" /\ _non_empty v = Ok v)
  /\ (_site_non_empty v0 = Ok v -> v = strip v0 /\ v <> "" /\ _site_non_empty v = Ok v)
  /\ (_task_non_empty v0 = Ok v -> v = strip v0 /\ v <> "" /\ _task_non_empty v = Ok v)
  /\ (_url_non_empty v0 = Ok v -> v = strip v0 /\ _url_non_empty v = Ok v).
Proof.
  split; [apply non_empty_stored|]. split; [apply non_empty_stored|].
  split; [apply non_empty_stored|].
  unfold _url_non_empty. cbv zeta.
  destruct (negb (startswith "http" (strip v0))) eqn:E; [discriminate|].
  intros H; inversion H; subst. split; [reflexivity|].
  now rewrite PyStrFacts.strip_idempotent, E.
Qed.

Section Docs.
Variable Y : Type.
Variable model_validate : Y -> Engine.Workflow + list string.
Variable wf_path : string.

Lemma load_documents_passes : forall docs idx out,
  forallb (passes model_validate) docs = true ->
  exists added,
    load_documents model_validate wf_path idx docs out = Ok (out ++ added)%list
    /\ length added = length (filter (@is_mapping Y) docs)
    /\ forall wf, In wf added ->
         exists y, In (Mapping y) docs /\ model_validate y = inl wf.
Proof.
  induction docs as [|d rest IH]; intros idx out H.
  - exists []. cbn. rewrite app_nil_r. split; [reflexivity|]. split; [reflexivity|].
    intros wf [].
  - cbn [forallb] in H. apply andb_true_iff in H. destruct H as [Hd Hrest].
    destruct d as [| |y]; cbn [passes] in Hd; [|discriminate|].
    + destruct (IH (S idx) out Hrest) as [added [Hl [Hn Hin]]].
      exists added. cbn [load_documents filter is_mapping].
      split; [exact Hl|]. split; [exact Hn|].
      intros wf Hwf. destruct (Hin wf Hwf) as [y [Hy Hv]]. exists y.
      split; [now right | exact Hv].
    + destruct (model_validate y) as [wf0|lines] eqn:Hv; [|discriminate].
      destruct (IH (S idx) (out ++ [wf0])%list Hrest) as [added [Hl [Hn Hin]]].
      exists (wf0 :: added). cbn [load_documents filter is_mapping length].
      rewrite Hv, Hl, <- app_assoc. split; [reflexivity|]. split; [now rewrite Hn|].
      intros wf [<-|Hwf].
      * exists y. split; [now left | exact Hv].
      * destruct (Hin wf Hwf) as [y' [Hy Hv']]. exists y'.
        split; [now right | exact Hv'].
Qed.

Lemma load_documents_stops : forall pre idx out bad post,
  forallb (passes model_validate) pre = true ->
  passes model_validate bad = false ->
  load_documents model_validate wf_path idx (pre ++ bad :: post) out
  = Raise (match bad with
           | Mapping y =>
               match model_validate y with
               | inr lines => invalid_document wf_path (idx + length pre) lines
               | inl _ => not_a_mapping wf_path (idx + length pre)
               end
           | _ => not_a_mapping wf_path (idx + length pre)
           end).
Proof.
  induction pre as [|d rest IH]; intros idx out bad post Hpre Hbad.
  - cbn [app length]. rewrite Nat.add_0_r.
    destruct bad as [| |y]; cbn [passes] in Hbad; [discriminate|reflexivity|].
    cbn [load_documents]. destruct (model_validate y); [discriminate | reflexivity].
  - cbn [forallb] in Hpre. apply andb_true_iff in Hpre. destruct Hpre as [Hd Hrest].
    cbn [app length].
    replace (idx + S (length rest))%nat with (S idx + length rest)%nat by lia.
    destruct d as [| |y]; cbn [passes] in Hd; [|discriminate|].
    + cbn [load_documents]. now apply IH.
    + cbn [load_documents]. destruct (model_validate y); [|discriminate].
      now apply IH.
Qed.

Lemma first_failing (docs : list (Doc Y)) :
  forallb (passes model_validate) docs = false ->
  exists pre bad post,
    docs = (pre ++ bad :: post)%list
    /\ forallb (passes model_validate) pre = true
    /\ passes model_validate bad = false.
Proof.
  induction docs as [|d rest IH]; [discriminate|]. cbn [forallb]. intros H.
  destruct (passes model_validate d) eqn:Hd.
  - destruct (IH H) as [pre [bad [post [-> [Hpre Hbad]]]]].
    exists (d :: pre), bad, post. cbn [forallb app]. now rewrite Hd.
  - exists [], d, rest. auto.
Qed.

End Docs.

(** X27. [load_workflows_file] on a file that parses: it returns a list
    exactly when every document is empty or a mapping that validates and
    at least one document is a mapping; the list then holds one workflow
    per mapping, so it is never empty and empty documents are skipped. *)
Theorem load_workflows_file_loads_iff
    (Y : Type) (model_validate : Y -> Engine.Workflow + list string)
    (wf_path : string) (docs : list (Doc Y)) :
  (is_ok (load_workflows_file model_validate wf_path (Parsed docs)) = true
   <-> forallb (passes model_validate) docs = true
       /\ existsb (@is_mapping Y) docs = true)
  /\ forall wfs, load_workflows_file model_validate wf_path (Parsed docs) = Ok wfs ->
       wfs <> []
       /\ length wfs = length (filter (@is_mapping Y) docs)
       /\ forall wf, In wf wfs ->
            exists y, In (Mapping y) docs /\ model_validate y = inl wf.
Proof.
  assert (Hcount : existsb (@is_mapping Y) docs = true
                   <-> length (filter (@is_mapping Y) docs) <> 0%nat).
  { induction docs as [|d rest IH]; cbn [existsb filter]; [split; [discriminate|now intros []]|].
    destruct (is_mapping d); cbn [orb length]; [split; [discriminate|reflexivity]|exact IH]. }
  cbn [load_workflows_file].
  destruct (forallb (passes model_validate) docs) eqn:Hall.
  - destruct (@load_documents_passes Y model_validate wf_path docs 1%nat [] Hall)
      as [added [Hl [Hn Hin]]].
    cbn [app] in Hl. rewrite Hl. split.
    + rewrite Hcount, <- Hn. destruct added; cbn [is_ok length]; split.
      * discriminate.
      * intros [_ H]. now elim H.
      * intros _. split; [reflexivity | discriminate].
      * reflexivity.
    + intros wfs H. destruct added as [|wf0 rest]; [discriminate|].
      inversion H; subst. split; [discriminate|]. split; [exact Hn | exact Hin].
  - destruct (first_failing model_validate docs Hall)
      as [pre [bad [post [-> [Hpre Hbad]]]]].
    rewrite (load_documents_stops model_validate wf_path pre 1 [] bad post Hpre Hbad).
    split; [|intros; discriminate].
    cbn [is_ok]. split; [discriminate|]. intros [H _]. discriminate.
Qed.

(** X28. The error of [load_workflows_file] names the first document the
    loop cannot get past by its position in the stream, counted from 1
    and counting the empty documents before it. *)
Theorem load_workflows_file_names_first_bad_document
    (Y : Type) (model_validate : Y -> Engine.Workflow + list string)
    (wf_path : string) (pre post : list (Doc Y)) (bad : Doc Y)
    (before_pass : forallb (passes model_validate) pre = true)
    (bad_fails : passes model_validate bad = false) :
  load_workflows_file model_validate wf_path (Parsed (pre ++ bad :: post))
  = Raise (match bad with
           | Mapping y =>
               match model_validate y with
               | inr lines => invalid_document wf_path (S (length pre)) lines
               | inl _ => not_a_mapping wf_path (S (length pre))
               end
           | _ => not_a_mapping wf_path (S (length pre))
           end).
Proof.
  cbn [load_workflows_file].
  now rewrite (load_documents_stops model_validate wf_path pre 1 [] bad post
                 before_pass bad_fails).
Qed.

(** X28 on a stream of an empty document followed by a list. *)
Lemma load_workflows_file_names_first_bad_document_witness :
  load_workflows_file (fun _ : unit => inr []) "w.yaml"
                      (Parsed ([Null] ++ NotMapping :: []))
  = Raise (not_a_mapping "w.yaml" 2).
Proof.
  apply (@load_workflows_file_names_first_bad_document unit (fun _ => inr [])
           "w.yaml" [Null] [] NotMapping); reflexivity.
Defined.

End LoaderMoreFacts.

Module AssertionsFacts.
Import PyStr Assertions.
Local Open Scope string_scope.

(** [assert_url_contains] ignores case: it passes whenever the page
    URL contains a piece equal to the expected text up to the case of its
    ASCII letters; in particular an empty expected text always passes. *)
Theorem assert_url_contains_ignores_case (before piece after text : string)
    (same_letters : lower piece = lower text) :
  _do_assert_url_contains (before ++ piece ++ after) text = None.
Proof.
  unfold _do_assert_url_contains.
  rewrite !PyStrFacts.lower_app, same_letters, PyStrFacts.contains_app.
  reflexivity.
Qed.

(** The assertion at an upper-case path segment. *)
Lemma assert_url_contains_ignores_case_witness :
  _do_assert_url_contains ("https://example.test/" ++ "Projects" ++ "/7") "projects"
  = None.
Proof.
  apply (@assert_url_contains_ignores_case "https://example.test/" "Projects" "/7"
           "projects").
  reflexivity.
Defined.

End AssertionsFacts.

(* ------------------------------------------------------------------ *)
(** ** Running one file from the command line                          *)
(* ------------------------------------------------------------------ *)

Module CliFacts.
Import Engine Cli.
Local Open Scope string_scope.

(** The runs made for the documents of one file, and what comes of
    them. *)
Lemma run_documents_spec eng worlds wfs : forall k x runs,
  run_documents eng worlds k wfs = (x, runs) ->
  match x with
  | Ok results =>
      length runs = length wfs
      /\ Forall2 (fun run res => outcome run = Ok res) runs results
      /\ forall i wf, nth_error wfs i = Some wf ->
           nth_error runs i = Some (run_workflow eng (worlds (k + i)%nat) wf)
  | Raise e =>
      exists i wf,
        nth_error wfs i = Some wf
        /\ outcome (run_workflow eng (worlds (k + i)%nat) wf) = Raise e
        /\ length runs = S i
        /\ forall j wf', (j < i)%nat -> nth_error wfs j = Some wf' ->
             is_ok (outcome (run_workflow eng (worlds (k + j)%nat) wf')) = true
  end.
Proof.
  induction wfs as [|wf rest IH]; intros k x runs H; cbn [run_documents] in H.
  - inversion H; subst. split; [reflexivity|]. split; [constructor|].
    intros i wf Hn. destruct i; discriminate.
  - cbv zeta in H.
    destruct (outcome (run_workflow eng (worlds k) wf)) as [res|e] eqn:Ho.
    + destruct (run_documents eng worlds (S k) rest) as [x1 runs1] eqn:Hr.
      specialize (IH _ _ _ Hr). inversion H; subst; clear H.
      destruct x1 as [results|e].
      * destruct IH as [Hlen [Hall Hnth]]. cbn [length].
        split; [now rewrite Hlen|]. split; [constructor; assumption|].
        intros i wf0 Hn. destruct i as [|i]; cbn [nth_error] in *.
        -- inversion Hn; subst. now rewrite Nat.add_0_r.
        -- rewrite (Hnth i wf0 Hn). now replace (k + S i)%nat with (S k + i)%nat by lia.
      * destruct IH as [i [wf0 [Hn [Hout [Hlen Hbefore]]]]].
        exists (S i), wf0. cbn [nth_error length].
        split; [exact Hn|]. split.
        { now replace (k + S i)%nat with (S k + i)%nat by lia. }
        split; [now rewrite Hlen|].
        intros j wf' Hj Hnj. destruct j as [|j]; cbn [nth_error] in Hnj.
        -- inversion Hnj; subst. now rewrite Nat.add_0_r, Ho.
        -- replace (k + S j)%nat with (S k + j)%nat by lia.
           apply (Hbefore j wf'); [lia | exact Hnj].
    + inversion H; subst; clear H. exists 0%nat, wf. cbn [nth_error length].
      rewrite Nat.add_0_r. split; [reflexivity|]. split; [exact Ho|].
      split; [reflexivity|]. intros j wf' Hj. lia.
Qed.

Lemma forallb_ok_of_runs runs results :
  Forall2 (fun run res => outcome run = Ok res) runs results ->
  (forallb ok results = true
   <-> forall run, In run runs -> exists res, outcome run = Ok res /\ ok res = true).
Proof.
  induction 1 as [|run res runs results Hr Hall IH]; cbn [forallb].
  - split; [intros _ run [] | reflexivity].
  - rewrite andb_true_iff, IH. split.
    + intros [Hok Hrest] run' [<-|Hin]; [now exists res | now apply Hrest].
    + intros H. split.
      * destruct (H run (or_introl eq_refl)) as [res' [Hres Hok]]. congruence.
      * intros run' Hin. apply H. now right.
Qed.

(** X29. [_run_one] on a YAML file reports [ok] exactly when the file
    loaded and every one of its workflows ran to a result with [ok: true]:
    a load error, an exception out of a run (as when the browser cannot be
    launched) or one failed run makes the whole file a failure. *)
Theorem run_one_ok_iff_every_run_ok
    (eng : Engine) (worlds : nat -> World) (path : string)
    (loaded_all : result (list Workflow)) (loaded : result Workflow) :
  summary_ok (fst (_run_one eng worlds path true loaded_all loaded)) = true
  <-> exists wfs,
        loaded_all = Ok wfs
        /\ forall i wf, nth_error wfs i = Some wf ->
             exists res, outcome (run_workflow eng (worlds i) wf) = Ok res
                         /\ ok res = true.
Proof.
  unfold _run_one. destruct loaded_all as [wfs|e0]; cbn [fst summary_ok].
  2:{ split; [discriminate|]. intros [wfs [H _]]. discriminate. }
  destruct (run_documents eng worlds 0 wfs) as [x runs] eqn:Hr.
  pose proof (run_documents_spec _ _ _ _ Hr) as Hspec.
  destruct x as [results|e].
  - destruct Hspec as [Hlen [Hall Hnth]].
    pose proof (forallb_ok_of_runs Hall) as Hiff.
    assert (Hsum : summary_ok (fst (match results with
                                    | [r] => (Single r, runs)
                                    | _ => (Merged (forallb ok results) results path, runs)
                                    end)) = forallb ok results).
    { destruct results as [|r [|r' rest]]; cbn; try reflexivity.
      now rewrite andb_true_r. }
    rewrite Hsum, Hiff. split.
    + intros H. exists wfs. split; [reflexivity|]. intros i wf Hn.
      apply H. apply (nth_error_In _ i). exact (Hnth i wf Hn).
    + intros [wfs' [Heq H]] run Hin. inversion Heq; subst wfs'.
      destruct (In_nth_error _ _ Hin) as [i Hi].
      assert (Hlt : (i < length wfs)%nat).
      { rewrite <- Hlen. apply nth_error_Some. congruence. }
      destruct (nth_error wfs i) as [wf|] eqn:Hwf;
        [|apply nth_error_None in Hwf; lia].
      rewrite (Hnth i wf Hwf) in Hi. inversion Hi; subst. now apply H.
  - destruct Hspec as [i [wf [Hn [Hout _]]]]. cbn [fst summary_ok].
    split; [discriminate|]. intros [wfs' [Heq H]]. inversion Heq; subst wfs'.
    destruct (H i wf Hn) as [res [Hres _]]. cbn [Nat.add] in Hout. congruence.
Qed.

(** X30. When a run raises, [_run_one] stops there: the workflows after
    it are not run, and the summary holds only the error message and the
    path, the results of the runs made before being dropped. *)
Theorem run_one_stops_at_first_exception
    (eng : Engine) (worlds : nat -> World) (path : string)
    (wfs : list Workflow) (loaded : result Workflow)
    (i : nat) (wf : Workflow) (e : exn)
    (ith : nth_error wfs i = Some wf)
    (raises : outcome (run_workflow eng (worlds i) wf) = Raise e)
    (earlier_return : forall j wf', (j < i)%nat -> nth_error wfs j = Some wf' ->
        is_ok (outcome (run_workflow eng (worlds j) wf')) = true) :
  fst (_run_one eng worlds path true (Ok wfs) loaded) = Caught (exc_str e) path
  /\ length (snd (_run_one eng worlds path true (Ok wfs) loaded)) = S i.
Proof.
  unfold _run_one.
  destruct (run_documents eng worlds 0 wfs) as [x runs] eqn:Hr.
  pose proof (run_documents_spec _ _ _ _ Hr) as Hspec.
  destruct x as [results|e'].
  - destruct Hspec as [Hlen [Hall Hnth]].
    pose proof (Hnth i wf ith) as Hrun. cbn [Nat.add] in Hrun.
    assert (Hin : forall n run, nth_error runs n = Some run ->
                                exists res, outcome run = Ok res).
    { clear - Hall.
      induction Hall as [|run0 res runs results Hr Hall IH]; intros n run Hn.
      - destruct n; discriminate.
      - destruct n as [|n]; cbn [nth_error] in Hn.
        + inversion Hn; subst. now exists res.
        + exact (IH n run Hn). }
    destruct (Hin i _ Hrun) as [res Hres]. congruence.
  - destruct Hspec as [i' [wf' [Hn [Hout [Hlen Hbefore]]]]]. cbn [Nat.add] in *.
    assert (i' = i).
    { destruct (Nat.lt_trichotomy i' i) as [Hlt|[Heq|Hgt]]; [|exact Heq|].
      - pose proof (earlier_return i' wf' Hlt Hn) as Hx. rewrite Hout in Hx.
        discriminate.
      - pose proof (Hbefore i wf Hgt ith) as Hx. rewrite raises in Hx.
        discriminate. }
    subst i'. rewrite ith in Hn. inversion Hn; subst wf'.
    rewrite raises in Hout. inversion Hout; subst e'.
    cbn [fst snd]. split; [reflexivity | exact Hlen].
Qed.

(** X30 when the browser cannot be launched. *)
Lemma run_one_stops_at_first_exception_witness :
  fst (_run_one engine0 (fun _ => world_no_browser) "demo.yaml" true
                (Ok [wf_optional_first; wf_required_first]) (Ok wf_optional_first))
  = Caught (exc_str (mkExn "Error" "Executable doesn't exist"
                           "Error('Executable doesn't exist')")) "demo.yaml"
  /\ length (snd (_run_one engine0 (fun _ => world_no_browser) "demo.yaml" true
                           (Ok [wf_optional_first; wf_required_first])
                           (Ok wf_optional_first))) = 1%nat.
Proof.
  apply (@run_one_stops_at_first_exception engine0 (fun _ => world_no_browser)
           "demo.yaml" [wf_optional_first; wf_required_first] (Ok wf_optional_first)
           0%nat wf_optional_first
           (mkExn "Error" "Executable doesn't exist"
                  "Error('Executable doesn't exist')")).
  - reflexivity.
  - reflexivity.
  - intros j wf' Hj. lia.
Defined.

End CliFacts.

(* ------------------------------------------------------------------ *)
(** ** Every run of the engine                                         *)
(* ------------------------------------------------------------------ *)

Module RunFacts.
Import Schema Config Engine Trace.
Local Open Scope string_scope.

Lemma within_weaken lo hi lo' hi' b ev :
  (lo' <= lo)%nat -> (hi <= hi')%nat -> within lo hi b ev -> within lo' hi' b ev.
Proof. intros H1 H2. destruct ev; cbn [within]; intuition lia. Qed.

Lemma record_step_fields w idx step prev m :
  record_step w idx step prev = Ok m ->
  step_number m = idx
  /\ action_type m = action_value (action step)
  /\ meta_description m = describe step
  /\ changed_from_previous m = negb (String.eqb prev (url_current m))
  /\ capture_reason m
     = capture_reason_of (step_number m) (has_modal m) (changed_from_previous m).
Proof.
  unfold record_step.
  destruct (Modal.detect_active _); [|discriminate].
  destruct (obs_overlay _); [|discriminate].
  destruct (obs_title _); [|discriminate].
  intros H; inversion H; subst. cbn. repeat split.
Qed.

Ltac shape_events :=
  repeat constructor; cbn [within]; try lia; auto.

Ltac shape_skipped :=
  split; intros Hx;
  [ try reflexivity; cbn [In] in Hx;
    repeat (destruct Hx as [Hx|Hx]; try discriminate); contradiction
  | try discriminate; cbn [In]; auto ].

(** What one round of the loop leaves behind. *)
Lemma run_step_shape eng w wf idx step prev res evs :
  run_step eng w wf idx step prev = (res, evs) ->
  In (StepExecuted idx) evs
  /\ Forall (within idx (S idx) (interactive_auth eng)) evs
  /\ (In (StepSkipped idx) evs <-> res = Skipped)
  /\ (forall m, res = Recorded m -> record_step w idx step prev = Ok m)
  /\ (forall e fs, res = StepFailed e fs ->
        CONTINUE_ON_ERROR (settings eng) = false).
Proof.
  unfold run_step.
  destruct (execute eng w idx 0 step) as [v|e0].
  - destruct (relogin_needed eng w idx step) eqn:Hre; cbv zeta.
    + assert (Hi : interactive_auth eng = true).
      { unfold relogin_needed in Hre. apply andb_true_iff in Hre.
        destruct Hre as [Hre _]. apply andb_true_iff in Hre. tauto. }
      destruct (w_relogin w idx) as [e|]; cbn [fst snd].
      * intros H; inversion H; subst; clear H.
        split; [now left|]. split; [shape_events|]. split; [shape_skipped|].
        split; intros; discriminate.
      * destruct (execute eng w idx 1 step) as [v'|e]; cbn [fst snd].
        -- destruct (match after_wait wf step with Some a => _ | None => _ end).
           ++ intros H; inversion H; subst; clear H.
              split; [now left|]. split; [shape_events|]. split; [shape_skipped|].
              split; intros; discriminate.
           ++ destruct (record_step w idx step prev) as [m|e] eqn:Hrec;
                intros H; inversion H; subst; clear H;
                (split; [now left|]); (split; [shape_events|]);
                (split; [shape_skipped|]); (split; [|intros; discriminate]).
              ** intros m' Hm. inversion Hm; subst. reflexivity.
              ** intros; discriminate.
        -- intros H; inversion H; subst; clear H.
           split; [now left|]. split; [shape_events|]. split; [shape_skipped|].
           split; intros; discriminate.
    + cbn [fst snd].
      destruct (match after_wait wf step with Some a => _ | None => _ end).
      * intros H; inversion H; subst; clear H.
        split; [now left|]. split; [shape_events|]. split; [shape_skipped|].
        split; intros; discriminate.
      * destruct (record_step w idx step prev) as [m|e] eqn:Hrec;
          intros H; inversion H; subst; clear H;
          (split; [now left|]); (split; [shape_events|]);
          (split; [shape_skipped|]); (split; [|intros; discriminate]).
        -- intros m' Hm. inversion Hm; subst. reflexivity.
        -- intros; discriminate.
  - destruct (optional step || CONTINUE_ON_ERROR (settings eng)) eqn:E;
      intros H; inversion H; subst; clear H.
    + split; [now left|]. split; [shape_events|].
      split; [split; intros _; [reflexivity | right; now left]|].
      split; intros; discriminate.
    + split; [now left|]. split; [shape_events|]. split; [shape_skipped|].
      split; [intros; discriminate|].
      intros _ _ _. apply orb_false_iff in E. tauto.
Qed.

Lemma not_skipped_outside lo hi b evs i :
  Forall (within lo hi b) evs -> ~ (lo <= i < hi)%nat -> ~ In (StepSkipped i) evs.
Proof.
  intros Hall Hout Hin. rewrite Forall_forall in Hall.
  apply Hall in Hin. cbn [within] in Hin. tauto.
Qed.

(** What the step loop leaves behind, from step [idx] on. *)
Lemma step_loop_shape eng w wf todo : forall idx prev metas x evs,
  step_loop eng w wf idx todo prev metas = (x, evs) ->
  exists added,
    metas_of x = (metas ++ added)%list
    /\ StronglySorted lt (map step_number added)
    /\ Forall (within idx (idx + length todo) (interactive_auth eng)) evs
    /\ (forall m, In m added ->
          (idx <= step_number m < idx + length todo)%nat
          /\ In (StepExecuted (step_number m)) evs
          /\ ~ In (StepSkipped (step_number m)) evs
          /\ exists step prev',
               nth_error todo (step_number m - idx) = Some step
               /\ record_step w (step_number m) step prev' = Ok m)
    /\ (forall metas', x = Finished metas' ->
          forall i, (idx <= i < idx + length todo)%nat ->
            In (StepExecuted i) evs
            /\ (In (StepSkipped i) evs \/ recorded added i))
    /\ (forall e fs metas', x = Aborted e (Some fs) metas' ->
          CONTINUE_ON_ERROR (settings eng) = false)
    /\ url_chain prev added.
Proof.
  induction todo as [|step rest IH]; intros idx prev metas x evs H;
    cbn [step_loop] in H.
  - inversion H; subst. exists []. cbn [metas_of map length url_chain].
    rewrite app_nil_r. split; [reflexivity|]. split; [constructor|].
    split; [constructor|]. split; [intros m []|].
    split; [intros _ _ i Hi; lia|]. split; [intros; discriminate | exact I].
  - destruct (run_step eng w wf idx step prev) as [[|m|e info|e] evs0] eqn:Hr;
      destruct (run_step_shape _ _ _ _ _ _ Hr) as [Hex [Hev [Hsk [Hrec Hfail]]]].
    + (* tolerated failure *)
      destruct (step_loop eng w wf (S idx) rest prev metas) as [x1 evs1] eqn:Hl.
      inversion H; subst; clear H.
      destruct (IH _ _ _ _ _ Hl) as [added [Hm [Hs [Hw [Hin [Hfin [Hab Hch]]]]]]].
      exists added. cbn [length].
      split; [exact Hm|]. split; [exact Hs|]. split.
      { apply Forall_app. split.
        - eapply Forall_impl; [|exact Hev]. intros ev. apply within_weaken; lia.
        - eapply Forall_impl; [|exact Hw]. intros ev. apply within_weaken; lia. }
      split.
      { intros m Hmin.
        destruct (Hin m Hmin) as [Hr1 [Hr2 [Hr3 [st [prev' [Hn Hst]]]]]].
        split; [lia|]. split; [apply in_or_app; now right|]. split.
        - intros Hx. apply in_app_or in Hx. destruct Hx as [Hx|Hx]; [|tauto].
          revert Hx. apply (@not_skipped_outside _ _ _ _ _ Hev). lia.
        - exists st, prev'. split; [|exact Hst].
          replace (step_number m - idx)%nat with (S (step_number m - S idx)) by lia.
          exact Hn. }
      split; [|split; [exact Hab | exact Hch]].
      intros metas' Hx i Hi. destruct (Nat.eq_dec i idx) as [->|Hne].
      * split; [apply in_or_app; now left|]. left. apply in_or_app. left.
        now apply Hsk.
      * destruct (Hfin metas' Hx i) as [H1 H2]; [lia|].
        split; [apply in_or_app; now right|].
        destruct H2 as [H2|H2]; [left; apply in_or_app; now right | now right].
    + (* an entry is recorded *)
      destruct (step_loop eng w wf (S idx) rest (url_current m) (metas ++ [m])%list)
        as [x1 evs1] eqn:Hl.
      inversion H; subst; clear H.
      destruct (IH _ _ _ _ _ Hl) as [added [Hm [Hs [Hw [Hin [Hfin [Hab Hch]]]]]]].
      pose proof (Hrec m eq_refl) as Hrecm.
      destruct (record_step_fields _ _ _ _ Hrecm) as [Hnum [_ [_ [Hchg _]]]].
      exists (m :: added). cbn [length map url_chain].
      split; [rewrite Hm, <- app_assoc; reflexivity|]. split.
      { constructor; [exact Hs|]. rewrite Forall_forall. intros n Hn.
        apply in_map_iff in Hn. destruct Hn as [m' [<- Hm']].
        destruct (Hin m' Hm') as [Hr1 _]. lia. }
      split.
      { apply Forall_app. split.
        - eapply Forall_impl; [|exact Hev]. intros ev. apply within_weaken; lia.
        - eapply Forall_impl; [|exact Hw]. intros ev. apply within_weaken; lia. }
      split.
      { intros m' [<-|Hmin].
        - rewrite Hnum. split; [lia|]. split; [apply in_or_app; now left|]. split.
          + intros Hx. apply in_app_or in Hx. destruct Hx as [Hx|Hx].
            * apply Hsk in Hx. discriminate.
            * revert Hx. apply (@not_skipped_outside _ _ _ _ _ Hw). lia.
          + exists step, prev. rewrite Nat.sub_diag. auto.
        - destruct (Hin m' Hmin) as [Hr1 [Hr2 [Hr3 [st [prev' [Hn Hst]]]]]].
          split; [lia|]. split; [apply in_or_app; now right|]. split.
          + intros Hx. apply in_app_or in Hx. destruct Hx as [Hx|Hx]; [|tauto].
            revert Hx. apply (@not_skipped_outside _ _ _ _ _ Hev). lia.
          + exists st, prev'. split; [|exact Hst].
            replace (step_number m' - idx)%nat
              with (S (step_number m' - S idx)) by lia.
            exact Hn. }
      split; [|split; [exact Hab | split; [exact Hchg | exact Hch]]].
      intros metas' Hx i Hi. destruct (Nat.eq_dec i idx) as [->|Hne].
      * split; [apply in_or_app; now left|]. right. exists m. split; [now left|].
        exact Hnum.
      * destruct (Hfin metas' Hx i) as [H1 H2]; [lia|].
        split; [apply in_or_app; now right|].
        destruct H2 as [H2|[m' [Hm' Hn']]];
          [left; apply in_or_app; now right|].
        right. exists m'. split; [now right | exact Hn'].
    + (* the step failed and the loop is left *)
      inversion H; subst; clear H. exists []. cbn [metas_of map length url_chain].
      rewrite app_nil_r. split; [reflexivity|]. split; [constructor|]. split.
      { eapply Forall_impl; [|exact Hev]. intros ev. apply within_weaken; lia. }
      split; [intros m []|]. split; [intros; discriminate|].
      split; [|exact I].
      intros e' fs metas' _. exact (Hfail e info eq_refl).
    + (* an exception outside the step's try *)
      inversion H; subst; clear H. exists []. cbn [metas_of map length url_chain].
      rewrite app_nil_r. split; [reflexivity|]. split; [constructor|]. split.
      { eapply Forall_impl; [|exact Hev]. intros ev. apply within_weaken; lia. }
      split; [intros m []|]. split; [intros; discriminate|].
      split; [intros; discriminate | exact I].
Qed.

Lemma open_session_outside eng w wf :
  Forall (outside_steps (interactive_auth eng)) (snd (open_session eng w wf)).
Proof.
  unfold open_session. destruct (w_open_session w); [constructor|].
  destruct (use_storage_state wf && negb (w_storage_exists w) && interactive_auth eng)
    eqn:E; cbn [snd]; repeat constructor.
  cbn [outside_steps]. apply andb_true_iff in E. tauto.
Qed.

(** A run either stops before the step loop, with an empty step list, or
    is the step loop between the events of the set-up and those of the
    closing. *)
Lemma run_workflow_shape eng w wf :
  let r := run_workflow eng w wf in
  (steps_meta r = [] /\ metadata_written r = false
   /\ Forall (outside_steps (interactive_auth eng)) (events r)
   /\ forall res, outcome r = Ok res -> failed_step res = None)
  \/ exists x evl pre post,
       step_loop eng w wf 1 (steps wf) "" [] = (x, evl)
       /\ events r = (pre ++ evl ++ post)%list
       /\ steps_meta r = metas_of x
       /\ Forall (outside_steps (interactive_auth eng)) pre
       /\ Forall (outside_steps (interactive_auth eng)) post
       /\ (metadata_written r = true -> exists metas, x = Finished metas)
       /\ (forall res fs, outcome r = Ok res -> failed_step res = Some fs ->
             exists e metas, x = Aborted e (Some fs) metas).
Proof.
  cbv zeta. unfold run_workflow.
  destruct (w_mkdir w).
  { left. cbn. repeat split; try constructor. intros; discriminate. }
  destruct (w_write_manifest w).
  { left. cbn. repeat split; repeat constructor. intros; discriminate. }
  destruct (w_attach_log w).
  { left. cbn. repeat split; repeat constructor. intros; discriminate. }
  destruct (w_launch w).
  { left. cbn. repeat split; repeat constructor. intros; discriminate. }
  pose proof (open_session_outside eng w wf) as Hos.
  destruct (open_session eng w wf) as [[e|] evs]; cbn [snd] in Hos.
  { left. cbn [steps_meta metadata_written events outcome].
    split; [reflexivity|]. split; [reflexivity|]. split.
    - apply Forall_app. split; [repeat constructor | exact Hos].
    - intros res H. inversion H; subst. reflexivity. }
  right.
  destruct (step_loop eng w wf 1 (steps wf) "" []) as [[metas|e info metas] evl].
  - destruct (w_close_browser w) as [e|];
      cbn [steps_meta metadata_written events outcome].
    + exists (Finished metas), evl,
        ((([RunDirCreated (run_directory eng w wf)]
          ++ [ManifestWritten (run_directory eng w wf ++ "/manifest.json")])
         ++ [BrowserLaunched]) ++ evs)%list,
        (if match w_write_metadata w with None => true | Some _ => false end
         then [MetadataWritten (run_directory eng w wf ++ "/metadata.json")]
         else []).
      split; [reflexivity|]. split; [now rewrite <- !app_assoc|].
      split; [reflexivity|]. split.
      { apply Forall_app. split; [repeat constructor | exact Hos]. }
      split.
      { destruct (w_write_metadata w); repeat constructor. }
      split; [intros _; now exists metas|].
      intros res fs H Hfs. inversion H; subst. discriminate.
    + exists (Finished metas), evl,
        ((([RunDirCreated (run_directory eng w wf)]
          ++ [ManifestWritten (run_directory eng w wf ++ "/manifest.json")])
         ++ [BrowserLaunched]) ++ evs)%list,
        ((if match w_write_metadata w with None => true | Some _ => false end
          then [MetadataWritten (run_directory eng w wf ++ "/metadata.json")]
          else []) ++ [BrowserClosed])%list.
      split; [reflexivity|]. split; [now rewrite <- !app_assoc|].
      split; [reflexivity|]. split.
      { apply Forall_app. split; [repeat constructor | exact Hos]. }
      split.
      { destruct (w_write_metadata w); repeat constructor. }
      split; [intros _; now exists metas|].
      intros res fs H Hfs. inversion H; subst. discriminate.
  - cbn [steps_meta metadata_written events outcome].
    exists (Aborted e info metas), evl,
      ((([RunDirCreated (run_directory eng w wf)]
        ++ [ManifestWritten (run_directory eng w wf ++ "/manifest.json")])
       ++ [BrowserLaunched]) ++ evs)%list, [].
    split; [reflexivity|]. split; [now rewrite app_nil_r|].
    split; [reflexivity|]. split.
    { apply Forall_app. split; [repeat constructor | exact Hos]. }
    split; [constructor|]. split; [discriminate|].
    intros res fs H Hfs. inversion H; subst. cbn [failure failed_step] in Hfs.
    subst info. now exists e, metas.
Qed.

Lemma outside_not_step b evs ev :
  Forall (outside_steps b) evs -> In ev evs ->
  match ev with
  | StepExecuted _ | StepReexecuted _ | StepSkipped _ => False
  | InteractiveLogin _ => b = true
  | _ => True
  end.
Proof. intros H Hin. rewrite Forall_forall in H. exact (H ev Hin). Qed.

(** X20. In every run, whatever the browser and the file system do, the
    entries of the step list are numbered in strictly increasing order;
    each entry carries the position (from 1) of a step of the workflow,
    that step's action and description, and the run executed that step
    and did not skip it. *)
Theorem steps_meta_follows_the_steps (eng : Engine) (w : World) (wf : Workflow) :
  let r := run_workflow eng w wf in
  StronglySorted lt (map step_number (steps_meta r))
  /\ forall m, In m (steps_meta r) ->
       (1 <= step_number m <= length (steps wf))%nat
       /\ In (StepExecuted (step_number m)) (events r)
       /\ ~ In (StepSkipped (step_number m)) (events r)
       /\ exists step, nth_error (steps wf) (step_number m - 1) = Some step
                       /\ action_type m = action_value (action step)
                       /\ meta_description m = describe step.
Proof.
  cbv zeta.
  destruct (run_workflow_shape eng w wf)
    as [[Hm _]|[x [evl [pre [post [Hl [Hev [Hm [Hpre [Hpost _]]]]]]]]]].
  - rewrite Hm. split; [constructor|]. intros m [].
  - destruct (@step_loop_shape _ _ _ _ _ _ _ _ _ Hl) as [added [Ha [Hs [Hw [Hin _]]]]].
    cbn [app] in Ha. rewrite Hm, Ha, Hev. split; [exact Hs|].
    intros m Hmin. destruct (Hin m Hmin) as [Hr [Hex [Hsk [st [prev' [Hn Hst]]]]]].
    destruct (record_step_fields _ _ _ _ Hst) as [_ [Hact [Hdesc _]]].
    split; [lia|]. split.
    { apply in_or_app. right. apply in_or_app. now left. }
    split; [|exists st; auto].
    intros Hx. apply in_app_or in Hx. destruct Hx as [Hx|Hx].
    + exact (@outside_not_step _ _ _ Hpre Hx).
    + apply in_app_or in Hx. destruct Hx as [Hx|Hx]; [tauto|].
      exact (@outside_not_step _ _ _ Hpost Hx).
Qed.

(** X21. An engine created without interactive authentication never opens
    a login window and never executes a step a second time. *)
Theorem no_login_without_interactive_auth (eng : Engine) (w : World) (wf : Workflow)
    (disabled : interactive_auth eng = false) :
  Forall (fun ev => match ev with
                    | InteractiveLogin _ | StepReexecuted _ => False
                    | _ => True
                    end)
         (events (run_workflow eng w wf)).
Proof.
  assert (Hout : forall evs ev,
             Forall (outside_steps (interactive_auth eng)) evs -> In ev evs ->
             match ev with
             | InteractiveLogin _ | StepReexecuted _ => False
             | _ => True
             end).
  { intros evs ev H Hin. pose proof (@outside_not_step _ _ _ H Hin) as Hx.
    destruct ev; try exact I; try exact Hx. congruence. }
  apply Forall_forall. intros ev Hin.
  destruct (run_workflow_shape eng w wf)
    as [[_ [_ [Hall _]]]|[x [evl [pre [post [Hl [Hev [_ [Hpre [Hpost _]]]]]]]]]].
  - exact (Hout _ _ Hall Hin).
  - rewrite Hev in Hin. apply in_app_or in Hin. destruct Hin as [Hin|Hin];
      [exact (Hout _ _ Hpre Hin)|].
    apply in_app_or in Hin. destruct Hin as [Hin|Hin]; [|exact (Hout _ _ Hpost Hin)].
    destruct (@step_loop_shape _ _ _ _ _ _ _ _ _ Hl) as [added [_ [_ [Hw _]]]].
    rewrite Forall_forall in Hw. specialize (Hw ev Hin).
    destruct ev; try exact I; cbn [within] in Hw; [congruence|].
    destruct Hw as [_ Hw]. congruence.
Qed.

(** X21 with the optional first step failing. *)
Lemma no_login_without_interactive_auth_witness :
  Forall (fun ev => match ev with
                    | InteractiveLogin _ | StepReexecuted _ => False
                    | _ => True
                    end)
         (events (run_workflow (mkEngine Actions.default_settings false)
                               world_first_step_fails wf_optional_first)).
Proof.
  apply (@no_login_without_interactive_auth
           (mkEngine Actions.default_settings false)
           world_first_step_fails wf_optional_first).
  reflexivity.
Defined.

(** X22. With CONTINUE_ON_ERROR set, no result names a failed step: the
    failure of a step's operation never ends the run. *)
Theorem continue_on_error_names_no_failed_step
    (eng : Engine) (w : World) (wf : Workflow)
    (continue : CONTINUE_ON_ERROR (settings eng) = true) :
  match outcome (run_workflow eng w wf) with
  | Ok res => failed_step res = None
  | Raise _ => True
  end.
Proof.
  destruct (outcome (run_workflow eng w wf)) as [res|e0] eqn:Hres; [|exact I].
  destruct (run_workflow_shape eng w wf)
    as [[_ [_ [_ Hnone]]]|[x [evl [pre [post [Hl [_ [_ [_ [_ [_ Hfs]]]]]]]]]]].
  - exact (Hnone res Hres).
  - destruct (failed_step res) as [fs|] eqn:E; [|reflexivity].
    destruct (Hfs res fs Hres E) as [e [metas Hx]].
    destruct (@step_loop_shape _ _ _ _ _ _ _ _ _ Hl)
      as [added [_ [_ [_ [_ [_ [Hab _]]]]]]].
    rewrite (Hab e fs metas Hx) in continue. discriminate.
Qed.

(** X22 with a required first step that fails. *)
Lemma continue_on_error_names_no_failed_step_witness :
  match outcome (run_workflow
                   (mkEngine (mkSettings "/work/datasets" "png" 90 true 3 1000 true)
                             true)
                   world_first_step_fails wf_required_first) with
  | Ok res => failed_step res = None
  | Raise _ => True
  end.
Proof.
  apply (@continue_on_error_names_no_failed_step
           (mkEngine (mkSettings "/work/datasets" "png" 90 true 3 1000 true) true)
           world_first_step_fails wf_required_first).
  reflexivity.
Defined.

(** X23. metadata.json is written only when the step loop has gone
    through the whole workflow: then every step was executed, and each
    step was either skipped after a tolerated failure or has an entry in
    the step list, never both. *)
Theorem metadata_accounts_for_every_step (eng : Engine) (w : World) (wf : Workflow)
    (written : metadata_written (run_workflow eng w wf) = true) :
  let r := run_workflow eng w wf in
  Forall (fun i =>
            In (StepExecuted i) (events r)
            /\ ((In (StepSkipped i) (events r) /\ ~ recorded (steps_meta r) i)
                \/ (recorded (steps_meta r) i /\ ~ In (StepSkipped i) (events r))))
         (seq 1 (length (steps wf))).
Proof.
  cbv zeta. apply Forall_forall. intros i Hi. apply in_seq in Hi.
  destruct (run_workflow_shape eng w wf)
    as [[_ [Hno _]]|[x [evl [pre [post [Hl [Hev [Hm [Hpre [Hpost [Hfin _]]]]]]]]]]].
  - congruence.
  - destruct (Hfin written) as [metas Hx].
    destruct (@step_loop_shape _ _ _ _ _ _ _ _ _ Hl)
      as [added [Ha [_ [_ [Hin [Hall _]]]]]].
    cbn [app] in Ha. rewrite Hm, Ha, Hev.
    destruct (Hall metas Hx i) as [Hex Hcase]; [lia|].
    assert (Hskip : In (StepSkipped i) (pre ++ evl ++ post) -> In (StepSkipped i) evl).
    { intros Hs. apply in_app_or in Hs. destruct Hs as [Hs|Hs];
        [destruct (@outside_not_step _ _ _ Hpre Hs)|].
      apply in_app_or in Hs. destruct Hs as [Hs|Hs]; [exact Hs|].
      destruct (@outside_not_step _ _ _ Hpost Hs). }
    assert (Hexcl : recorded added i -> ~ In (StepSkipped i) evl).
    { intros [m [Hmin <-]]. destruct (Hin m Hmin) as [_ [_ [Hns _]]]. exact Hns. }
    split.
    { apply in_or_app. right. apply in_or_app. now left. }
    destruct Hcase as [Hs|Hr].
    + left. split.
      * apply in_or_app. right. apply in_or_app. now left.
      * intros Hr. exact (Hexcl Hr Hs).
    + right. split; [exact Hr|]. intros Hs. exact (Hexcl Hr (Hskip Hs)).
Qed.

(** X23 with the optional first step failing. *)
Lemma metadata_accounts_for_every_step_witness :
  let r := run_workflow engine0 world_first_step_fails wf_optional_first in
  Forall (fun i =>
            In (StepExecuted i) (events r)
            /\ ((In (StepSkipped i) (events r) /\ ~ recorded (steps_meta r) i)
                \/ (recorded (steps_meta r) i /\ ~ In (StepSkipped i) (events r))))
         (seq 1 (length (steps wf_optional_first))).
Proof.
  apply (@metadata_accounts_for_every_step engine0 world_first_step_fails
           wf_optional_first).
  vm_compute. reflexivity.
Defined.

(** X24. In every run, each entry of the step list says whether its URL
    differs from that of the entry before it in the list (the empty URL
    before the first), so a skipped step is not compared with; and an
    entry's capture reason is [workflow_start] exactly when it is the
    entry of step 1. *)
Theorem entries_compare_with_previous_entry
    (eng : Engine) (w : World) (wf : Workflow) :
  let r := run_workflow eng w wf in
  url_chain "" (steps_meta r)
  /\ forall m, In m (steps_meta r) ->
       (capture_reason m = "workflow_start" <-> step_number m = 1%nat).
Proof.
  cbv zeta.
  destruct (run_workflow_shape eng w wf)
    as [[Hm _]|[x [evl [pre [post [Hl [_ [Hm _]]]]]]]].
  - rewrite Hm. split; [exact I | intros m []].
  - destruct (@step_loop_shape _ _ _ _ _ _ _ _ _ Hl)
      as [added [Ha [_ [_ [Hin [_ [_ Hch]]]]]]].
    cbn [app] in Ha. rewrite Hm, Ha. split; [exact Hch|].
    intros m Hmin. destruct (Hin m Hmin) as [_ [_ [_ [st [prev' [_ Hst]]]]]].
    destruct (record_step_fields _ _ _ _ Hst) as [_ [_ [_ [_ Hcap]]]].
    rewrite Hcap. unfold capture_reason_of.
    destruct (step_number m =? 1)%nat eqn:E.
    + apply Nat.eqb_eq in E. tauto.
    + apply Nat.eqb_neq in E.
      destruct (has_modal m); [|destruct (changed_from_previous m)];
        (split; [discriminate | tauto]).
Qed.

(** X25. [_looks_like_login] ignores case and looks for its keywords
    anywhere in the URL: a URL that contains one of them, in any mix of
    upper and lower case ASCII letters, looks like a login page, wherever
    the keyword stands. *)
Theorem looks_like_login_anywhere (before piece after : string)
    (keyword : In (PyStr.lower piece)
                  ["login"; "signin"; "auth"; "session"; "accounts.google.com"]) :
  _looks_like_login (before ++ piece ++ after) = true.
Proof.
  unfold _looks_like_login. cbv zeta. apply existsb_exists.
  exists (PyStr.lower piece). split; [exact keyword|].
  rewrite !PyStrFacts.lower_app. apply PyStrFacts.contains_app.
Qed.

(** X25 at a page listing authors. *)
Lemma looks_like_login_anywhere_witness :
  _looks_like_login ("https://example.test/" ++ "Auth" ++ "ors") = true.
Proof.
  apply (@looks_like_login_anywhere "https://example.test/" "Auth" "ors").
  cbn. tauto.
Defined.

End RunFacts.

(* ------------------------------------------------------------------ *)
(** ** The list of running animations                                  *)
(* ------------------------------------------------------------------ *)

Module AnimationsFacts.
Import Stability Animations.
Local Open Scope string_scope.

Lemma filled_length n a d : length (filled n a d) = n.
Proof. unfold filled. now rewrite length_map, length_seq. Qed.

Lemma at_or_nonzero a i : ~ (at_or a i 1 == 0)%Q.
Proof.
  unfold at_or. destruct (nth_error a i) as [x|]; [|discriminate].
  destruct (Qeq_bool x 0) eqn:E; [discriminate|].
  intros H. apply Qeq_bool_iff in H. congruence.
Qed.

(** A positive entry survives the filling. *)
Lemma filled_some_positive n a :
  (length a <= n)%nat -> some_positive a = true -> some_positive (filled n a 0) = true.
Proof.
  unfold some_positive, filled. intros Hn H.
  apply existsb_exists in H. destruct H as [x [Hin Hx]].
  destruct (In_nth_error _ _ Hin) as [i Hi].
  apply existsb_exists. exists x. split; [|exact Hx].
  apply in_map_iff. exists i. split.
  - unfold at_or. rewrite Hi.
    destruct (Qeq_bool x 0) eqn:E; [|reflexivity].
    apply Qeq_bool_iff in E. apply negb_true_iff in Hx.
    assert (Hle : Qle_bool x 0 = true).
    { apply Qle_bool_iff. rewrite E. apply Qle_refl. }
    congruence.
  - apply in_seq. assert (i < length a)%nat by (apply nth_error_Some; congruence).
    lia.
Qed.

Lemma scan_entries dom hint_of rect_of el e :
  In e (scan dom hint_of rect_of el) ->
  length (delays_ms e) = length (durations_ms e)
  /\ length (iteration_count e) = length (durations_ms e)
  /\ some_positive (durations_ms e) = true
  /\ Forall (fun v => ~ (v == 0)%Q) (iteration_count e)
  /\ ((type e = "transition"
       /\ iteration_count e = repeat 1%Q (length (durations_ms e)))
      \/ type e = "animation").
Proof.
  unfold scan. cbv zeta. intros Hin. apply in_app_or in Hin.
  destruct Hin as [Hin|Hin].
  - destruct (some_positive (map to_ms (transitionDuration (getComputedStyle dom el))))
      eqn:Hp; [|contradiction].
    destruct Hin as [<-|[]].
    cbn [delays_ms durations_ms iteration_count type].
    rewrite !filled_length, repeat_length.
    split; [reflexivity|]. split; [reflexivity|]. split.
    { apply filled_some_positive; [lia | exact Hp]. }
    split; [|left; split; reflexivity].
    apply Forall_forall. intros v Hv. apply repeat_spec in Hv. subst v.
    discriminate.
  - destruct (some_positive (map to_ms (animationDuration (getComputedStyle dom el))))
      eqn:Hp; [|contradiction].
    destruct Hin as [<-|[]].
    cbn [delays_ms durations_ms iteration_count type].
    rewrite !filled_length.
    split; [reflexivity|]. split; [reflexivity|]. split.
    { apply filled_some_positive; [lia | exact Hp]. }
    split; [|right; reflexivity].
    apply Forall_forall. intros v Hv. unfold filled in Hv.
    apply in_map_iff in Hv. destruct Hv as [i [<- _]]. apply at_or_nonzero.
Qed.

(** X10. Every entry [list_running] returns is well formed: its three
    lists have the same length, one of its durations is positive, no
    iteration count is zero, and a transition has an iteration count of 1
    throughout; an element without a positive duration gives no entry,
    whatever its delays. *)
Theorem list_running_entries
    (dom : Dom) (hint_of : nat -> string) (rect_of : nat -> Q * Q * Q * Q)
    (root_selector : option string) :
  Forall (fun e =>
            length (delays_ms e) = length (durations_ms e)
            /\ length (iteration_count e) = length (durations_ms e)
            /\ some_positive (durations_ms e) = true
            /\ Forall (fun v => ~ (v == 0)%Q) (iteration_count e)
            /\ ((type e = "transition"
                 /\ iteration_count e = repeat 1%Q (length (durations_ms e)))
                \/ type e = "animation"))
         (list_running dom hint_of rect_of root_selector).
Proof.
  apply Forall_forall.
  intros e Hin. unfold list_running in Hin. cbv zeta in Hin.
  apply in_flat_map in Hin. destruct Hin as [root [_ Hin]].
  apply in_flat_map in Hin. destruct Hin as [el [_ Hin]].
  exact (scan_entries _ _ _ _ _ Hin).
Qed.

End AnimationsFacts.

(* ------------------------------------------------------------------ *)
(** ** Backdrops                                                       *)
(* ------------------------------------------------------------------ *)

Module BackdropFacts.
Import Modal.

Lemma explicit_backdrop_agree page page' : forall n i,
  (forall j, (i <= j < i + n)%nat -> backdrop_visible page j = backdrop_visible page' j) ->
  explicit_backdrop page i n = explicit_backdrop page' i n.
Proof.
  induction n as [|n IH]; intros i H; cbn [explicit_backdrop]; [reflexivity|].
  rewrite <- (H i) by lia.
  destruct (backdrop_visible page i) as [[|]|]; try reflexivity.
  apply IH. intros j Hj. apply H. lia.
Qed.

(** X13. [_has_backdrop] looks at no more than the first five explicit
    backdrops: two pages that have as many of them and agree on the
    visibility of the first five give the same answer for the same
    modal. *)
Theorem has_backdrop_reads_first_five (page page' : Page) (modal : Element)
    (same_count : backdrop_count page = backdrop_count page')
    (same_first_five : forall j, (j < 5)%nat ->
                                 backdrop_visible page j = backdrop_visible page' j) :
  _has_backdrop page modal = _has_backdrop page' modal.
Proof.
  unfold _has_backdrop, bind. rewrite <- same_count.
  destruct (backdrop_count page) as [c|]; [|reflexivity].
  rewrite (@explicit_backdrop_agree page page' (Nat.min 5 c) 0); [reflexivity|].
  intros j Hj. apply same_first_five. lia.
Qed.

(** X13 on two pages with nine backdrops that differ from the sixth on. *)
Lemma has_backdrop_reads_first_five_witness :
  _has_backdrop (mkPage (Ok []) (Ok 9%nat) (fun _ => Ok false) 1366 768) (dialog 10)
  = _has_backdrop (mkPage (Ok []) (Ok 9%nat) (fun j => Ok (5 <=? j)%nat) 1366 768)
                  (dialog 10).
Proof.
  apply (@has_backdrop_reads_first_five
           (mkPage (Ok []) (Ok 9%nat) (fun _ => Ok false) 1366 768)
           (mkPage (Ok []) (Ok 9%nat) (fun j => Ok (5 <=? j)%nat) 1366 768)
           (dialog 10)).
  - reflexivity.
  - intros j Hj. cbn [backdrop_visible].
    replace (5 <=? j)%nat with false; [reflexivity|].
    symmetry. apply Nat.leb_gt. exact Hj.
Defined.

End BackdropFacts.

(* ------------------------------------------------------------------ *)
(** ** Role selectors                                                  *)
(* ------------------------------------------------------------------ *)

Module LocatorFacts.
Import PyStr Locator.
Local Open Scope string_scope.

Lemma strip_head (s : string) :
  strip s = s ->
  match s with
  | EmptyString => True
  | String c _ => isspace c = false
  end.
Proof.
  intros H. rewrite <- H. unfold strip.
  apply PyStrFacts.rstrip_head. apply PyStrFacts.lstrip_head.
Qed.

Lemma strip_rstrip (s : string) : strip s = s -> rstrip s = s.
Proof.
  intros H. rewrite <- H at 1. unfold strip.
  rewrite PyStrFacts.rstrip_idempotent. exact H.
Qed.

Lemma rstrip_app_kept (a b : string) :
  rstrip b <> "" -> rstrip (a ++ b) = a ++ rstrip b.
Proof.
  intros Hb. induction a as [|c rest IH]; [reflexivity|].
  cbn [append rstrip]. rewrite IH.
  destruct (rest ++ rstrip b) as [|c' r] eqn:E; [|reflexivity].
  destruct rest; [|discriminate]. cbn [append] in E. now elim Hb.
Qed.

Lemma substring_all (s : string) : String.substring 0 (String.length s) s = s.
Proof. induction s as [|c rest IH]; cbn; [reflexivity|]. now rewrite IH. Qed.

Lemma prefix_empty (s : string) : String.prefix "" s = true.
Proof. now destruct s. Qed.

Lemma split_once_pipe (r n : string) :
  split_once "|" r = None -> split_once "|" (r ++ String "|" n) = Some (r, n).
Proof.
  induction r as [|c rest IH]; intros H.
  - cbn [append split_once String.prefix].
    destruct (ascii_dec "|" "|") as [_|Hne]; [|now elim Hne].
    rewrite prefix_empty. cbn [String.length Nat.sub String.substring].
    rewrite Nat.sub_0_r. now rewrite substring_all.
  - cbn [append]. cbn [split_once] in H |- *.
    cbn [String.prefix] in H |- *.
    destruct (ascii_dec "|" c) as [Heq|Hne].
    + rewrite prefix_empty in H. discriminate.
    + destruct (split_once "|" rest) as [[x y]|] eqn:E; [discriminate|].
      now rewrite (IH eq_refl).
Qed.

(** X16. The pipe notation of a role selector: for a role and a name that
    carry no surrounding white space, the role holding no pipe,
    [_parse_role_value] reads "role|name" back as that role and that name,
    and as the role alone when the name is empty. *)
Theorem parse_role_value_pipe (r n : string)
    (role_stripped : strip r = r) (name_stripped : strip n = n)
    (no_pipe : split_once "|" r = None) :
  _parse_role_value (r ++ "|" ++ n) = (r, nonempty n).
Proof.
  unfold _parse_role_value. cbv zeta.
  change ("|" ++ n) with (String "|" n).
  assert (Hs : strip (r ++ String "|" n) = r ++ String "|" n).
  { unfold strip. rewrite PyStrFacts.lstrip_fixed.
    - assert (Hn : rstrip (String "|" n) = String "|" n).
      { cbn [rstrip]. rewrite (strip_rstrip name_stripped).
        destruct n; reflexivity. }
      rewrite rstrip_app_kept; rewrite Hn; [reflexivity | discriminate].
    - pose proof (strip_head role_stripped) as Hh.
      destruct r as [|c rest]; [reflexivity | exact Hh]. }
  rewrite Hs, (@split_once_pipe r n no_pipe), role_stripped, name_stripped.
  reflexivity.
Qed.

(** X16 at a button with a name. *)
Lemma parse_role_value_pipe_witness :
  _parse_role_value ("button" ++ "|" ++ "Create Project")
  = ("button", nonempty "Create Project").
Proof.
  apply (@parse_role_value_pipe "button" "Create Project"); reflexivity.
Defined.

End LocatorFacts.
